(** * whatsapp_mine: chat-export parser and statistics engine

    A shallow embedding of [es4/whatsapp_mine.py] and the properties its
    specification states about it.

    Conventions of the embedding.
    - A Python [str] is a list of code points.  Code points are restricted
      to the Latin-1 range and represented by [ascii] (8 bits), so that the
      Unicode-aware classes of [re] and [str] ([\s], [\d], [str.strip],
      [str.splitlines], [str.lower]) are the restrictions of the Unicode
      tables to [0..255].
    - The regular expressions of the program are terms of a small regex
      syntax, matched by a backtracking matcher with the priorities of
      Python's [re] (leftmost alternative first, greedy repetition).
    - [datetime.strptime] is embedded after CPython's [_strptime.py]: the
      format is compiled to a regex, matched, and the groups converted.
    - A Python exception is the [None] of an [option].                     *)

From Stdlib Require Import Ascii String Bool Arith NArith ZArith QArith Lia List.
From Stdlib Require Import Sorting.Sorted Sorting.Permutation.
From Stdlib Require Import Lqa DecimalString.
Import ListNotations.

Set Implicit Arguments.
Close Scope Q_scope.

(* ================================================================== *)
(** * Strings                                                          *)
(* ================================================================== *)

Definition str := list ascii.

Definition s2l (s : string) : str := list_ascii_of_string s.

Declare Scope str_scope.
Delimit Scope str_scope with str.
Notation "$ s" := (s2l s) (at level 9, s at level 0, format "$ s") : str_scope.
Open Scope str_scope.
Open Scope char_scope.
Open Scope list_scope.

Definition code (c : ascii) : N := N_of_ascii c.

Definition in_range (lo hi c : ascii) : bool :=
  (code lo <=? code c)%N && (code c <=? code hi)%N.

Definition str_eqb (a b : str) : bool :=
  if list_eq_dec ascii_dec a b then true else false.

(** ** Character classes *)

(** [\d] on Latin-1: the ASCII decimal digits. *)
Definition is_digit (c : ascii) : bool := in_range "0" "9" c.

(** [\s] and [str.isspace] on Latin-1: TAB..CR, FS..US, SPACE, NEL, NBSP. *)
Definition is_space (c : ascii) : bool :=
  let n := code c in
  ((9 <=? n) && (n <=? 13) || (28 <=? n) && (n <=? 32)
   || (n =? 133) || (n =? 160))%N.

Definition LF : ascii := ascii_of_nat 10.
Definition CR : ascii := ascii_of_nat 13.

(** Line boundaries of [str.splitlines] on Latin-1:
    LF, VT, FF, CR, FS, GS, RS, NEL (and the pair CR LF). *)
Definition is_linebreak (c : ascii) : bool :=
  let n := code c in
  ((10 <=? n) && (n <=? 13) || (28 <=? n) && (n <=? 30) || (n =? 133))%N.

(** [[\/\.\-]] *)
Definition is_datesep (c : ascii) : bool :=
  Ascii.eqb c "/" || Ascii.eqb c "." || Ascii.eqb c "-".

(** [[^:]] *)
Definition not_colon (c : ascii) : bool := negb (Ascii.eqb c ":").

(** [.] without DOTALL: anything but LF. *)
Definition dot (c : ascii) : bool := negb (Ascii.eqb c LF).

(** [str.lower] on one Latin-1 code point. *)
Definition lower_char (c : ascii) : ascii :=
  let n := code c in
  if ((65 <=? n) && (n <=? 90)
      || (192 <=? n) && (n <=? 222) && negb (n =? 215))%N
  then ascii_of_N (n + 32) else c.

Definition lower (s : str) : str := map lower_char s.

(** ** [str.strip], [str.rstrip], [str.splitlines], [str.join] *)

Fixpoint lstrip (s : str) : str :=
  match s with
  | c :: s' => if is_space c then lstrip s' else s
  | [] => []
  end.

Definition rstrip (s : str) : str := rev (lstrip (rev s)).

Definition strip (s : str) : str := rstrip (lstrip s).

(** [line.rstrip("\n")] *)
Fixpoint lstrip_lf (s : str) : str :=
  match s with
  | c :: s' => if Ascii.eqb c LF then lstrip_lf s' else s
  | [] => []
  end.

Definition rstrip_lf (s : str) : str := rev (lstrip_lf (rev s)).

(** [splitlines_from cur s]: the lines of [s], the first one continuing
    the characters [cur] already read (kept in reverse).  No empty line is
    produced after the last boundary. *)
Fixpoint splitlines_from (cur : str) (s : str) : list str :=
  match s with
  | [] => match cur with [] => [] | _ => [rev cur] end
  | c :: s' =>
      if is_linebreak c then
        match s' with
        | d :: s'' =>
            if Ascii.eqb c CR && Ascii.eqb d LF
            then rev cur :: splitlines_from [] s''
            else rev cur :: splitlines_from [] s'
        | [] => [rev cur]
        end
      else splitlines_from (c :: cur) s'
  end.

Definition splitlines (s : str) : list str := splitlines_from [] s.

Fixpoint join (sep : str) (l : list str) : str :=
  match l with
  | [] => []
  | [x] => x
  | x :: rest => x ++ sep ++ join sep rest
  end.

(* ================================================================== *)
(** * Regular expressions                                              *)
(* ================================================================== *)

(** The fragment of [re] syntax the program and [_strptime] use.
    Repetition only ever applies to a single-character class. *)
Inductive regex : Type :=
| Eps
| Lit (c : ascii)
| Cls (p : ascii -> bool)
| Rep (p : ascii -> bool) (lo : nat) (hi : option nat)  (* p{lo,hi}, greedy *)
| Seq (r1 r2 : regex)
| Alt (r1 r2 : regex)                                   (* r1|r2 *)
| Opt (r : regex)                                       (* (?:r)? *)
| Grp (name : string) (r : regex)                       (* (?P<name>r) *)
| Bos                                                   (* ^ *)
| Eos.                                                  (* $ *)

Declare Scope re_scope.
Delimit Scope re_scope with re.
Notation "r1 ;; r2" := (Seq r1 r2) (at level 61, right associativity) : re_scope.
Notation "r1 <|> r2" := (Alt r1 r2) (at level 62, right associativity) : re_scope.
Open Scope re_scope.

(** The groups matched so far, most recent first. *)
Definition caps := list (string * str).

Fixpoint group (name : string) (c : caps) : option str :=
  match c with
  | [] => None
  | (n, v) :: c' => if String.eqb n name then Some v else group name c'
  end.

Definition lit_eqb (ic : bool) (x y : ascii) : bool :=
  if ic then Ascii.eqb (lower_char x) (lower_char y) else Ascii.eqb x y.

Section Matcher.
Variable A : Type.

(** Greedy bounded repetition of a character class: take one more
    character while allowed, and fall back to stopping here when the
    rest of the pattern fails. *)
Fixpoint rep (p : ascii -> bool) (lo : nat) (hi : option nat) (s : str)
         (k : str -> option A) {struct s} : option A :=
  let stop := match lo with O => k s | S _ => None end in
  match hi with
  | Some O => stop
  | _ =>
      match s with
      | c :: s' =>
          if p c then
            match rep p (pred lo) (option_map pred hi) s' k with
            | Some a => Some a
            | None => stop
            end
          else stop
      | [] => stop
      end
  end.

(** [run n0 ic r s c k]: match [r] at the head of [s], the subject
    having [n0] characters in all, then continue with [k]; the first
    success in priority order is the result.  [ic] is IGNORECASE. *)
Fixpoint run (n0 : nat) (ic : bool) (r : regex) (s : str) (c : caps)
         (k : str -> caps -> option A) {struct r} : option A :=
  match r with
  | Eps => k s c
  | Lit x =>
      match s with
      | y :: s' => if lit_eqb ic x y then k s' c else None
      | [] => None
      end
  | Cls p =>
      match s with
      | y :: s' => if p y then k s' c else None
      | [] => None
      end
  | Rep p lo hi => rep p lo hi s (fun s' => k s' c)
  | Seq r1 r2 => run n0 ic r1 s c (fun s' c' => run n0 ic r2 s' c' k)
  | Alt r1 r2 =>
      match run n0 ic r1 s c k with
      | Some a => Some a
      | None => run n0 ic r2 s c k
      end
  | Opt r1 =>
      match run n0 ic r1 s c k with
      | Some a => Some a
      | None => k s c
      end
  | Grp name r1 =>
      run n0 ic r1 s c
          (fun s' c' => k s' ((name, firstn (length s - length s') s) :: c'))
  | Bos => if (length s =? n0)%nat then k s c else None
  | Eos =>
      match s with
      | [] => k s c
      | [y] => if Ascii.eqb y LF then k s c else None
      | _ => None
      end
  end.
End Matcher.

(** [pattern.match(line)]: the groups of the first match at position 0. *)
Definition re_match (r : regex) (s : str) : option caps :=
  run (length s) false r s [] (fun _ c => Some c).

(** ** The patterns of the program *)

Definition digits (lo hi : nat) : regex := Rep is_digit lo (Some hi).
Definition spaces0 : regex := Rep is_space 0 None.
Definition spaces1 : regex := Rep is_space 1 None.
Definition word (w : string) : regex :=
  fold_right (fun c r => Lit c ;; r) Eps (s2l w).

(** [\d{1,2}[\/\.\-]\d{1,2}[\/\.\-]\d{2,4}] *)
Definition date_re : regex :=
  digits 1 2 ;; Cls is_datesep ;; digits 1 2 ;; Cls is_datesep ;; digits 2 4.

(** [\d{1,2}:\d{2}(?::\d{2})?\s*(?:AM|PM|am|pm)?] *)
Definition time_re : regex :=
  digits 1 2 ;; Lit ":" ;; digits 2 2 ;; Opt (Lit ":" ;; digits 2 2) ;;
  spaces0 ;; Opt (word "AM" <|> word "PM" <|> word "am" <|> word "pm").

(** [^(?P<date>..),?\s+(?P<time>..)\s+-\s+] *)
Definition android_head : regex :=
  Bos ;; Grp "date" date_re ;; Opt (Lit ",") ;; spaces1 ;;
  Grp "time" time_re ;; spaces1 ;; Lit "-" ;; spaces1.

(** [^\[(?P<date>..)(?:,\s+|\s+)(?P<time>..)\]] *)
Definition bracket_head : regex :=
  Bos ;; Lit "[" ;; Grp "date" date_re ;; (Lit "," ;; spaces1 <|> spaces1) ;;
  Grp "time" time_re ;; Lit "]".

(** [(?P<sender>[^:]+):\s*(?P<text>.* )$] *)
Definition sender_text : regex :=
  Grp "sender" (Rep not_colon 1 None) ;; Lit ":" ;; spaces0 ;;
  Grp "text" (Rep dot 0 None) ;; Eos.

(** [(?P<text>.* )$] *)
Definition text_only : regex := Grp "text" (Rep dot 0 None) ;; Eos.

Definition PATTERNS : list regex :=
  [ android_head ;; sender_text;
    bracket_head ;; spaces1 ;; sender_text ].

Definition SYSTEM_PATTERNS : list regex :=
  [ android_head ;; text_only;
    bracket_head ;; spaces1 ;; text_only ].

Definition BRACKET_TS_ONLY : regex := bracket_head ;; spaces0 ;; Eos.

Definition SENDER_ONLY : regex := Bos ;; sender_text.

(* ================================================================== *)
(** * datetime                                                         *)
(* ================================================================== *)

Open Scope Z_scope.

(** A naive [datetime]; the formats of the program never set microseconds. *)
Record datetime : Type := mkdt {
  year : Z; month : Z; day : Z; hour : Z; minute : Z; second : Z
}.

Definition is_leap (y : Z) : bool :=
  (y mod 4 =? 0) && (negb (y mod 100 =? 0) || (y mod 400 =? 0)).

Definition DAYS_IN_MONTH : list Z :=
  [31; 28; 31; 30; 31; 30; 31; 31; 30; 31; 30; 31].

Definition days_in_month (y m : Z) : Z :=
  if (m =? 2) && is_leap y then 29
  else nth (Z.to_nat (m - 1)) DAYS_IN_MONTH 0.

(** The checks of the [datetime] constructor (a failure is ValueError). *)
Definition valid_datetime (d : datetime) : bool :=
  (1 <=? year d) && (year d <=? 9999) &&
  (1 <=? month d) && (month d <=? 12) &&
  (1 <=? day d) && (day d <=? days_in_month (year d) (month d)) &&
  (0 <=? hour d) && (hour d <=? 23) &&
  (0 <=? minute d) && (minute d <=? 59) &&
  (0 <=? second d) && (second d <=? 59).

Definition days_before_year (y : Z) : Z :=
  let y1 := y - 1 in y1 * 365 + y1 / 4 - y1 / 100 + y1 / 400.

Definition days_before_month (y m : Z) : Z :=
  fold_right Z.add 0 (firstn (Z.to_nat (m - 1)) DAYS_IN_MONTH)
  + (if (2 <? m) && is_leap y then 1 else 0).

(** [date.toordinal()] *)
Definition toordinal (d : datetime) : Z :=
  days_before_year (year d) + days_before_month (year d) (month d) + day d.

(** [(a - b).total_seconds()], a whole number of seconds. *)
Definition seconds_between (a b : datetime) : Z :=
  (toordinal a - toordinal b) * 86400
  + (hour a - hour b) * 3600 + (minute a - minute b) * 60
  + (second a - second b).

(** Comparison of two [datetime]s: field by field, most significant first. *)
Definition dt_compare (a b : datetime) : comparison :=
  match year a ?= year b with
  | Eq => match month a ?= month b with
    | Eq => match day a ?= day b with
      | Eq => match hour a ?= hour b with
        | Eq => match minute a ?= minute b with
          | Eq => second a ?= second b
          | r => r end
        | r => r end
      | r => r end
    | r => r end
  | r => r
  end.

Definition dt_leb (a b : datetime) : bool :=
  match dt_compare a b with Gt => false | _ => true end.

Definition dt_ltb (a b : datetime) : bool :=
  match dt_compare a b with Lt => true | _ => false end.

(* ================================================================== *)
(** * [datetime.strptime]                                              *)
(* ================================================================== *)

Definition rng (lo hi : ascii) : regex := Cls (in_range lo hi).
Definition anyd : regex := Cls is_digit.

(** The directive table of [_strptime.TimeRE] (C locale). *)
Definition directive (d : ascii) : option regex :=
  if Ascii.eqb d "d" then
    Some (Grp "d" (Lit "3" ;; rng "0" "1" <|> rng "1" "2" ;; anyd
                   <|> Lit "0" ;; rng "1" "9" <|> rng "1" "9"
                   <|> Lit " " ;; rng "1" "9"))
  else if Ascii.eqb d "H" then
    Some (Grp "H" (Lit "2" ;; rng "0" "3" <|> rng "0" "1" ;; anyd <|> anyd))
  else if Ascii.eqb d "I" then
    Some (Grp "I" (Lit "1" ;; rng "0" "2" <|> Lit "0" ;; rng "1" "9"
                   <|> rng "1" "9"))
  else if Ascii.eqb d "m" then
    Some (Grp "m" (Lit "1" ;; rng "0" "2" <|> Lit "0" ;; rng "1" "9"
                   <|> rng "1" "9"))
  else if Ascii.eqb d "M" then
    Some (Grp "M" (rng "0" "5" ;; anyd <|> anyd))
  else if Ascii.eqb d "S" then
    Some (Grp "S" (Lit "6" ;; rng "0" "1" <|> rng "0" "5" ;; anyd <|> anyd))
  else if Ascii.eqb d "y" then
    Some (Grp "y" (anyd ;; anyd))
  else if Ascii.eqb d "Y" then
    Some (Grp "Y" (anyd ;; anyd ;; anyd ;; anyd))
  else if Ascii.eqb d "p" then
    Some (Grp "p" (Lit "a" ;; Lit "m" <|> Lit "p" ;; Lit "m"))
  else None.

(** [TimeRE.pattern]: a run of white space in the format becomes [\s+], a
    directive its regex, any other character itself.  [None] is the
    ValueError of a bad directive or of a stray percent sign. *)
Fixpoint pattern (fmt : str) : option regex :=
  match fmt with
  | [] => Some Eps
  | c :: rest =>
      if Ascii.eqb c "%" then
        match rest with
        | d :: rest' =>
            match directive d, pattern rest' with
            | Some r, Some r' => Some (r ;; r')
            | _, _ => None
            end
        | [] => None
        end
      else
        match pattern rest with
        | Some r' =>
            if is_space c then
              match rest with
              | c' :: _ => if is_space c' then Some r' else Some (spaces1 ;; r')
              | [] => Some (spaces1 ;; r')
              end
            else Some (Lit c ;; r')
        | None => None
        end
  end.

Definition digit_val (c : ascii) : Z := Z.of_N (code c - 48).

(** [int(s)] for a string of decimal digits with optional surrounding
    white space. *)
Definition int_of (s : str) : Z :=
  fold_left (fun acc c => 10 * acc + digit_val c) (strip s) 0.

Definition get (name : string) (gd : caps) : str :=
  match group name gd with Some v => v | None => [] end.

(** The loop of [_strptime] over the groups found, one key at a time. *)
Definition convert_group (gd : caps) (d : datetime) (g : string * str)
  : datetime :=
  let (key, v) := g in
  let n := int_of v in
  if String.eqb key "y" then
    mkdt (if n <=? 68 then n + 2000 else n + 1900)
         (month d) (day d) (hour d) (minute d) (second d)
  else if String.eqb key "Y" then
    mkdt n (month d) (day d) (hour d) (minute d) (second d)
  else if String.eqb key "m" then
    mkdt (year d) n (day d) (hour d) (minute d) (second d)
  else if String.eqb key "d" then
    mkdt (year d) (month d) n (hour d) (minute d) (second d)
  else if String.eqb key "H" then
    mkdt (year d) (month d) (day d) n (minute d) (second d)
  else if String.eqb key "I" then
    let ampm := lower (get "p" gd) in
    let h :=
      if str_eqb ampm [] || str_eqb ampm $"am" then
        if n =? 12 then 0 else n
      else if str_eqb ampm $"pm" then
        if n =? 12 then n else n + 12
      else n in
    mkdt (year d) (month d) (day d) h (minute d) (second d)
  else if String.eqb key "M" then
    mkdt (year d) (month d) (day d) (hour d) n (second d)
  else if String.eqb key "S" then
    mkdt (year d) (month d) (day d) (hour d) (minute d) n
  else d.

(** [datetime.strptime(data, fmt)]; [None] is ValueError: the format does
    not match a prefix of the data, unconverted data remains, or the
    fields are not a date and time. *)
Definition strptime (data : str) (fmt : str) : option datetime :=
  match pattern fmt with
  | None => None
  | Some r =>
      match run (length data) true r data []
                (fun rest gd => Some (rest, gd)) with
      | Some ([], gd) =>
          let d := fold_left (convert_group gd) (rev gd)
                             (mkdt 1900 1 1 0 0 0) in
          if valid_datetime d then Some d else None
      | _ => None
      end
  end.

Definition DT_FORMATS : list str :=
  [ (* day/month *)
    $"%d/%m/%y %H:%M";
    $"%d/%m/%Y %H:%M";
    $"%d/%m/%y %H:%M:%S";
    $"%d/%m/%Y %H:%M:%S";
    $"%d.%m.%y %H:%M";
    $"%d.%m.%Y %H:%M";
    $"%d.%m.%y %H:%M:%S";
    $"%d.%m.%Y %H:%M:%S";
    $"%d-%m-%y %H:%M";
    $"%d-%m-%Y %H:%M";
    $"%d-%m-%y %H:%M:%S";
    $"%d-%m-%Y %H:%M:%S";
    (* month/day *)
    $"%m/%d/%y %H:%M";
    $"%m/%d/%Y %H:%M";
    $"%m/%d/%y %H:%M:%S";
    $"%m/%d/%Y %H:%M:%S";
    (* 12-hour variants *)
    $"%d/%m/%y %I:%M %p";
    $"%d/%m/%Y %I:%M %p";
    $"%d/%m/%y %I:%M:%S %p";
    $"%d/%m/%Y %I:%M:%S %p";
    $"%m/%d/%y %I:%M %p";
    $"%m/%d/%Y %I:%M %p";
    $"%m/%d/%y %I:%M:%S %p";
    $"%m/%d/%Y %I:%M:%S %p";
    $"%d.%m.%y %I:%M %p";
    $"%d.%m.%Y %I:%M %p";
    $"%d.%m.%y %I:%M:%S %p";
    $"%d.%m.%Y %I:%M:%S %p" ].

(** [re.sub(r"\s+", " ", s)], [in_run] telling that the previous
    character was white space. *)
Fixpoint collapse_from (in_run : bool) (s : str) : str :=
  match s with
  | [] => []
  | c :: s' =>
      if is_space c then
        if in_run then collapse_from true s'
        else " " :: collapse_from true s'
      else c :: collapse_from false s'
  end.

Definition collapse_ws (s : str) : str := collapse_from false s.

(** The loop of [try_parse_dt] over the formats still to try. *)
Fixpoint try_formats (s : str) (fmts : list str) : option datetime :=
  match fmts with
  | [] => None
  | fmt :: rest =>
      match strptime s fmt with
      | Some d => Some d
      | None => try_formats s rest
      end
  end.

Definition normalize_dt (date_str time_str : str) : str :=
  collapse_ws (strip (date_str ++ $" " ++ time_str)).

Definition try_parse_dt (date_str time_str : str) : option datetime :=
  try_formats (normalize_dt date_str time_str) DT_FORMATS.

(* ================================================================== *)
(** * The parser: [parse_chat_text]                                    *)
(* ================================================================== *)

Close Scope Z_scope.

(** The message dict: [ts], [sender], [text], [is_system]. *)
Record Message : Type := mkMessage {
  ts : option datetime;
  sender : option str;
  text : str;
  is_system : bool
}.

(** The local variables of the loop of [parse_chat_text]. *)
Record ParserState : Type := mkState {
  messages : list Message;
  current : option Message;
  pending_ts : option datetime
}.

Definition init_state : ParserState := mkState [] None None.

(** [if current is not None: messages.append(current)] *)
Definition flush (st : ParserState) : list Message :=
  match current st with
  | Some m => messages st ++ [m]
  | None => messages st
  end.

(** [for pat in pats: m = pat.match(line); if m: ...; break] *)
Fixpoint first_match (pats : list regex) (line : str) : option caps :=
  match pats with
  | [] => None
  | pat :: rest =>
      match re_match pat line with
      | Some gd => Some gd
      | None => first_match rest line
      end
  end.

(** [sender.strip() if sender else None] *)
Definition strip_sender (s : option str) : option str :=
  match s with
  | Some (c :: s') => Some (strip (c :: s'))
  | _ => None
  end.

(** One iteration of the loop of [parse_chat_text]. *)
Definition step (st : ParserState) (raw_line : str) : ParserState :=
  let line := rstrip_lf raw_line in
  match pending_ts st with
  | Some pending =>
      (* 1) a pending timestamp binds this line *)
      match re_match SENDER_ONLY line with
      | Some gd2 =>
          mkState (flush st)
                  (Some (mkMessage (Some pending)
                                   (Some (strip (get "sender" gd2)))
                                   (get "text" gd2) false))
                  None
      | None =>
          mkState (flush st)
                  (Some (mkMessage (Some pending) None line true))
                  None
      end
  | None =>
      (* 2) a bracketed timestamp alone on its line *)
      match re_match BRACKET_TS_ONLY line with
      | Some m_ts =>
          match try_parse_dt (get "date" m_ts) (get "time" m_ts) with
          | Some t => mkState (messages st) (current st) (Some t)
          | None => st
          end
      | None =>
          (* 3) one-line headers, authored first, then system *)
          let matched :=
            match first_match PATTERNS line with
            | Some gd => Some (gd, false)
            | None =>
                match first_match SYSTEM_PATTERNS line with
                | Some gd => Some (gd, true)
                | None => None
                end
            end in
          match matched with
          | Some (gd, is_sys) =>
              let t := try_parse_dt (get "date" gd) (get "time" gd) in
              let sndr := if is_sys then None else group "sender" gd in
              mkState (flush st)
                      (Some (mkMessage t (strip_sender sndr)
                                       (get "text" gd) is_sys))
                      (pending_ts st)
          | None =>
              (* continuation line *)
              match current st with
              | Some m =>
                  mkState (messages st)
                          (Some (mkMessage (ts m) (sender m)
                                           (text m ++ LF :: line)
                                           (is_system m)))
                          (pending_ts st)
              | None => st
              end
          end
      end
  end.

Definition has_ts (m : Message) : bool :=
  match ts m with Some _ => true | None => false end.

Definition parse_lines (lines : list str) : ParserState :=
  fold_left step lines init_state.

Definition parse_chat_text (content : str) : list Message :=
  filter has_ts (flush (parse_lines (splitlines content))).

(* ================================================================== *)
(** * The statistics engine: [stats_for_messages]                      *)
(* ================================================================== *)

(** The module-level configuration read by the engine. *)
Record Config : Type := mkConfig {
  REACTION_CUTOFF_SEC : option Q;
  HOUR_BAR_WIDTH : nat;
  TOP_WORDS : nat
}.

Definition default_config : Config :=
  mkConfig (Some (inject_Z (6 * 3600))) 40 100.

(** ** [sorted]: a stable sort *)

Section StableSort.
Variable T : Type.
(** [le x y]: [x] may stay in front of [y]. *)
Variable le : T -> T -> bool.

Fixpoint insert_by (x : T) (l : list T) : list T :=
  match l with
  | [] => [x]
  | y :: l' => if le x y then x :: l else y :: insert_by x l'
  end.

(** Elements that compare equal keep the order they had in the input,
    as with Python's [sorted]. *)
Definition sorted_by (l : list T) : list T := fold_right insert_by [] l.
End StableSort.

(** ** [collections.Counter], in first-insertion order *)

Definition counter := list (str * nat).

Fixpoint count_add (k : str) (c : counter) : counter :=
  match c with
  | [] => [(k, 1)]
  | (k', n) :: c' =>
      if str_eqb k' k then (k', S n) :: c' else (k', n) :: count_add k c'
  end.

Definition Counter (l : list str) : counter :=
  fold_left (fun c k => count_add k c) l [].

(** [c.most_common(n)]: the [n] largest counts, the earlier key first
    among equal counts. *)
Definition most_common (n : nat) (c : counter) : counter :=
  firstn n (sorted_by (fun x y => (snd y <=? snd x)%nat) c).

(** ** The pieces of [stats_for_messages] *)

Definition truthy (s : option str) : bool :=
  match s with Some (_ :: _) => true | _ => false end.

(** [[m for m in messages if not m["is_system"] and m["sender"]]] *)
Definition non_system_of (msgs : list Message) : list Message :=
  filter (fun m => negb (is_system m) && truthy (sender m)) msgs.

Definition epoch : datetime := mkdt 1 1 1 0 0 0.

(** [m["ts"]] of a message that has one. *)
Definition ts_of (m : Message) : datetime :=
  match ts m with Some t => t | None => epoch end.

(** [m["sender"]] of a message that has one. *)
Definition sender_of (m : Message) : str :=
  match sender m with Some s => s | None => [] end.

Fixpoint resolved (msgs : list Message) : list datetime :=
  match msgs with
  | [] => []
  | m :: rest =>
      match ts m with
      | Some t => t :: resolved rest
      | None => resolved rest
      end
  end.

(** [min] and [max] return the first extremal element. *)
Definition min_dt (l : list datetime) : option datetime :=
  match l with
  | [] => None
  | x :: rest =>
      Some (fold_left (fun best y => if dt_ltb y best then y else best) rest x)
  end.

Definition max_dt (l : list datetime) : option datetime :=
  match l with
  | [] => None
  | x :: rest =>
      Some (fold_left (fun best y => if dt_ltb best y then y else best) rest x)
  end.

Definition member (s : str) (names : list str) : bool :=
  existsb (str_eqb s) names.

(** The letters of [WORD_RE], matched with IGNORECASE. *)
Definition WORD_LETTERS : list N :=
  [224; 232; 233; 236; 242; 249; 228; 246; 252; 223; 231; 241]%N.

Definition is_word_char (c : ascii) : bool :=
  let l := lower_char c in
  in_range "a" "z" l || existsb (N.eqb (code l)) WORD_LETTERS.

(** [WORD_RE.findall]: the maximal runs of word letters, [cur] being the
    run in progress (kept in reverse). *)
Fixpoint findall_from (cur : str) (s : str) : list str :=
  match s with
  | [] => match cur with [] => [] | _ => [rev cur] end
  | c :: s' =>
      if is_word_char c then findall_from (c :: cur) s'
      else match cur with
           | [] => findall_from [] s'
           | _ => rev cur :: findall_from [] s'
           end
  end.

Definition findall_words (s : str) : list str := findall_from [] s.

Fixpoint incr_at (i : nat) (l : list nat) : list nat :=
  match l, i with
  | [], _ => []
  | x :: l', O => S x :: l'
  | x :: l', S i' => x :: incr_at i' l'
  end.

(** [hour_counts = [0] * 24] and the loop that fills it. *)
Definition hour_counts_of (non_system : list Message) : list nat :=
  fold_left (fun hc m => incr_at (Z.to_nat (hour (ts_of m))) hc)
            non_system (repeat 0 24).

(** [sorted(non_system, key=lambda x: x["ts"])] *)
Definition sort_by_ts (l : list Message) : list Message :=
  sorted_by (fun a b => dt_leb (ts_of a) (ts_of b)) l.

(** [within_cutoff] *)
Definition within_cutoff (cfg : Config) (dt_sec : Q) : bool :=
  match REACTION_CUTOFF_SEC cfg with
  | None => true
  | Some cutoff => Qle_bool dt_sec cutoff
  end.

Definition elapsed (prev cur : Message) : Q :=
  inject_Z (seconds_between (ts_of cur) (ts_of prev)).

(** One iteration of the reaction loop on the pair [(prev, cur)]; the
    state is [(me_react, them_react)]. *)
Definition react_step (cfg : Config) (my_names : list str)
           (acc : list Q * list Q) (pc : Message * Message)
  : list Q * list Q :=
  let (prev, cur) := pc in
  let dt_sec := elapsed prev cur in
  if negb (Qle_bool 0 dt_sec) then acc
  else if negb (within_cutoff cfg dt_sec) then acc
  else
    let prev_me := member (sender_of prev) my_names in
    let cur_me := member (sender_of cur) my_names in
    if negb prev_me && cur_me then (fst acc ++ [dt_sec], snd acc)
    else if prev_me && negb cur_me then (fst acc, snd acc ++ [dt_sec])
    else acc.

(** [zip(l, l[1:])] *)
Definition adjacent (T : Type) (l : list T) : list (T * T) :=
  combine l (tl l).

Definition reactions (cfg : Config) (my_names : list str)
           (non_system_sorted : list Message) : list Q * list Q :=
  fold_left (react_step cfg my_names) (adjacent non_system_sorted) ([], []).

Definition Qsum (xs : list Q) : Q := fold_left Qplus xs 0%Q.

(** [avg] *)
Definition avg (xs : list Q) : option Q :=
  match xs with
  | [] => None
  | _ => Some (Qsum xs / inject_Z (Z.of_nat (length xs)))%Q
  end.

(** [median] *)
Definition median (xs : list Q) : option Q :=
  match xs with
  | [] => None
  | _ =>
      let xs2 := sorted_by Qle_bool xs in
      let n := length xs2 in
      let mid := n / 2 in
      if (n mod 2 =? 1)%nat then Some (nth mid xs2 0%Q)
      else Some ((1 # 2) * (nth (mid - 1) xs2 0 + nth mid xs2 0))%Q
  end.

(** The dict returned by [stats_for_messages]. *)
Record StatisticsResult : Type := mkStats {
  label : str;
  guessed_me : option str;
  my_names : list str;
  first_ts : option datetime;
  last_ts : option datetime;
  span_sec : option Q;
  total_msgs : nat;
  sent : nat;
  received : nat;
  ratio : option Q;
  top_words : counter;
  hour_counts : list nat;
  me_react_avg : option Q;
  me_react_med : option Q;
  me_react_n : nat;
  them_react_avg : option Q;
  them_react_med : option Q;
  them_react_n : nat;
  top_senders : counter
}.

(** Determine "me": the configured names, or else the most common sender. *)
Definition determine_me (names : list str) (sender_counts : counter)
  : option str * list str :=
  match names with
  | [] =>
      match most_common 1 sender_counts with
      | (g, _) :: _ => (Some g, [g])
      | [] => (None, [])
      end
  | _ => (None, names)
  end.

(** [stats_for_messages(messages, my_names, label)].  [None] is the
    exception Python raises on a qualifying message without a time stamp
    (comparing or reading [None]). *)
Definition stats_for_messages (cfg : Config) (msgs : list Message)
           (names : list str) (lbl : str) : option StatisticsResult :=
  let non_system := non_system_of msgs in
  if negb (forallb has_ts non_system) then None
  else
    let all_ts :=
      match non_system with
      | [] => resolved msgs
      | _ => map ts_of non_system
      end in
    let first := min_dt all_ts in
    let last := max_dt all_ts in
    let span :=
      match first, last with
      | Some f, Some l => Some (inject_Z (seconds_between l f))
      | _, _ => None
      end in
    let total := length non_system in
    let sender_counts := Counter (map sender_of non_system) in
    let (guessed, me) := determine_me names sender_counts in
    let nsent :=
      length (filter (fun m => member (sender_of m) me) non_system) in
    let nreceived := total - nsent in
    let all_text := lower (join $" " (map text non_system)) in
    let words := findall_words all_text in
    let (me_react, them_react) :=
      reactions cfg me (sort_by_ts non_system) in
    Some (mkStats lbl guessed me first last span total nsent nreceived
            (if (0 <? nreceived)%nat
             then Some (inject_Z (Z.of_nat nsent)
                        / inject_Z (Z.of_nat nreceived))%Q
             else None)
            (most_common (TOP_WORDS cfg) (Counter words))
            (hour_counts_of non_system)
            (avg me_react) (median me_react) (length me_react)
            (avg them_react) (median them_react) (length them_react)
            (most_common 10 sender_counts)).

(* ================================================================== *)
(** * The engine on the Python store                                   *)
(* ================================================================== *)

(** The objects [stats_for_messages] reads or creates: message dicts,
    lists of references to them, lists of numbers and lists of counts. *)
Inductive obj : Type :=
| Dict (m : Message)
| Refs (items : list nat)
| Nums (xs : list Q)
| Counts (xs : list nat).

(** The store: the object at each address. *)
Definition heap := list obj.

(** A computation on the store; [None] is an exception. *)
Definition M (A : Type) : Type := heap -> option (A * heap).

Definition ret {A : Type} (a : A) : M A := fun h => Some (a, h).

Definition bind {A B : Type} (c : M A) (k : A -> M B) : M B :=
  fun h => match c h with
           | Some (a, h') => k a h'
           | None => None
           end.

Definition raise {A : Type} : M A := fun _ => None.

Declare Scope store_scope.
Delimit Scope store_scope with store.
Notation "x <- c ;; k" := (bind c (fun x => k))
  (at level 61, c at next level, right associativity) : store_scope.
Notation "c ;;; k" := (bind c (fun _ => k))
  (at level 61, right associativity) : store_scope.
Open Scope store_scope.

Fixpoint update (l : nat) (o : obj) (h : heap) : heap :=
  match h, l with
  | [], _ => []
  | _ :: h', O => o :: h'
  | x :: h', S l' => x :: update l' o h'
  end.

(** A new object, at the next free address. *)
Definition alloc (o : obj) : M nat := fun h => Some (length h, h ++ [o]).

Definition load (l : nat) : M obj :=
  fun h => match nth_error h l with
           | Some o => Some (o, h)
           | None => None
           end.

(** In-place modification of the object at [l]. *)
Definition store (l : nat) (o : obj) : M unit :=
  fun h => if (l <? length h)%nat then Some (tt, update l o h) else None.

Definition load_dict (l : nat) : M Message :=
  o <- load l ;; match o with Dict m => ret m | _ => raise end.

Definition load_refs (l : nat) : M (list nat) :=
  o <- load l ;; match o with Refs r => ret r | _ => raise end.

Definition load_nums (l : nat) : M (list Q) :=
  o <- load l ;; match o with Nums r => ret r | _ => raise end.

Definition load_counts (l : nat) : M (list nat) :=
  o <- load l ;; match o with Counts r => ret r | _ => raise end.

Fixpoint mapM {A B : Type} (f : A -> M B) (l : list A) : M (list B) :=
  match l with
  | [] => ret []
  | x :: rest => y <- f x ;; ys <- mapM f rest ;; ret (y :: ys)
  end.

Fixpoint forM {A : Type} (l : list A) (f : A -> M unit) : M unit :=
  match l with
  | [] => ret tt
  | x :: rest => f x ;;; forM rest f
  end.

(** Iterating over a list: the dicts it refers to, as they are now. *)
Definition deref (l : nat) : M (list Message) :=
  refs <- load_refs l ;; mapM load_dict refs.

Definition qualifies (m : Message) : bool :=
  negb (is_system m) && truthy (sender m).

(** [[m for m in messages if not m["is_system"] and m["sender"]]]:
    the references kept. *)
Fixpoint select (refs : list nat) : M (list nat) :=
  match refs with
  | [] => ret []
  | l :: rest =>
      m <- load_dict l ;;
      kept <- select rest ;;
      ret (if qualifies m then l :: kept else kept)
  end.

(** [hour_counts[m["ts"].hour] += 1] *)
Definition bump_hour (hour_counts : nat) (l : nat) : M unit :=
  m <- load_dict l ;;
  xs <- load_counts hour_counts ;;
  store hour_counts (Counts (incr_at (Z.to_nat (hour (ts_of m))) xs)).

(** [xs.append(x)] *)
Definition append_num (xs : nat) (x : Q) : M unit :=
  old <- load_nums xs ;; store xs (Nums (old ++ [x])).

(** The body of the reaction loop. *)
Definition react_body (cfg : Config) (names : list str)
           (me_react them_react : nat) (pc : nat * nat) : M unit :=
  prev <- load_dict (fst pc) ;;
  cur <- load_dict (snd pc) ;;
  let dt_sec := elapsed prev cur in
  if negb (Qle_bool 0 dt_sec) then ret tt
  else if negb (within_cutoff cfg dt_sec) then ret tt
  else
    let prev_me := member (sender_of prev) names in
    let cur_me := member (sender_of cur) names in
    if negb prev_me && cur_me then append_num me_react dt_sec
    else if prev_me && negb cur_me then append_num them_react dt_sec
    else ret tt.

(** [sorted(non_system, key=lambda x: x["ts"])]: the keys are read, the
    references sorted by them into a new list. *)
Definition sorted_refs (refs : list nat) : M (list nat) :=
  ms <- mapM load_dict refs ;;
  ret (map fst (sorted_by (fun a b => dt_leb (ts_of (snd a)) (ts_of (snd b)))
                          (combine refs ms))).

(** [stats_for_messages] on the store, [messages] being the address of
    the list it is given. *)
Definition stats_for_messages_h (cfg : Config) (messages : nat)
           (names : list str) (lbl : str) : M StatisticsResult :=
  refs <- load_refs messages ;;
  kept <- select refs ;;
  non_system <- alloc (Refs kept) ;;
  ns <- deref non_system ;;
  if negb (forallb has_ts ns) then raise
  else
    all <- deref messages ;;
    let all_ts :=
      match ns with
      | [] => resolved all
      | _ => map ts_of ns
      end in
    let first := min_dt all_ts in
    let last := max_dt all_ts in
    let span :=
      match first, last with
      | Some f, Some l => Some (inject_Z (seconds_between l f))
      | _, _ => None
      end in
    let total := length ns in
    let sender_counts := Counter (map sender_of ns) in
    let (guessed, me) := determine_me names sender_counts in
    let nsent := length (filter (fun m => member (sender_of m) me) ns) in
    let nreceived := total - nsent in
    let all_text := lower (join (s2l " ") (map text ns)) in
    let words := findall_words all_text in
    hour_counts <- alloc (Counts (repeat 0 24)) ;;
    ns_refs <- load_refs non_system ;;
    forM ns_refs (bump_hour hour_counts) ;;;
    srefs <- sorted_refs ns_refs ;;
    non_system_sorted <- alloc (Refs srefs) ;;
    me_react <- alloc (Nums []) ;;
    them_react <- alloc (Nums []) ;;
    sorted_items <- load_refs non_system_sorted ;;
    forM (adjacent sorted_items) (react_body cfg me me_react them_react) ;;;
    mr <- load_nums me_react ;;
    tr <- load_nums them_react ;;
    hc <- load_counts hour_counts ;;
    ret (mkStats lbl guessed me first last span total nsent nreceived
           (if (0 <? nreceived)%nat
            then Some (inject_Z (Z.of_nat nsent)
                       / inject_Z (Z.of_nat nreceived))%Q
            else None)
           (most_common (TOP_WORDS cfg) (Counter words))
           hc
           (avg mr) (median mr) (length mr)
           (avg tr) (median tr) (length tr)
           (most_common 10 sender_counts)).

(* ================================================================== *)
(** * Definitions used to state the properties                        *)
(* ================================================================== *)

(** ** Statistics *)

(** The fields of a result other than [first_ts], [last_ts], [span_sec]. *)
Definition same_authored_stats (r r' : StatisticsResult) : Prop :=
  label r = label r' /\ guessed_me r = guessed_me r'
  /\ my_names r = my_names r' /\ total_msgs r = total_msgs r'
  /\ sent r = sent r' /\ received r = received r' /\ ratio r = ratio r'
  /\ top_words r = top_words r' /\ hour_counts r = hour_counts r'
  /\ me_react_avg r = me_react_avg r' /\ me_react_med r = me_react_med r'
  /\ me_react_n r = me_react_n r'
  /\ them_react_avg r = them_react_avg r'
  /\ them_react_med r = them_react_med r'
  /\ them_react_n r = them_react_n r'
  /\ top_senders r = top_senders r'.

Definition notice_transcript : str :=
  s2l "[15.04.2020, 16:20:56]" ++ LF :: s2l "Alice added Bob".

Definition notice : Message :=
  mkMessage (Some (mkdt 2020 4 15 16 20 56)) None (s2l "Alice added Bob") true.

(** The pair [(prev, cur)] is a switch towards "me", resp. away from it. *)
Definition me_reacts (names : list str) (pc : Message * Message) : bool :=
  negb (member (sender_of (fst pc)) names) && member (sender_of (snd pc)) names.

Definition they_react (names : list str) (pc : Message * Message) : bool :=
  member (sender_of (fst pc)) names && negb (member (sender_of (snd pc)) names).

Definition pair_elapsed (pc : Message * Message) : Q :=
  elapsed (fst pc) (snd pc).

Definition scenario : str :=
  s2l "01/02/23, 09:00 - Alice: hello" ++ LF ::
  s2l "01/02/23, 09:05 - Bob: hi there" ++ LF ::
  s2l "01/02/23, 09:06 - Bob: how are you".

Definition scenario_msgs : list Message :=
  [ mkMessage (Some (mkdt 2023 2 1 9 0 0)) (Some (s2l "Alice"))
              (s2l "hello") false;
    mkMessage (Some (mkdt 2023 2 1 9 5 0)) (Some (s2l "Bob"))
              (s2l "hi there") false;
    mkMessage (Some (mkdt 2023 2 1 9 6 0)) (Some (s2l "Bob"))
              (s2l "how are you") false ].

(** ** Counters *)

Definition str_dec : forall a b : str, {a = b} + {a <> b} :=
  list_eq_dec ascii_dec.

Definition keys (c : counter) : list str := map fst c.

(** The count recorded for [k], 0 when [k] is not a key. *)
Fixpoint cget (k : str) (c : counter) : nat :=
  match c with
  | [] => 0
  | (k', n) :: c' => if str_eqb k' k then n else cget k c'
  end.

(** The distinct elements of [l] not in [seen], in order of first
    occurrence. *)
Fixpoint new_keys (seen : list str) (l : list str) : list str :=
  match l with
  | [] => []
  | x :: l' =>
      if member x seen then new_keys seen l'
      else x :: new_keys (seen ++ [x]) l'
  end.

(** Three messages of A and five of B, A speaking first. *)
Definition ab_msgs : list Message :=
  let at_min n who :=
    mkMessage (Some (mkdt 2023 2 1 9 n 0)) (Some who) (s2l "x") false in
  let A := s2l "A" in
  let B := s2l "B" in
  [ at_min 0%Z A; at_min 1%Z B; at_min 2%Z A; at_min 3%Z B;
    at_min 4%Z B; at_min 5%Z A; at_min 6%Z B; at_min 7%Z B ].

(** ** Runs of characters *)

(** [s] is empty or starts with a character outside the class [p]. *)
Definition stops (p : ascii -> bool) (s : str) : Prop :=
  match s with
  | [] => True
  | c :: _ => p c = false
  end.

Fixpoint take_while (p : ascii -> bool) (s : str) : str :=
  match s with
  | c :: s' => if p c then c :: take_while p s' else []
  | [] => []
  end.

Fixpoint drop_while (p : ascii -> bool) (s : str) : str :=
  match s with
  | c :: s' => if p c then drop_while p s' else s
  | [] => []
  end.

(** ** Lines and parser states *)

(** The message opened by the line that follows a bracketed time stamp. *)
Definition bind_pending (pending : datetime) (line : str) : Message :=
  match take_while not_colon line, drop_while not_colon line with
  | c :: s, _ :: t =>
      mkMessage (Some pending) (Some (strip (c :: s))) (lstrip t) false
  | _, _ => mkMessage (Some pending) None line true
  end.

Definition pending_example : ParserState :=
  mkState [] None (Some (mkdt 2020 4 15 16 20 56)).

Definition alice_open : ParserState :=
  step init_state (s2l "01/02/23, 09:00 - Alice: hello").

Definition bracket_line : str := s2l "[15.04.2020, 16:20:56]".

Definition bracket_groups : caps :=
  [("time"%string, s2l "16:20:56"); ("date"%string, s2l "15.04.2020")].

(** ** Templates and times *)

Definition starts_with (p s : str) : bool :=
  str_eqb (firstn (length p) s) p.

Definition day_first (fmt : str) : bool := starts_with (s2l "%d") fmt.
Definition month_first (fmt : str) : bool := starts_with (s2l "%m") fmt.

(** The same template with the day and the month exchanged. *)
Fixpoint swap_day_month (fmt : str) : str :=
  match fmt with
  | c :: rest =>
      match rest with
      | d :: rest' =>
          if Ascii.eqb c "%" && Ascii.eqb d "d"
          then c :: "m" :: swap_day_month rest'
          else if Ascii.eqb c "%" && Ascii.eqb d "m"
          then c :: "d" :: swap_day_month rest'
          else c :: swap_day_month rest
      | [] => [c]
      end
  | [] => []
  end.

Definition two_digits (n : nat) : str :=
  [ascii_of_nat (48 + n / 10); ascii_of_nat (48 + n mod 10)].

Definition hhmm (h m : nat) : str := two_digits h ++ ":" :: two_digits m.

Definition hhmmss (h m s : nat) : str := hhmm h m ++ ":" :: two_digits s.

(** ** The two forms of a bracketed header *)

Definition is_ddmmyyyy (s : str) : bool :=
  match s with
  | [d1; d2; p1; m1; m2; p2; y1; y2; y3; y4] =>
      is_digit d1 && is_digit d2 && Ascii.eqb p1 "." &&
      is_digit m1 && is_digit m2 && Ascii.eqb p2 "." &&
      is_digit y1 && is_digit y2 && is_digit y3 && is_digit y4
  | _ => false
  end.

Definition is_hhmmss (s : str) : bool :=
  match s with
  | [h1; h2; p1; m1; m2; p2; s1; s2] =>
      is_digit h1 && is_digit h2 && Ascii.eqb p1 ":" &&
      is_digit m1 && is_digit m2 && Ascii.eqb p2 ":" &&
      is_digit s1 && is_digit s2
  | _ => false
  end.

Definition bracket (date time : str) : str :=
  "[" :: date ++ "," :: " " :: time ++ ["]"].

Definition no_break (c : ascii) : bool := negb (is_linebreak c).

(** [s] holds no line boundary. *)
Definition is_line (s : str) : bool := forallb no_break s.

(** The sender captured on the single-line form, where [\s+] has eaten
    the white space in front of it. *)
Definition after_spaces (s : str) : str :=
  match lstrip s with
  | [] => [last s " "]
  | s' => s'
  end.

Definition single_line (date time name text : str) : str :=
  bracket date time ++ " " :: name ++ ":" :: " " :: text.

Definition two_line (date time name text : str) : str :=
  bracket date time ++ LF :: name ++ ":" :: " " :: text.

(** ** The store *)

(** [c] started on a store of at least [n] objects leaves the first [n]
    as they are, and returns a value in [P]. *)
Definition safe {A : Type} (n : nat) (c : M A) (P : A -> Prop) : Prop :=
  forall h a h',
    n <= length h -> c h = Some (a, h') ->
    n <= length h'
    /\ (forall l, l < n -> nth_error h' l = nth_error h l)
    /\ P a.

Definition any {A : Type} (_ : A) : Prop := True.

(** The dict at address [l] is [m]. *)
Definition pts (h : heap) (l : nat) (m : Message) : Prop :=
  nth_error h l = Some (Dict m).

(** The references [refs] point to the dicts [msgs], in order. *)
Definition holds (h : heap) (refs : list nat) (msgs : list Message) : Prop :=
  Forall2 (pts h) refs msgs.

(** The three messages of the scenario and the list that holds them. *)
Definition demo_heap : heap := map Dict scenario_msgs ++ [Refs [0; 1; 2]].

(* ================================================================== *)
(** * The report: [fmt_td] and [main]                                  *)
(* ================================================================== *)

(** ** [fmt_td] *)

Open Scope Z_scope.

(** [str(n)] and [f"{n}"] of an [int]. *)
Definition str_of_Z (n : Z) : str := s2l (NilZero.string_of_int (Z.to_int n)).

(** [int(x)] of a finite number: its integer part, towards zero. *)
Definition int_of_Q (x : Q) : Z := Qnum x ÷ Z.pos (Qden x).

(** [fmt_td(seconds)], [seconds] being [None] or a finite number. *)
Definition fmt_td (seconds : option Q) : str :=
  match seconds with
  | None => $"n/a"
  | Some x =>
      let s := int_of_Q x in
      if s <? 60 then str_of_Z s ++ $"s"
      else
        let m := s / 60 in
        let s := s mod 60 in
        if m <? 60 then str_of_Z m ++ $"m " ++ str_of_Z s ++ $"s"
        else
          let h := m / 60 in
          let m := m mod 60 in
          if h <? 48 then str_of_Z h ++ $"h " ++ str_of_Z m ++ $"m"
          else
            let d := h / 24 in
            let h := h mod 24 in
            str_of_Z d ++ $"d " ++ str_of_Z h ++ $"h"
  end.

Close Scope Z_scope.

(** ** [main] *)

Definition MY_NAMES : list str := [$"Giada :)"].

(** [os.path.basename] on a POSIX path: what follows the last slash. *)
Definition basename (path : str) : str :=
  rev (take_while (fun c => negb (Ascii.eqb c "/")) (rev path)).

(** The file system as [main] sees it: whether the folder is a directory
    and, for each path of [txt_files] in order, the text that
    [open_text_file] reads from it. *)
Record Folder : Type := mkFolder {
  isdir : bool;
  txt_files : list (str * str)
}.

(** How [main] ends: with [sys.exit], with the dicts it has passed to
    [print_report] (one for each file, then the total), or with an
    exception of the engine. *)
Inductive Outcome : Type :=
| Exit (status : nat)
| Reports (per_file_stats : list StatisticsResult)
          (total_stats : StatisticsResult)
| Raised.

(** One iteration of the loop of [main] over [txt_files]; the state is
    [(all_messages, per_file_stats)]. *)
Definition main_step (cfg : Config)
           (acc : option (list Message * list StatisticsResult))
           (file : str * str)
  : option (list Message * list StatisticsResult) :=
  match acc with
  | None => None
  | Some (all_messages, per_file_stats) =>
      let (path, content) := file in
      let msgs := parse_chat_text content in
      let lbl := $"FILE: " ++ basename path in
      match stats_for_messages cfg msgs MY_NAMES lbl with
      | Some st => Some (all_messages ++ msgs, per_file_stats ++ [st])
      | None => None
      end
  end.

Definition main (cfg : Config) (fs : Folder) : Outcome :=
  if negb (isdir fs) then Exit 1
  else
    match txt_files fs with
    | [] => Exit 0
    | files =>
        match fold_left (main_step cfg) files (Some ([], [])) with
        | Some (all_messages, per_file_stats) =>
            match stats_for_messages cfg all_messages MY_NAMES
                                     $"TOTAL (ALL FILES)" with
            | Some total_stats => Reports per_file_stats total_stats
            | None => Raised
            end
        | None => Raised
        end
    end.

(* ================================================================== *)
(** * Definitions used to state the properties of the report           *)
(* ================================================================== *)

(** ** Messages and lines of the parser *)

(** The fields a message dict can hold together: a notice has no sender,
    an authored message has one, stripped and without colon. *)
Definition well_formed (m : Message) : Prop :=
  match sender m with
  | None => is_system m = true
  | Some s =>
      is_system m = false /\ forallb not_colon s = true /\ strip s = s
  end.

(** The line starts neither like a date nor like a bracketed header. *)
Definition plain_line (line : str) : bool :=
  match line with
  | [] => true
  | c :: _ => negb (is_digit c) && negb (Ascii.eqb c "[")
  end.

(** [current["text"] += "\n" + line] *)
Definition continued (m : Message) (line : str) : Message :=
  mkMessage (ts m) (sender m) (text m ++ LF :: line) (is_system m).

(** What the loop of [parse_chat_text] keeps true of a message and of
    its state. *)
Definition good (m : Message) : Prop :=
  well_formed m
  /\ forall t, ts m = Some t -> valid_datetime t = true.

Definition state_inv (st : ParserState) : Prop :=
  Forall good (flush st)
  /\ forall t, pending_ts st = Some t -> valid_datetime t = true.

(** ** Hours and folders *)

(** The qualifying messages sent in the hour [j]. *)
Definition in_hour (j : nat) (m : Message) : bool :=
  (Z.to_nat (hour (ts_of m)) =? j)%nat.

(** Two chats of one message each. *)
Definition two_chats : Folder :=
  mkFolder true
    [ ($"/chats/a.txt", $"01/02/23, 09:00 - Alice: hello");
      ($"/chats/b.txt", $"01/02/23, 09:05 - Giada :): ciao") ].

(** ** The lines of an Android export *)

(** The year that [%y] reads from two digits. *)
Definition pivot (y : nat) : Z :=
  if (y <=? 68)%nat then 2000 + Z.of_nat y else 1900 + Z.of_nat y.

(** [dd/mm/yy] *)
Definition ddmmyy (d m y : nat) : str :=
  two_digits d ++ "/" :: two_digits m ++ "/" :: two_digits y.

(** The line of an Android export: [dd/mm/yy, HH:MM - Name: text]. *)
Definition android_line (d m y h mi : nat) (name text : str) : str :=
  ddmmyy d m y ++ $", " ++ hhmm h mi ++ $" - " ++ name ++ $": " ++ text.

(** An entry of an Android export with a text of one line. *)
Record AndroidEntry : Type := mkEntry {
  e_day : nat; e_month : nat; e_year : nat; e_hour : nat; e_minute : nat;
  e_name : str; e_text : str
}.

Definition entry_ts (e : AndroidEntry) : datetime :=
  mkdt (pivot (e_year e)) (Z.of_nat (e_month e)) (Z.of_nat (e_day e))
       (Z.of_nat (e_hour e)) (Z.of_nat (e_minute e)) 0.

(** What can be written as such a line and read back: a two-digit year, a
    date of the calendar and a time of the day, a name that is not empty and
    has no colon, no line break in the name or in the text. *)
Definition entry_ok (e : AndroidEntry) : bool :=
  (e_year e <? 100)%nat && valid_datetime (entry_ts e)
  && match e_name e with [] => false | _ => true end
  && forallb not_colon (e_name e)
  && is_line (e_name e) && is_line (e_text e).

Definition entry_line (e : AndroidEntry) : str :=
  android_line (e_day e) (e_month e) (e_year e) (e_hour e) (e_minute e)
               (e_name e) (e_text e).

Definition entry_message (e : AndroidEntry) : Message :=
  mkMessage (Some (entry_ts e)) (Some (strip (e_name e)))
            (lstrip (e_text e)) false.

(** Two entries: the last minute of 1999 and one with white space around
    the name and a colon in the text. *)
Definition two_entries : list AndroidEntry :=
  [ mkEntry 31 12 99 23 59 $"Anna" $"ciao";
    mkEntry 1 1 0 0 5 $" Bob B. " $" a: b" ].

(* ================================================================== *)
(** * Properties                                                       *)
(* ================================================================== *)

(** ** Equality of strings *)

Lemma str_eqb_eq (a b : str) : str_eqb a b = true <-> a = b.
Proof.
  unfold str_eqb. destruct (list_eq_dec ascii_dec a b); split; congruence.
Qed.

Lemma str_eqb_refl (a : str) : str_eqb a a = true.
Proof. now apply str_eqb_eq. Qed.

(** ** The stable sort sorts *)

Section StableSortFacts.
Variable T : Type.
Variable le : T -> T -> bool.
Hypothesis le_total : forall x y, le x y = false -> le y x = true.

Let R (x y : T) : Prop := le x y = true.

Lemma insert_by_perm (x : T) (l : list T) :
  Permutation (x :: l) (insert_by le x l).
Proof.
  induction l as [|y l IH]; simpl.
  - apply Permutation_refl.
  - destruct (le x y).
    + apply Permutation_refl.
    + eapply perm_trans; [apply perm_swap|]. now apply perm_skip.
Qed.

Lemma sorted_by_perm (l : list T) : Permutation l (sorted_by le l).
Proof.
  induction l as [|x l IH]; simpl.
  - apply perm_nil.
  - eapply perm_trans; [apply perm_skip, IH|]. apply insert_by_perm.
Qed.

Lemma sorted_by_length (l : list T) : length (sorted_by le l) = length l.
Proof. symmetry. apply Permutation_length, sorted_by_perm. Qed.

Lemma insert_by_hdrel (a x : T) (l : list T) :
  R a x -> HdRel R a l -> HdRel R a (insert_by le x l).
Proof.
  intros Hax Hl. destruct l as [|y l]; simpl.
  - now constructor.
  - destruct (le x y); constructor; trivial.
    now inversion Hl.
Qed.

Lemma insert_by_sorted (x : T) (l : list T) :
  Sorted R l -> Sorted R (insert_by le x l).
Proof.
  induction 1 as [|y l Hs IH Hhd]; simpl.
  - repeat constructor.
  - destruct (le x y) eqn:E.
    + constructor; [now constructor|]. now constructor.
    + constructor; trivial.
      apply insert_by_hdrel; trivial. now apply le_total.
Qed.

Lemma sorted_by_sorted (l : list T) : Sorted R (sorted_by le l).
Proof.
  induction l as [|x l IH]; simpl.
  - constructor.
  - now apply insert_by_sorted.
Qed.
End StableSortFacts.

Unset Implicit Arguments.

Lemma Qle_bool_total (x y : Q) : Qle_bool x y = false -> Qle_bool y x = true.
Proof.
  intros H. apply Qle_bool_iff.
  destruct (Qlt_le_dec y x) as [Hlt|Hle].
  - now apply Qlt_le_weak.
  - apply Qle_bool_iff in Hle. congruence.
Qed.

Lemma odd_mod2 (n : nat) : (n mod 2 =? 1)%nat = Nat.odd n.
Proof.
  destruct (Nat.odd n) eqn:E.
  - apply Nat.eqb_eq. apply Nat.odd_spec in E. destruct E as [k ->].
    rewrite Nat.add_comm, Nat.mul_comm, Nat.Div0.mod_add. reflexivity.
  - apply Nat.eqb_neq. intros H.
    assert (Hodd : Nat.odd n = true).
    { apply Nat.odd_spec. exists (n / 2)%nat.
      rewrite (Nat.div_mod_eq n 2) at 1. now rewrite H. }
    congruence.
Qed.

(** ** The parser reports resolved time stamps only *)

(** C2.  Every message returned by [parse_chat_text] has a time stamp: the
    result is exactly the assembled sequence with the messages lacking one
    removed, so a message opened from a header whose date and time did
    not parse is never part of what the parser returns. *)
Theorem parse_chat_text_timestamps_resolved (content : str) :
  Forall (fun m => exists t, ts m = Some t) (parse_chat_text content)
  /\ (forall m, In m (parse_chat_text content) <->
                In m (flush (parse_lines (splitlines content)))
                /\ ts m <> None).
Proof.
  unfold parse_chat_text. split.
  - apply Forall_forall. intros m Hm. apply filter_In in Hm.
    destruct Hm as [_ Hm]. unfold has_ts in Hm.
    destruct (ts m) as [t|]; [now exists t | discriminate].
  - intros m. rewrite filter_In. unfold has_ts.
    destruct (ts m); intuition congruence.
Qed.

(** A header whose date does not exist opens a message that is dropped,
    with the lines that continued it. *)
Example unparseable_header_dropped :
  parse_chat_text (s2l "31/02/23, 09:00 - Alice: hello" ++ LF :: s2l "more")
  = [].
Proof. vm_compute. reflexivity. Qed.

(** ** The median *)

(** C6.  [median] of no sample is [None]; otherwise, with the samples
    sorted in ascending order, it is the middle one when their number is
    odd and half the sum of the two central ones when it is even.  The
    median of 10, 20, 30 is 20 and that of 10, 20, 30, 40 is 25. *)
Theorem median_correct (xs : list Q) :
  let ys := sorted_by Qle_bool xs in
  let n := length xs in
  Permutation xs ys
  /\ Sorted Qle ys
  /\ median xs =
       match xs with
       | [] => None
       | _ => if Nat.odd n then Some (nth (n / 2) ys 0%Q)
              else Some ((1 # 2) * (nth (n / 2 - 1) ys 0 + nth (n / 2) ys 0))%Q
       end
  /\ median [10; 20; 30]%Q = Some 20%Q
  /\ (exists q, median [10; 20; 30; 40]%Q = Some q /\ (q == 25)%Q).
Proof.
  cbv zeta. repeat split.
  - apply sorted_by_perm.
  - assert (H := sorted_by_sorted Qle_bool Qle_bool_total xs).
    induction H as [|a l Hs IH Hhd]; constructor; trivial.
    destruct Hhd; constructor. now apply Qle_bool_iff.
  - unfold median. destruct xs as [|x xs]; trivial.
    rewrite sorted_by_length, odd_mod2. reflexivity.
  - exists (50 # 2)%Q. split; reflexivity.
Qed.

(** ** System notices and the statistics *)

Lemma non_system_of_app (l1 l2 : list Message) :
  non_system_of (l1 ++ l2) = non_system_of l1 ++ non_system_of l2.
Proof. apply filter_app. Qed.

Lemma non_system_of_notice (l1 l2 : list Message) (m : Message) :
  is_system m = true ->
  non_system_of (l1 ++ m :: l2) = non_system_of (l1 ++ l2).
Proof.
  intros H. rewrite !non_system_of_app. f_equal.
  unfold non_system_of. simpl. now rewrite H.
Qed.

(** The system notice of a two-line header is counted nowhere in the
    result: [total_msgs] is the number of authored messages. *)
Lemma system_notice_not_counted :
  parse_chat_text notice_transcript = [notice]
  /\ exists r,
       stats_for_messages default_config [notice] [] (s2l "TOTAL") = Some r
       /\ total_msgs r = 0 /\ sent r = 0 /\ received r = 0
       /\ hour_counts r = repeat 0 24 /\ top_senders r = []
       /\ top_words r = [].
Proof.
  split; [vm_compute; reflexivity|].
  eexists. split; [vm_compute; reflexivity|].
  repeat split.
Qed.

(** C3 (amended).  A system message takes no part in the word, latency,
    per-sender and volume statistics: with or without it the engine
    returns the same result, [first_ts], [last_ts] and [span_sec] apart,
    and these differ only when no authored message is present.
    [total_msgs] counts the authored messages, not the notices. *)
Theorem system_notice_excluded
        (cfg : Config) (l1 l2 : list Message) (m : Message)
        (names : list str) (lbl : str) :
  is_system m = true ->
  match stats_for_messages cfg (l1 ++ m :: l2) names lbl,
        stats_for_messages cfg (l1 ++ l2) names lbl with
  | Some r, Some r' =>
      same_authored_stats r r'
      /\ total_msgs r = length (non_system_of (l1 ++ l2))
      /\ (non_system_of (l1 ++ l2) <> [] -> r = r')
  | None, None => True
  | _, _ => False
  end.
Proof.
  intros Hsys. unfold stats_for_messages.
  rewrite (non_system_of_notice l1 l2 m Hsys).
  destruct (negb (forallb has_ts (non_system_of (l1 ++ l2)))); trivial.
  destruct (determine_me names _) as [g me].
  destruct (reactions cfg me _) as [mr tr].
  split; [|split].
  - unfold same_authored_stats; simpl. repeat split.
  - reflexivity.
  - intros Hne. destruct (non_system_of (l1 ++ l2)); [congruence|reflexivity].
Qed.

Lemma system_notice_excluded_witness :
  is_system notice = true
  /\ match stats_for_messages default_config ([] ++ notice :: []) [] [],
           stats_for_messages default_config ([] ++ []) [] [] with
     | Some r, Some r' =>
         same_authored_stats r r'
         /\ total_msgs r = length (non_system_of ([] ++ []))
         /\ (non_system_of ([] ++ []) <> [] -> r = r')
     | None, None => True
     | _, _ => False
     end.
Proof.
  split; [reflexivity|].
  apply (system_notice_excluded default_config [] [] notice [] []).
  reflexivity.
Defined.

(** ** Time stamps: the order of the fields is the order of the instants *)

Ltac split_valid H :=
  unfold valid_datetime in H;
  repeat (let H' := fresh "V" in apply andb_prop in H; destruct H as [H H']);
  repeat match goal with
         | V : (_ <=? _)%Z = true |- _ => apply Z.leb_le in V
         end.

Lemma days_before_year_mono (a b : Z) :
  (a <= b)%Z -> (days_before_year a <= days_before_year b)%Z.
Proof.
  intros H. unfold days_before_year. cbv zeta.
  Z.div_mod_to_equations. lia.
Qed.

Lemma days_before_year_succ (y : Z) :
  days_before_year (y + 1)
  = (days_before_year y + (if is_leap y then 366 else 365))%Z.
Proof.
  unfold days_before_year, is_leap. cbv zeta.
  replace (y + 1 - 1)%Z with y by lia.
  destruct (y mod 4 =? 0)%Z eqn:E4; destruct (y mod 100 =? 0)%Z eqn:E100;
    destruct (y mod 400 =? 0)%Z eqn:E400; simpl;
    rewrite ?Z.eqb_eq, ?Z.eqb_neq in *;
    Z.div_mod_to_equations; lia.
Qed.

Lemma month_cases (m : Z) :
  (1 <= m <= 12)%Z ->
  m = 1%Z \/ m = 2%Z \/ m = 3%Z \/ m = 4%Z \/ m = 5%Z \/ m = 6%Z \/
  m = 7%Z \/ m = 8%Z \/ m = 9%Z \/ m = 10%Z \/ m = 11%Z \/ m = 12%Z.
Proof. lia. Qed.

Ltac each_month H :=
  apply month_cases in H;
  repeat (destruct H as [H|H]; [subst|]); [..|subst].

(** Within a year the days of a month lie before those of a later month. *)
Lemma month_bounds (y m : Z) :
  (1 <= m <= 12)%Z ->
  (0 <= days_before_month y m)%Z
  /\ (days_before_month y m + days_in_month y m
      <= (if is_leap y then 366 else 365))%Z
  /\ (forall m', (m < m' <= 12)%Z ->
        (days_before_month y m + days_in_month y m
         <= days_before_month y m')%Z).
Proof.
  intros Hm. unfold days_before_month, days_in_month.
  split; [|split].
  - each_month Hm; destruct (is_leap y); vm_compute; congruence.
  - each_month Hm; destruct (is_leap y); vm_compute; congruence.
  - intros m' Hm'. assert (Hr : (1 <= m' <= 12)%Z) by lia.
    each_month Hm; each_month Hr; try lia;
      destruct (is_leap y); vm_compute; congruence.
Qed.

Lemma toordinal_lt (a b : datetime) :
  valid_datetime a = true -> valid_datetime b = true ->
  (year a < year b
   \/ year a = year b /\ (month a < month b
                          \/ month a = month b /\ day a < day b))%Z ->
  (toordinal a < toordinal b)%Z.
Proof.
  intros Va Vb H. split_valid Va. split_valid Vb. unfold toordinal.
  destruct (month_bounds (year a) (month a)) as (Ha0 & Ha1 & Ha2); [lia|].
  destruct (month_bounds (year b) (month b)) as (Hb0 & Hb1 & Hb2); [lia|].
  destruct H as [H|[Hy [H|[Hm H]]]].
  - assert (Hs := days_before_year_succ (year a)).
    assert (Hmono := days_before_year_mono (year a + 1) (year b)).
    destruct (is_leap (year a)); lia.
  - rewrite Hy in *. specialize (Ha2 (month b)). lia.
  - rewrite Hy, Hm. lia.
Qed.

Lemma dt_leb_seconds (a b : datetime) :
  valid_datetime a = true -> valid_datetime b = true ->
  dt_leb a b = true -> (0 <= seconds_between b a)%Z.
Proof.
  intros Va Vb H.
  assert (Hlt := toordinal_lt a b Va Vb).
  unfold dt_leb, dt_compare in H. unfold seconds_between.
  split_valid Va. split_valid Vb.
  destruct (Z.compare_spec (year a) (year b)); try discriminate; [|lia].
  destruct (Z.compare_spec (month a) (month b)); try discriminate; [|lia].
  destruct (Z.compare_spec (day a) (day b)); try discriminate; [|lia].
  assert (toordinal a = toordinal b) by (unfold toordinal; congruence).
  destruct (Z.compare_spec (hour a) (hour b)); try discriminate; [|lia].
  destruct (Z.compare_spec (minute a) (minute b)); try discriminate; [|lia].
  destruct (Z.compare_spec (second a) (second b)); try discriminate; lia.
Qed.

Lemma dt_compare_antisym (a b : datetime) :
  dt_compare b a = CompOpp (dt_compare a b).
Proof.
  unfold dt_compare.
  rewrite (Z.compare_antisym (year a)), (Z.compare_antisym (month a)),
    (Z.compare_antisym (day a)), (Z.compare_antisym (hour a)),
    (Z.compare_antisym (minute a)), (Z.compare_antisym (second a)).
  destruct (year a ?= year b)%Z; simpl; trivial.
  destruct (month a ?= month b)%Z; simpl; trivial.
  destruct (day a ?= day b)%Z; simpl; trivial.
  destruct (hour a ?= hour b)%Z; simpl; trivial.
  destruct (minute a ?= minute b)%Z; simpl; trivial.
Qed.

Lemma dt_leb_total (a b : datetime) : dt_leb a b = false -> dt_leb b a = true.
Proof.
  unfold dt_leb. rewrite (dt_compare_antisym a b).
  destruct (dt_compare a b); simpl; congruence.
Qed.

(** ** Response latency and the cutoff *)

Lemma adjacent_cons2 (T : Type) (x y : T) (l : list T) :
  adjacent (x :: y :: l) = (x, y) :: adjacent (y :: l).
Proof. reflexivity. Qed.

Lemma adjacent_sorted (T : Type) (R : T -> T -> Prop) (l : list T) :
  Sorted R l -> forall p c, In (p, c) (adjacent l) -> R p c.
Proof.
  induction 1 as [|x l Hs IH Hhd]; intros p c Hin.
  - destruct Hin.
  - destruct l as [|y l]; [destruct Hin|].
    rewrite adjacent_cons2 in Hin. destruct Hin as [E|Hin].
    + inversion E; subst. now inversion Hhd.
    + now apply IH.
Qed.

Lemma Qle_bool_0_inject (z : Z) :
  Qle_bool 0 (inject_Z z) = true <-> (0 <= z)%Z.
Proof.
  rewrite Qle_bool_iff. unfold Qle, inject_Z. simpl. lia.
Qed.

Lemma reactions_from (cfg : Config) (names : list str)
      (pairs : list (Message * Message)) (me them : list Q) :
  (forall p c, In (p, c) pairs -> Qle_bool 0 (elapsed p c) = true) ->
  fold_left (react_step cfg names) pairs (me, them)
  = (me ++ map pair_elapsed
             (filter (fun pc => me_reacts names pc
                                && within_cutoff cfg (pair_elapsed pc)) pairs),
     them ++ map pair_elapsed
               (filter (fun pc => they_react names pc
                                  && within_cutoff cfg (pair_elapsed pc)) pairs)).
Proof.
  revert me them.
  induction pairs as [|[p c] pairs IH]; intros me them Hpos; simpl.
  - now rewrite !app_nil_r.
  - rewrite (Hpos p c (or_introl eq_refl)). simpl.
    change (pair_elapsed (p, c)) with (elapsed p c).
    change (me_reacts names (p, c))
      with (negb (member (sender_of p) names) && member (sender_of c) names).
    change (they_react names (p, c))
      with (member (sender_of p) names && negb (member (sender_of c) names)).
    assert (IH' := fun me them =>
                     IH me them (fun p c H => Hpos p c (or_intror H))).
    destruct (within_cutoff cfg (elapsed p c)),
      (member (sender_of p) names), (member (sender_of c) names);
      simpl; rewrite IH'; simpl; rewrite <- ?app_assoc; reflexivity.
Qed.

Lemma sorted_pairs_elapsed (msgs : list Message) :
  Forall (fun m => valid_datetime (ts_of m) = true) msgs ->
  forall p c, In (p, c) (adjacent (sort_by_ts msgs)) ->
              Qle_bool 0 (elapsed p c) = true.
Proof.
  intros Hv p c Hin. unfold sort_by_ts in *.
  set (le := fun a b : Message => dt_leb (ts_of a) (ts_of b)) in *.
  assert (Hle : le p c = true).
  { apply (adjacent_sorted Message (fun a b => le a b = true)
                            (sorted_by le msgs)); trivial.
    apply sorted_by_sorted. intros x y. apply dt_leb_total. }
  assert (Hperm := sorted_by_perm le msgs).
  assert (Hv' := Permutation_Forall Hperm Hv).
  rewrite Forall_forall in Hv'.
  assert (Hp : In p (sorted_by le msgs)).
  { unfold adjacent in Hin. now apply in_combine_l in Hin. }
  assert (Hc : In c (sorted_by le msgs)).
  { unfold adjacent in Hin. apply in_combine_r in Hin.
    destruct (sorted_by le msgs); [destruct Hin | now right]. }
  apply Qle_bool_0_inject. apply dt_leb_seconds; auto.
Qed.

(** C5.  On the time-sorted sequence, a pair of adjacent messages that
    switches between "me" and someone else yields a sample exactly when
    it is within the cutoff: the samples are the elapsed times of the
    switch pairs that [within_cutoff] keeps, in order.  With a cutoff
    configured [within_cutoff] keeps the elapsed times less than or equal
    to it (the cutoff itself is kept, one second more is not); with no
    cutoff it keeps them all. *)
Theorem cutoff_boundary (cfg : Config) (names : list str)
        (msgs : list Message) :
  Forall (fun m => valid_datetime (ts_of m) = true) msgs ->
  let pairs := adjacent (sort_by_ts msgs) in
  let kept pc := within_cutoff cfg (pair_elapsed pc) in
  reactions cfg names (sort_by_ts msgs)
  = (map pair_elapsed (filter (fun pc => me_reacts names pc && kept pc) pairs),
     map pair_elapsed (filter (fun pc => they_react names pc && kept pc) pairs))
  /\ (forall dt,
        within_cutoff cfg dt = true <->
        match REACTION_CUTOFF_SEC cfg with
        | Some cutoff => (dt <= cutoff)%Q
        | None => True
        end)
  /\ (forall cutoff w n,
        within_cutoff (mkConfig (Some cutoff) w n) cutoff = true
        /\ within_cutoff (mkConfig (Some cutoff) w n) (cutoff + 1) = false).
Proof.
  intros Hv pairs kept. split; [|split].
  - unfold reactions. fold pairs.
    rewrite reactions_from by (apply sorted_pairs_elapsed; exact Hv).
    reflexivity.
  - intros dt. unfold within_cutoff.
    destruct (REACTION_CUTOFF_SEC cfg) as [c|].
    + apply Qle_bool_iff.
    + tauto.
  - intros c w n. unfold within_cutoff. simpl. split.
    + apply Qle_bool_iff. apply Qle_refl.
    + destruct (Qle_bool (c + 1) c) eqn:E; trivial.
      apply Qle_bool_iff in E. exfalso.
      apply (Qlt_irrefl c). eapply Qlt_le_trans; [|exact E].
      rewrite <- (Qplus_0_r c) at 1. apply Qplus_lt_r. reflexivity.
Qed.

Example parse_scenario : parse_chat_text scenario = scenario_msgs.
Proof. vm_compute. reflexivity. Qed.

Lemma cutoff_boundary_witness :
  Forall (fun m => valid_datetime (ts_of m) = true) scenario_msgs
  /\ reactions default_config [s2l "Bob"] (sort_by_ts scenario_msgs)
     = ([300%Q], []).
Proof.
  split; [repeat constructor|].
  apply (cutoff_boundary default_config [s2l "Bob"] scenario_msgs).
  repeat constructor.
Defined.

(** ** Self inference *)

Lemma str_eqb_dec (a b : str) :
  str_eqb a b = if str_dec a b then true else false.
Proof. reflexivity. Qed.

Lemma member_In (x : str) (l : list str) : member x l = true <-> In x l.
Proof.
  unfold member. rewrite existsb_exists. split.
  - intros (y & Hy & E). apply str_eqb_eq in E. now subst.
  - intros H. exists x. split; trivial. apply str_eqb_refl.
Qed.

Lemma member_false (x : str) (l : list str) :
  member x l = false <-> ~ In x l.
Proof.
  rewrite <- member_In. destruct (member x l); split; congruence.
Qed.

Lemma keys_count_add (x : str) (c : counter) :
  keys (count_add x c) = if member x (keys c) then keys c else keys c ++ [x].
Proof.
  induction c as [|[k n] c IH]; simpl; trivial.
  unfold member in *. simpl. rewrite str_eqb_dec.
  destruct (str_dec k x) as [->|Hne]; simpl.
  - now rewrite str_eqb_refl.
  - rewrite IH.
    replace (str_eqb x k) with false
      by (symmetry; rewrite str_eqb_dec; destruct (str_dec x k); congruence).
    simpl. now destruct (existsb (str_eqb x) (keys c)).
Qed.

Lemma cget_count_add (k x : str) (c : counter) :
  cget k (count_add x c) = if str_eqb x k then S (cget k c) else cget k c.
Proof.
  induction c as [|[k' n] c IH]; simpl.
  - now destruct (str_eqb x k).
  - rewrite !str_eqb_dec in *.
    destruct (str_dec k' x) as [->|Hne]; simpl; rewrite ?str_eqb_dec.
    + now destruct (str_dec x k).
    + destruct (str_dec k' k) as [->|Hne']; trivial.
      destruct (str_dec x k); [congruence | trivial].
Qed.

Lemma keys_fold_count_add (l : list str) (c : counter) :
  keys (fold_left (fun c k => count_add k c) l c)
  = keys c ++ new_keys (keys c) l.
Proof.
  revert c. induction l as [|x l IH]; intros c; simpl.
  - now rewrite app_nil_r.
  - rewrite IH, keys_count_add.
    destruct (member x (keys c)); trivial.
    now rewrite <- app_assoc.
Qed.

Lemma cget_fold_count_add (k : str) (l : list str) (c : counter) :
  cget k (fold_left (fun c k => count_add k c) l c)
  = cget k c + count_occ str_dec l k.
Proof.
  revert c. induction l as [|x l IH]; intros c; simpl.
  - lia.
  - rewrite IH, cget_count_add, str_eqb_dec.
    destruct (str_dec x k); lia.
Qed.

Lemma new_keys_fresh (seen l : list str) (y : str) :
  In y (new_keys seen l) -> ~ In y seen /\ In y l.
Proof.
  revert seen. induction l as [|x l IH]; intros seen; simpl; [tauto|].
  destruct (member x seen) eqn:E.
  - intros H. apply IH in H. tauto.
  - apply member_false in E. intros [<-|H]; [tauto|].
    apply IH in H. rewrite in_app_iff in H. tauto.
Qed.

Lemma new_keys_NoDup (seen l : list str) : NoDup (new_keys seen l).
Proof.
  revert seen. induction l as [|x l IH]; intros seen; simpl.
  - constructor.
  - destruct (member x seen); trivial.
    constructor; trivial.
    intros H. apply new_keys_fresh in H. rewrite in_app_iff in H.
    simpl in H. tauto.
Qed.

Lemma new_keys_complete (seen l : list str) (y : str) :
  In y l -> In y seen \/ In y (new_keys seen l).
Proof.
  revert seen. induction l as [|x l IH]; intros seen; simpl; [tauto|].
  intros [<-|H].
  - destruct (member x seen) eqn:E.
    + left. now apply member_In.
    + right. now left.
  - destruct (member x seen) eqn:E.
    + now apply IH.
    + destruct (IH (seen ++ [x]) H) as [H'|H'].
      * rewrite in_app_iff in H'. simpl in H'.
        destruct H' as [H'|[<-|[]]]; simpl; auto.
      * simpl; auto.
Qed.

(** A key comes after the keys of everything that precedes its first
    occurrence. *)
Lemma new_keys_order (seen l ks1 ks2 : list str) (k : str) :
  new_keys seen l = ks1 ++ k :: ks2 ->
  exists l1 l2, l = l1 ++ k :: l2
                /\ forall y, In y l1 -> In y (seen ++ ks1).
Proof.
  revert seen ks1. induction l as [|x l IH]; intros seen ks1; simpl.
  - destruct ks1; discriminate.
  - destruct (member x seen) eqn:E.
    + intros H. destruct (IH _ _ H) as (l1 & l2 & -> & Hl1).
      exists (x :: l1), l2. split; trivial.
      intros y [<-|Hy]; auto.
      apply in_or_app. left. now apply member_In.
    + destruct ks1 as [|k1 ks1]; simpl; intros H; inversion H; subst.
      * exists [], l. split; trivial. intros y [].
      * destruct (IH _ _ H2) as (l1 & l2 & -> & Hl1).
        exists (k1 :: l1), l2. split; trivial.
        intros y [<-|Hy].
        -- apply in_or_app. right. now left.
        -- specialize (Hl1 y Hy). rewrite !in_app_iff in *.
           simpl in *. tauto.
Qed.

Lemma cget_entry (c : counter) (k : str) (n : nat) :
  NoDup (keys c) -> In (k, n) c -> cget k c = n.
Proof.
  induction c as [|[k' n'] c IH]; simpl; [tauto|].
  intros Hnd [E|Hin]; inversion Hnd; subst.
  - inversion E; subst. now rewrite str_eqb_refl.
  - rewrite str_eqb_dec. destruct (str_dec k' k) as [->|Hne].
    + exfalso. apply H1. change k with (fst (k, n)). now apply in_map.
    + now apply IH.
Qed.

(** The head of the descending stable sort is the first maximum. *)
Lemma first_maximum (c : counter) :
  c <> [] ->
  exists c1 g n c2,
    c = c1 ++ (g, n) :: c2
    /\ hd_error (sorted_by (fun x y => (snd y <=? snd x)%nat) c) = Some (g, n)
    /\ (forall e, In e c1 -> snd e < n)
    /\ (forall e, In e c2 -> snd e <= n).
Proof.
  set (le := fun x y : str * nat => (snd y <=? snd x)%nat).
  induction c as [|x c IH]; [congruence|]. intros _.
  destruct c as [|y c].
  - exists [], (fst x), (snd x), []. destruct x. simpl.
    repeat split; simpl; tauto.
  - destruct IH as (c1 & g & n & c2 & Hc & Hhd & H1 & H2); [discriminate|].
    change (sorted_by le (x :: y :: c))
      with (insert_by le x (sorted_by le (y :: c))).
    destruct (sorted_by le (y :: c)) as [|h rest] eqn:Es; [discriminate|].
    simpl in Hhd. inversion Hhd; subst h. simpl insert_by. unfold le at 1.
    simpl snd at 1.
    destruct (n <=? snd x)%nat eqn:E.
    + apply Nat.leb_le in E.
      exists [], (fst x), (snd x), (y :: c). destruct x as [kx nx].
      simpl fst; simpl snd in *. split; [reflexivity|].
      split; [reflexivity|]. split; [intros e []|].
      intros e He. rewrite Hc in He. apply in_app_or in He.
      destruct He as [He|[<-|He]]; simpl.
      * specialize (H1 e He). lia.
      * lia.
      * specialize (H2 e He). lia.
    + apply Nat.leb_gt in E.
      exists (x :: c1), g, n, c2. rewrite Hc.
      split; [reflexivity|]. split; [reflexivity|]. split; trivial.
      intros e [<-|He]; auto.
Qed.

Lemma Counter_keys (l : list str) : keys (Counter l) = new_keys [] l.
Proof. unfold Counter. now rewrite keys_fold_count_add. Qed.

Lemma Counter_cget (l : list str) (k : str) :
  cget k (Counter l) = count_occ str_dec l k.
Proof. unfold Counter. now rewrite cget_fold_count_add. Qed.

Lemma Counter_entry (l : list str) (k : str) (n : nat) :
  In (k, n) (Counter l) -> n = count_occ str_dec l k /\ In k l.
Proof.
  intros H. split.
  - rewrite <- Counter_cget. symmetry. apply cget_entry; trivial.
    rewrite Counter_keys. apply new_keys_NoDup.
  - assert (Hk : In k (keys (Counter l)))
      by (change k with (fst (k, n)); now apply in_map).
    rewrite Counter_keys in Hk. now apply new_keys_fresh in Hk.
Qed.

Lemma Counter_has (l : list str) (k : str) :
  In k l -> In (k, count_occ str_dec l k) (Counter l).
Proof.
  intros H.
  destruct (new_keys_complete [] l k H) as [[]|Hk].
  rewrite <- Counter_keys in Hk. unfold keys in Hk.
  apply in_map_iff in Hk. destruct Hk as ([k' n] & E & Hin).
  simpl in E. subst k'.
  now destruct (Counter_entry l k n Hin) as [<- _].
Qed.

(** What [determine_me] guesses when no name is configured. *)
Lemma determine_me_guess (l : list str) :
  l <> [] ->
  exists g,
    determine_me [] (Counter l) = (Some g, [g])
    /\ In g l
    /\ (forall s, count_occ str_dec l s <= count_occ str_dec l g)
    /\ (forall s, s <> g ->
          count_occ str_dec l s = count_occ str_dec l g ->
          exists l1 l2, l = l1 ++ g :: l2 /\ ~ In g l1 /\ ~ In s l1).
Proof.
  intros Hne.
  assert (Hc : Counter l <> []).
  { intros E. assert (Hk := Counter_keys l). rewrite E in Hk.
    destruct l as [|x l]; [congruence|]. discriminate. }
  destruct (first_maximum (Counter l) Hc)
    as (c1 & g & n & c2 & Hsplit & Hhd & Hlt & Hle).
  assert (Hg : In (g, n) (Counter l))
    by (rewrite Hsplit; apply in_or_app; right; now left).
  destruct (Counter_entry l g n Hg) as [Hn Hgl].
  assert (Hnd : NoDup (keys c1 ++ g :: keys c2)).
  { assert (H := new_keys_NoDup [] l). rewrite <- Counter_keys, Hsplit in H.
    unfold keys in *. now rewrite map_app in H. }
  exists g. split; [|split; [|split]]; trivial.
  - unfold determine_me, most_common.
    destruct (sorted_by _ (Counter l)) as [|h rest]; [discriminate|].
    simpl in Hhd. inversion Hhd. reflexivity.
  - intros s. destruct (in_dec str_dec s l) as [Hs|Hs].
    + assert (He := Counter_has l s Hs). rewrite Hsplit in He.
      apply in_app_or in He. rewrite <- Hn.
      destruct He as [He|[He|He]].
      * specialize (Hlt _ He). simpl in Hlt. lia.
      * inversion He. lia.
      * specialize (Hle _ He). simpl in Hle. lia.
    + apply (count_occ_not_In str_dec) in Hs. rewrite Hs. lia.
  - intros s Hsg Heq.
    assert (Hs : In s l).
    { apply (count_occ_In str_dec). rewrite Heq.
      now apply (count_occ_In str_dec). }
    assert (He := Counter_has l s Hs). rewrite Hsplit in He.
    apply in_app_or in He.
    assert (Hs2 : In s (keys c2)).
    { destruct He as [He|[He|He]].
      - specialize (Hlt _ He). simpl in Hlt. lia.
      - inversion He. congruence.
      - unfold keys. change s with (fst (s, count_occ str_dec l s)).
        now apply in_map. }
    assert (Hk : new_keys [] l = keys c1 ++ g :: keys c2).
    { rewrite <- Counter_keys, Hsplit. unfold keys. now rewrite map_app. }
    destruct (new_keys_order [] l _ _ g Hk) as (l1 & l2 & El & Hl1).
    exists l1, l2. split; trivial.
    assert (Hg1 := NoDup_remove_2 _ _ _ Hnd).
    assert (Hd := NoDup_remove_1 _ _ _ Hnd).
    split; intros Hin; apply Hl1 in Hin; simpl in Hin.
    + apply Hg1. apply in_or_app. now left.
    + revert Hin Hs2. clear - Hd. induction (keys c1) as [|a k1 IH]; simpl.
      * tauto.
      * inversion Hd; subst. intros [<-|H] Hs2.
        -- apply H1. apply in_or_app. now right.
        -- now apply IH.
Qed.

Lemma sent_count (g : str) (ns : list Message) :
  length (filter (fun m => member (sender_of m) [g]) ns)
  = count_occ str_dec (map sender_of ns) g.
Proof.
  induction ns as [|m ns IH]; [reflexivity|].
  cbn [filter map count_occ].
  destruct (member (sender_of m) [g]) eqn:E;
    unfold member in E; simpl in E; rewrite orb_false_r, str_eqb_dec in E;
    destruct (str_dec (sender_of m) g); try discriminate;
    cbn [length]; now rewrite IH.
Qed.

(** C7.  With no configured name and at least one authored message, the
    engine takes exactly one sender as "me" and reports it as
    [guessed_me]: a sender with the greatest number of messages, and
    among those with that number the one whose first message comes
    first.  With three messages of A and five of B it is B. *)
Theorem self_inference (cfg : Config) (msgs : list Message) (lbl : str) :
  non_system_of msgs <> [] ->
  forallb has_ts (non_system_of msgs) = true ->
  let senders := map sender_of (non_system_of msgs) in
  let count s := count_occ str_dec senders s in
  (exists r g,
      stats_for_messages cfg msgs [] lbl = Some r
      /\ guessed_me r = Some g /\ my_names r = [g]
      /\ In g senders
      /\ (forall s, count s <= count g)
      /\ (forall s, s <> g -> count s = count g ->
            exists l1 l2, senders = l1 ++ g :: l2 /\ ~ In g l1 /\ ~ In s l1)
      /\ sent r = count g)
  /\ (exists r, stats_for_messages cfg ab_msgs [] lbl = Some r
                /\ guessed_me r = Some (s2l "B")).
Proof.
  intros Hne Hts senders count. split.
  - destruct (determine_me_guess senders) as (g & Hg & Hin & Hmax & Htie).
    { unfold senders. destruct (non_system_of msgs); [congruence|discriminate]. }
    unfold stats_for_messages. rewrite Hts. simpl negb. cbv iota.
    fold senders. rewrite Hg.
    destruct (reactions cfg [g] _) as [mr tr].
    eexists. exists g. split; [reflexivity|]. simpl.
    repeat split; trivial. apply sent_count.
  - unfold stats_for_messages.
    destruct (reactions cfg [s2l "B"] (sort_by_ts (non_system_of ab_msgs)))
      as [mr tr] eqn:E.
    change (determine_me [] (Counter (map sender_of (non_system_of ab_msgs))))
      with (Some (s2l "B"), [s2l "B"]).
    change (negb (forallb has_ts (non_system_of ab_msgs))) with false.
    cbv iota. rewrite E. eexists. split; reflexivity.
Qed.

Lemma self_inference_witness :
  non_system_of ab_msgs <> []
  /\ forallb has_ts (non_system_of ab_msgs) = true
  /\ exists r, stats_for_messages default_config ab_msgs [] [] = Some r
               /\ guessed_me r = Some (s2l "B").
Proof.
  split; [discriminate|]. split; [reflexivity|].
  apply (self_inference default_config ab_msgs []);
    [discriminate | reflexivity].
Defined.

(** Between two senders with as many messages, the one seen first wins. *)
Example self_inference_tie :
  determine_me [] (Counter [s2l "A"; s2l "B"; s2l "B"; s2l "A"])
  = (Some (s2l "A"), [s2l "A"]).
Proof. vm_compute. reflexivity. Qed.

(** ** Greedy repetition *)

Section RepFacts.
Variable A : Type.
Variable p : ascii -> bool.

(** When the rest of the pattern fails after every admissible number of
    repetitions, the repetition fails. *)
Lemma rep_none (lo : nat) (w rest : str) (k : str -> option A) :
  forallb p w = true -> stops p rest ->
  (forall u v, w = u ++ v -> lo <= length u -> k (v ++ rest) = None) ->
  rep p lo None (w ++ rest) k = None.
Proof.
  revert lo. induction w as [|c w IH]; intros lo Hw Hst Hk.
  - simpl app. assert (H0 : lo = 0 -> k rest = None).
    { intros ->. apply (Hk [] []); simpl; trivial. }
    destruct rest as [|c rest]; simpl.
    + destruct lo; auto.
    + simpl in Hst. rewrite Hst. destruct lo; auto.
  - simpl in Hw. apply andb_prop in Hw. destruct Hw as [Hc Hw].
    simpl. rewrite Hc. rewrite IH; trivial.
    + destruct lo; trivial. apply (Hk [] (c :: w)); simpl; trivial.
    + intros u v -> Hlo. apply (Hk (c :: u) v); simpl; trivial.
      destruct lo; simpl in *; lia.
Qed.

(** The repetition gives back characters one at a time until the rest of
    the pattern succeeds: after [w1], when it fails after every longer
    run. *)
Lemma rep_first (lo : nat) (w1 w2 rest : str) (k : str -> option A) :
  forallb p (w1 ++ w2) = true -> stops p rest ->
  lo <= length w1 ->
  (forall u v, w2 = u ++ v -> u <> [] -> k (v ++ rest) = None) ->
  lo = length w1 \/ k (w2 ++ rest) <> None ->
  rep p lo None (w1 ++ w2 ++ rest) k = k (w2 ++ rest).
Proof.
  revert lo. induction w1 as [|c w1 IH]; intros lo Hw Hst Hlo Hk Hor.
  - simpl in *. assert (lo = 0) by lia. subst lo.
    destruct w2 as [|c w2].
    + simpl. destruct rest as [|c rest]; simpl; trivial.
      simpl in Hst. now rewrite Hst.
    + simpl in Hw. apply andb_prop in Hw. destruct Hw as [Hc Hw].
      simpl. rewrite Hc. rewrite rep_none; trivial.
      intros u v -> _. apply (Hk (c :: u) v); trivial. discriminate.
  - simpl in Hw. apply andb_prop in Hw. destruct Hw as [Hc Hw].
    simpl. rewrite Hc. rewrite IH; trivial.
    + destruct (k (w2 ++ rest)) eqn:E; trivial.
      destruct Hor as [->|Hor]; [reflexivity | congruence].
    + simpl in Hlo. lia.
    + destruct Hor as [->|Hor]; [left; reflexivity | now right].
Qed.

(** The longest run, when the rest of the pattern accepts it. *)
Lemma rep_longest (lo : nat) (w rest : str) (k : str -> option A) :
  forallb p w = true -> stops p rest -> lo <= length w ->
  k rest <> None ->
  rep p lo None (w ++ rest) k = k rest.
Proof.
  intros Hw Hst Hlo Hk.
  apply (rep_first lo w [] rest k); trivial.
  - now rewrite app_nil_r.
  - intros u v E. symmetry in E. apply app_eq_nil in E. tauto.
  - now right.
Qed.
End RepFacts.

(** ** Splitting a string at the end of a run *)

Lemma take_drop_while (p : ascii -> bool) (s : str) :
  s = take_while p s ++ drop_while p s
  /\ forallb p (take_while p s) = true
  /\ stops p (drop_while p s).
Proof.
  induction s as [|c s (IH1 & IH2 & IH3)]; simpl; [tauto|].
  destruct (p c) eqn:E; simpl.
  - rewrite E. now rewrite <- IH1.
  - tauto.
Qed.

Lemma lstrip_drop_while (s : str) : lstrip s = drop_while is_space s.
Proof. induction s as [|c s IH]; simpl; trivial. now rewrite IH. Qed.

Lemma drop_while_all (p : ascii -> bool) (s : str) :
  forallb p s = true -> drop_while p s = [] /\ take_while p s = s.
Proof.
  induction s as [|c s IH]; simpl; [tauto|].
  intros H. apply andb_prop in H. destruct H as [Hc Hs].
  rewrite Hc. destruct (IH Hs) as [-> ->]. tauto.
Qed.

Lemma firstn_app_exact (w rest : str) :
  firstn (length (w ++ rest) - length rest) (w ++ rest) = w.
Proof.
  rewrite length_app, Nat.add_sub.
  rewrite firstn_app, Nat.sub_diag, firstn_all. simpl. apply app_nil_r.
Qed.

Lemma rep_longest_eq (A : Type) (p : ascii -> bool) (lo : nat)
      (s w rest : str) (k : str -> option A) :
  s = w ++ rest ->
  forallb p w = true -> stops p rest -> lo <= length w ->
  k rest <> None ->
  rep p lo None s k = k rest.
Proof. intros ->. apply rep_longest. Qed.

(** ** Lines *)

Lemma forallb_rev (p : ascii -> bool) (s : str) :
  forallb p (rev s) = forallb p s.
Proof.
  induction s as [|c s IH]; simpl; trivial.
  rewrite forallb_app, IH. simpl. rewrite andb_true_r. apply andb_comm.
Qed.

(** A line without LF is not changed by [rstrip("\n")]. *)
Lemma rstrip_lf_line (line : str) :
  forallb dot line = true -> rstrip_lf line = line.
Proof.
  intros H. unfold rstrip_lf.
  rewrite <- forallb_rev in H.
  destruct (rev line) as [|c s] eqn:E.
  - simpl. rewrite <- (rev_involutive line), E. reflexivity.
  - simpl in H. apply andb_prop in H. destruct H as [Hc _].
    unfold dot in Hc. apply negb_true_iff in Hc. simpl. rewrite Hc.
    rewrite <- E. apply rev_involutive.
Qed.

(** ** The shape "sender: text" *)

Section SenderText.
Variable A : Type.
Variable n0 : nat.

Lemma text_only_run (t : str) (c : caps) (k : str -> caps -> option A) :
  forallb dot t = true ->
  k [] (("text"%string, t) :: c) <> None ->
  run n0 false text_only t c k = k [] (("text"%string, t) :: c).
Proof.
  intros Ht Hk. unfold text_only. cbn [run].
  assert (E : firstn (length t - 0) t = t)
    by (rewrite Nat.sub_0_r; apply firstn_all).
  rewrite (rep_longest_eq _ dot 0 t t []); simpl; rewrite ?E; trivial.
  - now rewrite app_nil_r.
  - lia.
Qed.

Lemma spaces_text_run (t : str) (c : caps) (k : str -> caps -> option A) :
  forallb dot t = true ->
  k [] (("text"%string, lstrip t) :: c) <> None ->
  run n0 false (spaces0 ;; text_only) t c k
  = k [] (("text"%string, lstrip t) :: c).
Proof.
  intros Ht Hk. cbn [run spaces0].
  destruct (take_drop_while is_space t) as (E & Hw & Hst).
  rewrite <- lstrip_drop_while in *.
  assert (Ht' : forallb dot (lstrip t) = true).
  { rewrite E, forallb_app in Ht. apply andb_prop in Ht. tauto. }
  rewrite (rep_longest_eq _ is_space 0 t _ _ _ E); trivial.
  - now apply text_only_run.
  - lia.
  - now rewrite text_only_run.
Qed.

(** A line with a colon after a non-empty prefix without colon. *)
Lemma sender_text_run (s t : str) (c : caps) (k : str -> caps -> option A) :
  s <> [] -> forallb not_colon s = true -> forallb dot t = true ->
  let c' := ("text"%string, lstrip t) :: ("sender"%string, s) :: c in
  k [] c' <> None ->
  run n0 false sender_text (s ++ ":" :: t) c k = k [] c'.
Proof.
  intros Hs Hnc Ht c' Hk. unfold sender_text. cbn [run].
  assert (Hrest :
    (if lit_eqb false ":" ":" then
       run n0 false (spaces0 ;; text_only) t
           (("sender"%string,
             firstn (length (s ++ ":" :: t) - length (":" :: t))
                    (s ++ ":" :: t)) :: c) k
     else None) = k [] c').
  { rewrite firstn_app_exact. simpl lit_eqb. cbv iota.
    now apply spaces_text_run. }
  rewrite (rep_longest_eq _ not_colon 1 _ s (":" :: t) _ eq_refl); trivial.
  - reflexivity.
  - destruct s; [congruence | simpl; lia].
  - intros H. apply Hk. rewrite <- Hrest. exact H.
Qed.

Lemma lit_colon (x : ascii) : not_colon x = true -> lit_eqb false ":" x = false.
Proof.
  unfold not_colon, lit_eqb. rewrite Ascii.eqb_sym.
  now destruct (Ascii.eqb ":" x).
Qed.

(** A line without colon, or starting with one. *)
Lemma sender_text_fail (line : str) (c : caps) (k : str -> caps -> option A) :
  forallb not_colon line = true \/ (exists t, line = ":" :: t) ->
  run n0 false sender_text line c k = None.
Proof.
  intros [H|[t ->]]; unfold sender_text; cbn [run].
  - rewrite <- (app_nil_r line) at 1. apply rep_none; [exact H | exact I |].
    intros u v E _. rewrite app_nil_r.
    destruct v as [|x v]; trivial.
    rewrite E, forallb_app in H. apply andb_prop in H.
    destruct H as [_ H]. simpl in H. apply andb_prop in H.
    destruct H as [Hx _]. cbv beta iota. now rewrite (lit_colon x Hx).
  - reflexivity.
Qed.
End SenderText.

(** ** The line after a pending time stamp *)

Lemma not_colon_false (x : ascii) : not_colon x = false -> x = ":".
Proof.
  unfold not_colon. intros H. apply negb_false_iff in H.
  now apply Ascii.eqb_eq in H.
Qed.

(** What [SENDER_ONLY.match] finds on a line: the text before the first
    colon when there is one and it is not empty, and the text after that
    colon without its leading white space. *)
Lemma sender_only_match (line : str) :
  forallb dot line = true ->
  re_match SENDER_ONLY line
  = match take_while not_colon line, drop_while not_colon line with
    | c :: s, _ :: t =>
        Some [("text"%string, lstrip t); ("sender"%string, c :: s)]
    | _, _ => None
    end.
Proof.
  intros Hdot. unfold re_match, SENDER_ONLY. cbn [run].
  rewrite Nat.eqb_refl.
  destruct (take_drop_while not_colon line) as (E & Hw & Hst).
  destruct (take_while not_colon line) as [|c s].
  - simpl in E. rewrite <- E in Hst. apply sender_text_fail.
    destruct line as [|x t]; [now left|].
    right. exists t. simpl in Hst. now rewrite (not_colon_false x Hst).
  - destruct (drop_while not_colon line) as [|x t].
    + apply sender_text_fail. left. rewrite E, app_nil_r. exact Hw.
    + simpl in Hst. apply not_colon_false in Hst. subst x.
      rewrite E. rewrite E, forallb_app in Hdot.
      apply andb_prop in Hdot. destruct Hdot as [_ Hdot].
      change (forallb dot t = true) in Hdot.
      rewrite sender_text_run; trivial; discriminate.
Qed.

Lemma take_while_stop (p : ascii -> bool) (s : str) (x : ascii) (t : str) :
  forallb p s = true -> p x = false ->
  take_while p (s ++ x :: t) = s /\ drop_while p (s ++ x :: t) = x :: t.
Proof.
  intros Hs Hx. induction s as [|c s IH]; simpl.
  - now rewrite Hx.
  - simpl in Hs. apply andb_prop in Hs. destruct Hs as [Hc Hs].
    rewrite Hc. destruct (IH Hs) as [-> ->]. tauto.
Qed.

(** With a time stamp pending, a line closes the open message and opens
    the message that [bind_pending] builds from it. *)
Lemma step_pending (st : ParserState) (pending : datetime) (line : str) :
  pending_ts st = Some pending ->
  forallb dot line = true ->
  step st line = mkState (flush st) (Some (bind_pending pending line)) None.
Proof.
  intros Hp Hdot. unfold step. rewrite Hp, (rstrip_lf_line line Hdot).
  rewrite (sender_only_match line Hdot). unfold bind_pending.
  destruct (take_while not_colon line) as [|c s]; trivial.
  destruct (drop_while not_colon line) as [|x t]; trivial.
Qed.

(** A line with a non-empty text before its first colon is bound as an
    authored message. *)
Lemma bind_pending_authored (pending : datetime) (s t : str) :
  s <> [] -> forallb not_colon s = true ->
  bind_pending pending (s ++ ":" :: t)
  = mkMessage (Some pending) (Some (strip s)) (lstrip t) false.
Proof.
  intros Hs Hnc. unfold bind_pending.
  destruct (take_while_stop not_colon s ":" t Hnc eq_refl) as [-> ->].
  destruct s; [congruence | reflexivity].
Qed.

(** A line that starts with a colon contains one and yet is bound as a
    system notice. *)
Lemma leading_colon_is_notice :
  In ":" (s2l ":-) ciao")
  /\ current (step pending_example (s2l ":-) ciao"))
     = Some (mkMessage (Some (mkdt 2020 4 15 16 20 56)) None
                       (s2l ":-) ciao") true)
  /\ parse_chat_text (s2l "[15.04.2020, 16:20:56]" ++ LF :: s2l ":-) ciao")
     = [mkMessage (Some (mkdt 2020 4 15 16 20 56)) None (s2l ":-) ciao") true].
Proof.
  split; [now left|]. split; vm_compute; reflexivity.
Qed.

(** The line is bound as an authored message exactly when it holds a
    colon and does not start with one. *)
Lemma authored_iff_colon_inside (pending : datetime) (line : str) :
  is_system (bind_pending pending line) = false <->
  In ":" line /\ hd_error line <> Some ":".
Proof.
  unfold bind_pending.
  destruct (take_drop_while not_colon line) as (E & Hw & Hst).
  destruct (take_while not_colon line) as [|c s].
  - (* nothing before the first colon, or no colon and no character *)
    simpl in E. rewrite <- E in Hst.
    destruct line as [|x t].
    + split; [discriminate | intros [[] _]].
    + simpl in Hst. apply not_colon_false in Hst. subst x.
      split; [discriminate | intros [_ H]; now elim H].
  - simpl in Hw. apply andb_prop in Hw. destruct Hw as [Hc Hw].
    destruct (drop_while not_colon line) as [|x t].
    + (* no colon at all *)
      split; [discriminate|]. intros [Hin _].
      rewrite app_nil_r in E. subst line.
      assert (H : forallb not_colon (c :: s) = true)
        by (simpl; now rewrite Hc, Hw).
      rewrite forallb_forall in H. specialize (H ":" Hin). discriminate.
    + simpl in Hst. apply not_colon_false in Hst. subst x.
      split; [|reflexivity]. intros _. subst line. split.
      * apply in_or_app. right. now left.
      * simpl. intros H. inversion H; subst c. discriminate.
Qed.

(** C9 (amended).  After a bracket-only line has set the pending time
    stamp, the next line is bound as an authored message if and only if
    it contains a colon and does not start with one, that is, if its
    first colon has at least one character before it: the sender is the
    stripped text before the first colon and the text is what follows
    that colon, without its leading white space.  Any other line becomes
    a system notice, also one that starts with a colon and has another
    colon later, like ":a:b".  So "call at 5:30" is an authored message
    of the sender "call at 5". *)
Theorem pending_line_classification
        (st : ParserState) (pending : datetime) (line : str) :
  pending_ts st = Some pending ->
  forallb dot line = true ->
  step st line = mkState (flush st) (Some (bind_pending pending line)) None
  /\ (is_system (bind_pending pending line) = false <->
      exists s t, line = s ++ ":" :: t /\ s <> []
                  /\ forallb not_colon s = true)
  /\ (forall s t, s <> [] -> forallb not_colon s = true ->
        line = s ++ ":" :: t ->
        bind_pending pending line
        = mkMessage (Some pending) (Some (strip s)) (lstrip t) false)
  /\ bind_pending pending (s2l "call at 5:30")
     = mkMessage (Some pending) (Some (s2l "call at 5")) (s2l "30") false
  /\ (is_system (bind_pending pending line) = false <->
      In ":" line /\ hd_error line <> Some ":")
  /\ bind_pending pending (s2l ":a:b")
     = mkMessage (Some pending) None (s2l ":a:b") true.
Proof.
  intros Hp Hdot. split; [|split; [|split; [|split; [|split]]]].
  - now apply step_pending.
  - split.
    + unfold bind_pending.
      destruct (take_drop_while not_colon line) as (E & Hw & Hst).
      destruct (take_while not_colon line) as [|c s]; [discriminate|].
      destruct (drop_while not_colon line) as [|x t]; [discriminate|].
      intros _. simpl in Hst. apply not_colon_false in Hst. subst x.
      exists (c :: s), t. repeat split; trivial. discriminate.
    + intros (s & t & -> & Hs & Hnc).
      now rewrite bind_pending_authored.
  - intros s t Hs Hnc ->. now apply bind_pending_authored.
  - vm_compute. reflexivity.
  - apply authored_iff_colon_inside.
  - reflexivity.
Qed.

Lemma pending_line_classification_witness :
  pending_ts pending_example = Some (mkdt 2020 4 15 16 20 56)
  /\ forallb dot (s2l "call at 5:30") = true
  /\ step pending_example (s2l "call at 5:30")
     = mkState [] (Some (mkMessage (Some (mkdt 2020 4 15 16 20 56))
                                   (Some (s2l "call at 5")) (s2l "30") false))
               None.
Proof.
  split; [reflexivity|]. split; [reflexivity|].
  apply (pending_line_classification pending_example
           (mkdt 2020 4 15 16 20 56) (s2l "call at 5:30"));
    reflexivity.
Defined.

(** ** Bracket-only header lines *)

(** A step only ever appends to the messages already emitted. *)
Lemma step_messages (st : ParserState) (line : str) :
  messages (step st line) = messages st
  \/ messages (step st line) = flush st.
Proof.
  unfold step. destruct (pending_ts st).
  - destruct (re_match SENDER_ONLY _); simpl; auto.
  - destruct (re_match BRACKET_TS_ONLY _).
    + destruct (try_parse_dt _ _); simpl; auto.
    + destruct (first_match PATTERNS _); [simpl; auto|].
      destruct (first_match SYSTEM_PATTERNS _); [simpl; auto|].
      destruct (current st); simpl; auto.
Qed.

Lemma flush_messages (st : ParserState) :
  exists more, flush st = messages st ++ more.
Proof.
  unfold flush. destruct (current st) as [m|].
  - now exists [m].
  - exists []. now rewrite app_nil_r.
Qed.

Lemma emitted_stay (lines : list str) (st : ParserState) :
  exists more, flush (fold_left step lines st) = messages st ++ more.
Proof.
  revert st. induction lines as [|l lines IH]; intros st; simpl.
  - apply flush_messages.
  - destruct (IH (step st l)) as [more ->].
    destruct (step_messages st l) as [->| ->].
    + now exists more.
    + destruct (flush_messages st) as [m ->].
      exists (m ++ more). now rewrite app_assoc.
Qed.

(** A bracket-only line leaves the open message open, and when its time
    stamp does not resolve the line is dropped: the next line continues
    the message that was open before. *)
Lemma bracket_only_keeps_current_open :
  re_match BRACKET_TS_ONLY (s2l "[15.04.2020, 16:20:56]") <> None
  /\ current alice_open <> None
  /\ current (step alice_open (s2l "[15.04.2020, 16:20:56]"))
     = current alice_open
  /\ messages (step alice_open (s2l "[15.04.2020, 16:20:56]")) = []
  /\ re_match BRACKET_TS_ONLY (s2l "[99.99.2020, 16:20:56]") <> None
  /\ step alice_open (s2l "[99.99.2020, 16:20:56]") = alice_open
  /\ parse_chat_text (s2l "01/02/23, 09:00 - Alice: hello" ++ LF ::
                      s2l "[99.99.2020, 16:20:56]" ++ LF :: s2l "more")
     = [mkMessage (Some (mkdt 2023 2 1 9 0 0)) (Some (s2l "Alice"))
                  (s2l "hello" ++ LF :: s2l "more") false].
Proof.
  split; [vm_compute; discriminate|].
  split; [vm_compute; discriminate|].
  split; [vm_compute; reflexivity|].
  split; [vm_compute; reflexivity|].
  split; [vm_compute; discriminate|].
  split; vm_compute; reflexivity.
Qed.

(** C4 (amended).  When no time stamp is pending and a line matches the
    bracket-only shape: if its time stamp resolves, the step only records
    it as pending and the open message stays open, but the very next line
    emits that message unchanged and opens a new one under the pending
    time stamp, so that whatever follows, the messages assembled in the
    end start with those emitted or open before the bracket-only line;
    if its time stamp does not resolve, the line is dropped and the state
    is unchanged. *)
Theorem bracket_only_header (st : ParserState) (line : str) (gd : caps) :
  pending_ts st = None ->
  re_match BRACKET_TS_ONLY (rstrip_lf line) = Some gd ->
  (forall t, try_parse_dt (get "date" gd) (get "time" gd) = Some t ->
     step st line = mkState (messages st) (current st) (Some t)
     /\ (forall next, exists m,
           step (step st line) next = mkState (flush st) (Some m) None
           /\ ts m = Some t)
     /\ (forall rest, exists more,
           flush (fold_left step rest (step st line)) = flush st ++ more))
  /\ (try_parse_dt (get "date" gd) (get "time" gd) = None ->
      step st line = st).
Proof.
  intros Hp Hm.
  assert (Hstep : step st line
                  = match try_parse_dt (get "date" gd) (get "time" gd) with
                    | Some t => mkState (messages st) (current st) (Some t)
                    | None => st
                    end).
  { unfold step. now rewrite Hp, Hm. }
  split; [|intros Hn; now rewrite Hstep, Hn].
  intros t Ht. rewrite Ht in Hstep.
  split; [exact Hstep|]. rewrite Hstep.
  assert (Hnext : forall next, exists m,
             step (mkState (messages st) (current st) (Some t)) next
             = mkState (flush st) (Some m) None /\ ts m = Some t).
  { intros next. unfold step. simpl pending_ts.
    destruct (re_match SENDER_ONLY _); eexists; split; reflexivity. }
  split; [exact Hnext|].
  intros [|next rest].
  - exists []. now rewrite app_nil_r.
  - simpl. destruct (Hnext next) as (m & -> & _).
    apply (emitted_stay rest (mkState (flush st) (Some m) None)).
Qed.

Lemma bracket_only_header_witness :
  pending_ts alice_open = None
  /\ re_match BRACKET_TS_ONLY (rstrip_lf bracket_line) = Some bracket_groups
  /\ step alice_open bracket_line
     = mkState (messages alice_open) (current alice_open)
               (Some (mkdt 2020 4 15 16 20 56)).
Proof.
  assert (H1 : pending_ts alice_open = None) by (vm_compute; reflexivity).
  assert (H2 : re_match BRACKET_TS_ONLY (rstrip_lf bracket_line)
               = Some bracket_groups) by (vm_compute; reflexivity).
  split; [exact H1|]. split; [exact H2|].
  apply (proj1 (bracket_only_header alice_open bracket_line bracket_groups
                  H1 H2) (mkdt 2020 4 15 16 20 56)).
  vm_compute. reflexivity.
Defined.

(** ** The order of the date and time templates *)

Lemma try_formats_first (s : str) (fmts : list str) (d : datetime) :
  try_formats s fmts = Some d <->
  exists i fmt,
    nth_error fmts i = Some fmt /\ strptime s fmt = Some d
    /\ forall j fmt', j < i -> nth_error fmts j = Some fmt' ->
                      strptime s fmt' = None.
Proof.
  induction fmts as [|f fmts IH]; simpl.
  - split; [discriminate|]. intros (i & fmt & H & _). now destruct i.
  - destruct (strptime s f) as [d'|] eqn:E.
    + split.
      * intros H. exists 0, f. simpl. repeat split; trivial; try congruence.
        intros j fmt' Hj. lia.
      * intros (i & fmt & Hn & Hs & Hfirst).
        destruct i as [|i]; simpl in Hn.
        -- congruence.
        -- specialize (Hfirst 0 f (Nat.lt_0_succ i) eq_refl). congruence.
    + rewrite IH. split.
      * intros (i & fmt & Hn & Hs & Hfirst). exists (S i), fmt.
        repeat split; trivial. intros [|j] fmt' Hj Hn'; simpl in Hn'.
        -- congruence.
        -- apply (Hfirst j); [lia | trivial].
      * intros (i & fmt & Hn & Hs & Hfirst).
        destruct i as [|i]; simpl in Hn; [congruence|].
        exists i, fmt. repeat split; trivial.
        intros j fmt' Hj Hn'. apply (Hfirst (S j)); [lia | trivial].
Qed.

Lemma try_formats_none (s : str) (fmts : list str) :
  try_formats s fmts = None <->
  forall fmt, In fmt fmts -> strptime s fmt = None.
Proof.
  induction fmts as [|f fmts IH]; simpl.
  - split; [intros _ fmt [] | trivial].
  - destruct (strptime s f) eqn:E.
    + split; [discriminate|]. intros H.
      specialize (H f (or_introl eq_refl)). congruence.
    + rewrite IH. split.
      * intros H fmt [<-|Hin]; auto.
      * intros H fmt Hin. apply H. now right.
Qed.

Lemma below_all (n : nat) (P : nat -> bool) :
  forallb P (seq 0 n) = true -> forall i, i < n -> P i = true.
Proof.
  intros H i Hi. rewrite forallb_forall in H. apply H.
  apply in_seq. lia.
Qed.

(** The clock of a time stamp, one field at a time *)

Section Stages.
Variable A : Type.
Variable n0 : nat.

Lemma grp_two (a b : ascii) (rest : str) :
  firstn (length (a :: b :: rest) - length rest) (a :: b :: rest) = [a; b].
Proof. apply (firstn_app_exact [a; b] rest). Qed.

(** The first alternative that lets the rest of the pattern succeed is
    the one taken. *)
Lemma first_success (x y alt : option A) :
  x = y -> y <> None ->
  match x with Some a => Some a | None => alt end = y.
Proof. intros -> H. now destruct y. Qed.

(** One value of the field: the digits are known, the rest of the subject
    and of the pattern are not. *)
Ltac date_case :=
  match goal with
  | |- context [two_digits ?n] =>
      let v := eval vm_compute in (two_digits n) in
      change (two_digits n) with v in *
  end;
  cbn -[Nat.sub length firstn]; rewrite ?grp_two;
  match goal with
  | Hk : _ <> None |- _ =>
      repeat (apply first_success; [|exact Hk]); reflexivity
  end.

Ltac enum h := first [lia | destruct h as [|h]; [date_case | enum h]].

Lemma stage_M (m : nat) (r : regex) (rest : str) (c : caps)
      (k : str -> caps -> option A) :
  m < 60 ->
  run n0 true r rest (("M"%string, two_digits m) :: c) k <> None ->
  run n0 true (Grp "M" (rng "0" "5" ;; anyd <|> anyd) ;; r)
      (two_digits m ++ rest) c k
  = run n0 true r rest (("M"%string, two_digits m) :: c) k.
Proof. intros Hm Hk. enum m. Qed.

Lemma stage_S (sec : nat) (r : regex) (rest : str) (c : caps)
      (k : str -> caps -> option A) :
  sec < 60 ->
  run n0 true r rest (("S"%string, two_digits sec) :: c) k <> None ->
  run n0 true
      (Grp "S" (Lit "6" ;; rng "0" "1" <|> rng "0" "5" ;; anyd <|> anyd) ;; r)
      (two_digits sec ++ rest) c k
  = run n0 true r rest (("S"%string, two_digits sec) :: c) k.
Proof. intros Hs Hk. enum sec. Qed.

Lemma run_colon (r : regex) (rest : str) (c : caps)
      (k : str -> caps -> option A) :
  run n0 true (Lit ":" ;; r) (":" :: rest) c k = run n0 true r rest c k.
Proof. reflexivity. Qed.

Lemma stage_date_H (h : nat) (r : regex) (rest : str)
      (k : str -> caps -> option A) :
  h < 24 ->
  let c := [("H"%string, two_digits h); ("y"%string, $"23");
            ("m"%string, $"02"); ("d"%string, $"01")] in
  run n0 true r rest c k <> None ->
  run n0 true
      (Grp "d" (Lit "3" ;; rng "0" "1" <|> rng "1" "2" ;; anyd
                <|> Lit "0" ;; rng "1" "9" <|> rng "1" "9"
                <|> Lit " " ;; rng "1" "9") ;;
       Lit "/" ;;
       Grp "m" (Lit "1" ;; rng "0" "2" <|> Lit "0" ;; rng "1" "9"
                <|> rng "1" "9") ;;
       Lit "/" ;;
       Grp "y" (anyd ;; anyd) ;;
       spaces1 ;;
       Grp "H" (Lit "2" ;; rng "0" "3" <|> rng "0" "1" ;; anyd <|> anyd) ;;
       r)
      ($"01/02/23 " ++ two_digits h ++ rest) [] k
  = run n0 true r rest c k.
Proof.
  intros Hh c Hk. subst c. enum h.
Qed.

End Stages.

Lemma two_digits_clean (n : nat) :
  n < 100 -> forallb (fun c => negb (is_space c)) (two_digits n) = true.
Proof.
  intros Hn.
  apply (below_all 100 (fun n => forallb (fun c => negb (is_space c))
                                         (two_digits n)));
    [vm_compute; reflexivity | exact Hn].
Qed.

Lemma int_of_two_digits (n : nat) :
  n < 100 -> int_of (two_digits n) = Z.of_nat n.
Proof.
  intros Hn. apply Z.eqb_eq.
  apply (below_all 100 (fun n => (int_of (two_digits n) =? Z.of_nat n)%Z));
    [vm_compute; reflexivity | exact Hn].
Qed.

(** ** Tokens without white space are not changed by the normalisation *)

Lemma collapse_clean (b : bool) (s : str) :
  forallb (fun c => negb (is_space c)) s = true -> collapse_from b s = s.
Proof.
  revert b. induction s as [|c s IH]; intros b H; simpl; trivial.
  simpl in H. apply andb_prop in H. destruct H as [Hc Hs].
  apply negb_true_iff in Hc. rewrite Hc. now rewrite IH.
Qed.

Lemma collapse_two (d t : str) :
  forallb (fun c => negb (is_space c)) d = true ->
  forallb (fun c => negb (is_space c)) t = true ->
  collapse_ws (d ++ " " :: t) = d ++ " " :: t.
Proof.
  intros Hd Ht. unfold collapse_ws.
  induction d as [|c d IH].
  - simpl app. change (collapse_from false (" " :: t))
      with (" " :: collapse_from true t).
    now rewrite collapse_clean.
  - simpl in Hd. apply andb_prop in Hd. destruct Hd as [Hc Hd].
    apply negb_true_iff in Hc. simpl. rewrite Hc. now rewrite IH.
Qed.

Lemma normalize_clean (d t : str) :
  d <> [] -> t <> [] ->
  forallb (fun c => negb (is_space c)) d = true ->
  forallb (fun c => negb (is_space c)) t = true ->
  normalize_dt d t = d ++ " " :: t.
Proof.
  intros Hd0 Ht0 Hd Ht. unfold normalize_dt.
  change (d ++ $" " ++ t) with (d ++ " " :: t).
  assert (Hs : strip (d ++ " " :: t) = d ++ " " :: t).
  { unfold strip.
    assert (Hl : lstrip (d ++ " " :: t) = d ++ " " :: t).
    { destruct d as [|a d]; [congruence|]. simpl in *.
      apply andb_prop in Hd. destruct Hd as [Ha _].
      apply negb_true_iff in Ha. now rewrite Ha. }
    rewrite Hl. unfold rstrip.
    assert (Hr : lstrip (rev (d ++ " " :: t)) = rev (d ++ " " :: t)).
    { rewrite rev_app_distr. simpl rev.
      rewrite <- forallb_rev in Ht.
      destruct (rev t) as [|z r] eqn:Er.
      - apply (f_equal (@rev ascii)) in Er. rewrite rev_involutive in Er.
        simpl in Er. congruence.
      - simpl in Ht. apply andb_prop in Ht. destruct Ht as [Hz _].
        apply negb_true_iff in Hz. simpl. now rewrite Hz. }
    rewrite Hr. apply rev_involutive. }
  rewrite Hs. now apply collapse_two.
Qed.

Lemma valid_time (h m sec : nat) :
  h < 24 -> m < 60 -> sec < 60 ->
  valid_datetime (mkdt 2023 2 1 (Z.of_nat h) (Z.of_nat m) (Z.of_nat sec))
  = true.
Proof.
  intros Hh Hm Hs. unfold valid_datetime.
  cbn [year month day hour minute second].
  repeat (apply andb_true_intro; split); try reflexivity;
    apply Z.leb_le; lia.
Qed.

Section Clock.
Variables h m sec : nat.
Hypothesis Hh : h < 24.
Hypothesis Hm : m < 60.
Hypothesis Hs : sec < 60.

Lemma strptime_date_H (fmt rest : str) (r : regex) :
  pattern fmt = Some r ->
  let data := $"01/02/23 " ++ two_digits h ++ rest in
  let c := [("H"%string, two_digits h); ("y"%string, $"23");
            ("m"%string, $"02"); ("d"%string, $"01")] in
  let out := run (length data) true r rest c
                 (fun rest gd => Some (rest, gd)) in
  out <> None ->
  strptime data ($"%d/%m/%y %H" ++ fmt)
  = match out with
    | Some ([], gd) =>
        let d := fold_left (convert_group gd) (rev gd)
                           (mkdt 1900 1 1 0 0 0) in
        if valid_datetime d then Some d else None
    | _ => None
    end.
Proof.
  intros Hr data c out Hout. unfold strptime.
  destruct (pattern ($"%d/%m/%y %H" ++ fmt)) as [R|] eqn:Hp;
    simpl in Hp; rewrite Hr in Hp; [|discriminate].
  inversion Hp; subst R. clear Hp.
  unfold data at 2. rewrite stage_date_H by assumption.
  reflexivity.
Qed.

Lemma minute_run (n0 : nat) (rest : str) (c : caps) :
  run n0 true (Lit ":" ;; Grp "M" (rng "0" "5" ;; anyd <|> anyd) ;; Eps)
      (":" :: two_digits m ++ rest) c (fun rest gd => Some (rest, gd))
  = Some (rest, ("M"%string, two_digits m) :: c).
Proof.
  rewrite run_colon, stage_M; trivial. discriminate.
Qed.

Lemma minute_second_run (n0 : nat) (c : caps) :
  run n0 true
      (Lit ":" ;; Grp "M" (rng "0" "5" ;; anyd <|> anyd) ;; Lit ":" ;;
       Grp "S" (Lit "6" ;; rng "0" "1" <|> rng "0" "5" ;; anyd <|> anyd) ;;
       Eps)
      (":" :: two_digits m ++ ":" :: two_digits sec) c
      (fun rest gd => Some (rest, gd))
  = Some ([], ("S"%string, two_digits sec) :: ("M"%string, two_digits m) :: c).
Proof.
  assert (E : forall c',
    run n0 true
        (Lit ":" ;;
         Grp "S" (Lit "6" ;; rng "0" "1" <|> rng "0" "5" ;; anyd <|> anyd) ;;
         Eps)
        (":" :: two_digits sec) c' (fun rest gd => Some (rest, gd))
    = Some ([], ("S"%string, two_digits sec) :: c')).
  { intros c'. rewrite run_colon.
    rewrite <- (app_nil_r (two_digits sec)) at 1.
    rewrite stage_S; trivial. discriminate. }
  rewrite run_colon, stage_M; trivial. rewrite E. discriminate.
Qed.
End Clock.

Lemma hhmm_clean (h m : nat) :
  h < 24 -> m < 60 ->
  forallb (fun c => negb (is_space c)) (hhmm h m) = true.
Proof.
  intros Hh Hm. unfold hhmm. rewrite forallb_app.
  cbn [forallb]. rewrite !two_digits_clean by lia. reflexivity.
Qed.

Lemma fields_hm (hh mm : str) :
  let gd := [("M"%string, mm); ("H"%string, hh); ("y"%string, $"23");
             ("m"%string, $"02"); ("d"%string, $"01")] in
  fold_left (convert_group gd) (rev gd) (mkdt 1900 1 1 0 0 0)
  = mkdt 2023 2 1 (int_of hh) (int_of mm) 0.
Proof. reflexivity. Qed.

Lemma fields_hms (hh mm ss : str) :
  let gd := [("S"%string, ss); ("M"%string, mm); ("H"%string, hh);
             ("y"%string, $"23"); ("m"%string, $"02"); ("d"%string, $"01")] in
  fold_left (convert_group gd) (rev gd) (mkdt 1900 1 1 0 0 0)
  = mkdt 2023 2 1 (int_of hh) (int_of mm) (int_of ss).
Proof. reflexivity. Qed.

Lemma year_needs_four_digits (rest : str) :
  strptime ($"01/02/23 " ++ rest) $"%d/%m/%Y %H:%M" = None.
Proof. vm_compute. reflexivity. Qed.

Lemma parse_hhmm (h m : nat) :
  h < 24 -> m < 60 ->
  try_parse_dt $"01/02/23" (hhmm h m)
  = Some (mkdt 2023 2 1 (Z.of_nat h) (Z.of_nat m) 0).
Proof.
  intros Hh Hm. unfold try_parse_dt.
  rewrite normalize_clean;
    [| discriminate | unfold hhmm, two_digits; discriminate | reflexivity
     | now apply hhmm_clean].
  unfold DT_FORMATS. cbn [try_formats].
  change ($"01/02/23" ++ " " :: hhmm h m)
    with ($"01/02/23 " ++ two_digits h ++ ":" :: two_digits m ++ []).
  change ($"%d/%m/%y %H:%M") with ($"%d/%m/%y %H" ++ $":%M").
  assert (H0 := strptime_date_H h Hh $":%M" (":" :: two_digits m ++ [])
                                _ eq_refl).
  cbv zeta in H0. rewrite minute_run in H0 by exact Hm.
  rewrite H0 by discriminate.
  rewrite (fields_hm (two_digits h) (two_digits m)).
  rewrite !int_of_two_digits by lia.
  assert (V := valid_time h m 0 Hh Hm (Nat.lt_0_succ 59)).
  change (Z.of_nat 0) with 0%Z in V. now rewrite V.
Qed.

Lemma parse_hhmmss (h m sec : nat) :
  h < 24 -> m < 60 -> sec < 60 ->
  try_parse_dt $"01/02/23" (hhmmss h m sec)
  = Some (mkdt 2023 2 1 (Z.of_nat h) (Z.of_nat m) (Z.of_nat sec)).
Proof.
  intros Hh Hm Hs. unfold try_parse_dt.
  rewrite normalize_clean;
    [| discriminate | unfold hhmmss, hhmm, two_digits; discriminate
     | reflexivity
     | unfold hhmmss; rewrite forallb_app, hhmm_clean by lia;
       cbn [forallb]; rewrite two_digits_clean by lia; reflexivity].
  unfold DT_FORMATS. cbn [try_formats].
  change ($"01/02/23" ++ " " :: hhmmss h m sec)
    with ($"01/02/23 " ++ hhmmss h m sec).
  rewrite (year_needs_four_digits (hhmmss h m sec)).
  change ($"01/02/23 " ++ hhmmss h m sec)
    with ($"01/02/23 " ++ two_digits h ++ ":" :: two_digits m
                       ++ ":" :: two_digits sec).
  change ($"%d/%m/%y %H:%M") with ($"%d/%m/%y %H" ++ $":%M").
  change ($"%d/%m/%y %H:%M:%S") with ($"%d/%m/%y %H" ++ $":%M:%S").
  assert (H0 := strptime_date_H h Hh $":%M"
                  (":" :: two_digits m ++ ":" :: two_digits sec) _ eq_refl).
  cbv zeta in H0. rewrite minute_run in H0 by exact Hm.
  rewrite H0 by discriminate. clear H0.
  assert (H2 := strptime_date_H h Hh $":%M:%S"
                  (":" :: two_digits m ++ ":" :: two_digits sec) _ eq_refl).
  cbv zeta in H2. rewrite minute_second_run in H2 by assumption.
  rewrite H2 by discriminate.
  rewrite (fields_hms (two_digits h) (two_digits m) (two_digits sec)).
  rewrite !int_of_two_digits by lia.
  now rewrite (valid_time h m sec) by lia.
Qed.

(** A day-first template placed after a month-first one. *)
Lemma day_first_after_month_first :
  ~ (forall i j fi fj,
        nth_error DT_FORMATS i = Some fi -> nth_error DT_FORMATS j = Some fj ->
        day_first fi = true -> month_first fj = true -> i < j).
Proof.
  intros H.
  specialize (H 24 12 (s2l "%d.%m.%y %I:%M %p") (s2l "%m/%d/%y %H:%M")
                eq_refl eq_refl eq_refl eq_refl).
  lia.
Qed.

(** C8 (amended).  [try_parse_dt] returns what the first template of
    [DT_FORMATS] that parses the normalised string gives, and [None] when
    no template parses it; it is a total function and raises nothing.
    Every month-first template comes after the day-first template of the
    same shape (same separator, year and clock), so an input both could
    parse is read day first: the date 01/02/23 with any 24-hour time of
    the form HH:MM or HH:MM:SS is the 1st of February 2023. *)
Theorem try_parse_dt_first_template (date_str time_str : str) :
  let s := normalize_dt date_str time_str in
  (forall d, try_parse_dt date_str time_str = Some d <->
     exists i fmt,
       nth_error DT_FORMATS i = Some fmt /\ strptime s fmt = Some d
       /\ forall j fmt', j < i -> nth_error DT_FORMATS j = Some fmt' ->
                         strptime s fmt' = None)
  /\ (try_parse_dt date_str time_str = None <->
      forall fmt, In fmt DT_FORMATS -> strptime s fmt = None)
  /\ (forall j fmt,
        nth_error DT_FORMATS j = Some fmt -> month_first fmt = true ->
        exists i, i < j /\ nth_error DT_FORMATS i = Some (swap_day_month fmt)
                  /\ day_first (swap_day_month fmt) = true)
  /\ (forall h m, h < 24 -> m < 60 ->
        try_parse_dt (s2l "01/02/23") (hhmm h m)
        = Some (mkdt 2023 2 1 (Z.of_nat h) (Z.of_nat m) 0))
  /\ (forall h m sec, h < 24 -> m < 60 -> sec < 60 ->
        try_parse_dt (s2l "01/02/23") (hhmmss h m sec)
        = Some (mkdt 2023 2 1 (Z.of_nat h) (Z.of_nat m) (Z.of_nat sec))).
Proof.
  cbv zeta. split; [|split; [|split; [|split]]].
  - intros d. apply try_formats_first.
  - apply try_formats_none.
  - intros j fmt Hj Hm.
    assert (Hlen : j < length DT_FORMATS)
      by (apply nth_error_Some; congruence).
    change (length DT_FORMATS) with 28 in Hlen.
    assert (Hall :
      forallb (fun j =>
        match nth_error DT_FORMATS j with
        | Some fmt =>
            negb (month_first fmt)
            || existsb (fun i =>
                 match nth_error DT_FORMATS i with
                 | Some f => str_eqb f (swap_day_month fmt) && day_first f
                 | None => false
                 end) (seq 0 j)
        | None => true
        end) (seq 0 28) = true) by (vm_compute; reflexivity).
    assert (H := below_all 28 _ Hall j Hlen). cbv beta in H.
    rewrite Hj, Hm in H. simpl in H.
    apply existsb_exists in H. destruct H as (i & Hi & H).
    apply in_seq in Hi. destruct (nth_error DT_FORMATS i) as [f|] eqn:Ef;
      [|discriminate].
    apply andb_prop in H. destruct H as [H1 H2].
    apply str_eqb_eq in H1. subst f.
    exists i. repeat split; trivial. lia.
  - intros h m Hh Hm. now apply parse_hhmm.
  - intros h m sec Hh Hm Hs. now apply parse_hhmmss.
Qed.

Lemma try_parse_dt_first_template_witness :
  14 < 24 /\ 5 < 60
  /\ try_parse_dt (s2l "01/02/23") (hhmm 14 5)
     = Some (mkdt 2023 2 1 14 5 0).
Proof.
  assert (Hh : 14 < 24) by lia. assert (Hm : 5 < 60) by lia.
  split; [exact Hh|]. split; [exact Hm|].
  apply (proj1 (proj2 (proj2 (proj2
           (try_parse_dt_first_template (s2l "01/02/23") (hhmm 14 5)))))
           14 5 Hh Hm).
Defined.

(** ** The bracketed time stamp *)

Lemma digit_facts (d : ascii) :
  is_digit d = true ->
  is_space d = false /\ is_datesep d = false
  /\ Ascii.eqb ":" d = false /\ Ascii.eqb "," d = false.
Proof.
  destruct d as [b0 b1 b2 b3 b4 b5 b6 b7].
  destruct b0, b1, b2, b3, b4, b5, b6, b7; vm_compute; intros H;
    try discriminate; repeat split.
Qed.

Ltac digit_hyps :=
  repeat match goal with
         | H : is_digit ?d = true |- _ =>
             let H1 := fresh in let H2 := fresh in
             let H3 := fresh in let H4 := fresh in
             destruct (digit_facts d H) as (H1 & H2 & H3 & H4);
             revert H
         end; intros.

Lemma option_id (A : Type) (x : option A) :
  match x with Some a => Some a | None => None end = x.
Proof. now destruct x. Qed.

Section BoundedRep.
Variable A : Type.
Variable p : ascii -> bool.
Variable k : str -> option A.

Ltac rep_cases :=
  repeat match goal with
         | |- context [match k ?x with _ => _ end] => destruct (k x)
         end; reflexivity.

Lemma rep_1_2 (a b : ascii) (s : str) :
  p a = true -> p b = true ->
  rep p 1 (Some 2) (a :: b :: s) k
  = match k s with Some x => Some x | None => k (b :: s) end.
Proof. intros Ha Hb. destruct s; simpl; rewrite Ha, Hb; rep_cases. Qed.

Lemma rep_2_2 (a b : ascii) (s : str) :
  p a = true -> p b = true -> rep p 2 (Some 2) (a :: b :: s) k = k s.
Proof. intros Ha Hb. destruct s; simpl; rewrite Ha, Hb; rep_cases. Qed.

Lemma rep_2_4 (a b c d : ascii) (s : str) :
  p a = true -> p b = true -> p c = true -> p d = true ->
  rep p 2 (Some 4) (a :: b :: c :: d :: s) k
  = match k s with
    | Some x => Some x
    | None => match k (d :: s) with
              | Some x => Some x
              | None => k (c :: d :: s)
              end
    end.
Proof.
  intros Ha Hb Hc Hd. destruct s; simpl; rewrite Ha, Hb, Hc, Hd; rep_cases.
Qed.

Lemma rep_1_one (a b : ascii) (s : str) :
  p a = true -> p b = false -> rep p 1 None (a :: b :: s) k = k (b :: s).
Proof. intros Ha Hb. simpl. rewrite Ha, Hb. rep_cases. Qed.

Lemma rep_0_stop (b : ascii) (s : str) :
  p b = false -> rep p 0 None (b :: s) k = k (b :: s).
Proof. intros Hb. simpl. now rewrite Hb. Qed.

Lemma rep_1_stop (hi : option nat) (b : ascii) (s : str) :
  p b = false -> rep p 1 hi (b :: s) k = None.
Proof. intros Hb. simpl. rewrite Hb. now destruct hi as [[|]|]. Qed.
End BoundedRep.

Ltac concrete_tests :=
  repeat match goal with
    | |- context [Ascii.eqb (Ascii ?a0 ?a1 ?a2 ?a3 ?a4 ?a5 ?a6 ?a7)
                            (Ascii ?b0 ?b1 ?b2 ?b3 ?b4 ?b5 ?b6 ?b7)] =>
        let t := constr:(Ascii.eqb (Ascii a0 a1 a2 a3 a4 a5 a6 a7)
                                   (Ascii b0 b1 b2 b3 b4 b5 b6 b7)) in
        let v := eval vm_compute in t in change t with v
    | |- context [is_digit (Ascii ?a0 ?a1 ?a2 ?a3 ?a4 ?a5 ?a6 ?a7)] =>
        let t := constr:(is_digit (Ascii a0 a1 a2 a3 a4 a5 a6 a7)) in
        let v := eval vm_compute in t in change t with v
    | |- context [is_space (Ascii ?a0 ?a1 ?a2 ?a3 ?a4 ?a5 ?a6 ?a7)] =>
        let t := constr:(is_space (Ascii a0 a1 a2 a3 a4 a5 a6 a7)) in
        let v := eval vm_compute in t in change t with v
    | |- context [is_datesep (Ascii ?a0 ?a1 ?a2 ?a3 ?a4 ?a5 ?a6 ?a7)] =>
        let t := constr:(is_datesep (Ascii a0 a1 a2 a3 a4 a5 a6 a7)) in
        let v := eval vm_compute in t in change t with v
    end.

Ltac symbolic_tests :=
  repeat match goal with
    | H : ?t = true |- context [?t] => rewrite H
    | H : ?t = false |- context [?t] => rewrite H
    end.

Ltac tests :=
  repeat (progress (cbn [run lit_eqb]; symbolic_tests; concrete_tests;
                    cbv beta iota)).

Section BracketHead.
Variable A : Type.
Variable n0 : nat.

Lemma date_re_run (d1 d2 m1 m2 y1 y2 y3 y4 : ascii) (s : str) (c : caps)
      (k : str -> caps -> option A) :
  is_digit d1 = true -> is_digit d2 = true -> is_digit m1 = true ->
  is_digit m2 = true -> is_digit y1 = true -> is_digit y2 = true ->
  is_digit y3 = true -> is_digit y4 = true ->
  run n0 false date_re
      (d1 :: d2 :: "." :: m1 :: m2 :: "." :: y1 :: y2 :: y3 :: y4 :: s) c k
  = match k s c with
    | Some x => Some x
    | None => match k (y4 :: s) c with
              | Some x => Some x
              | None => k (y3 :: y4 :: s) c
              end
    end.
Proof.
  intros. digit_hyps. unfold date_re, digits. cbn [run].
  rewrite rep_1_2 by assumption. tests.
  rewrite rep_1_2 by assumption. tests.
  rewrite rep_2_4 by assumption. tests.
  rewrite !option_id. reflexivity.
Qed.

Lemma time_re_run (h1 h2 n1 n2 s1 s2 : ascii) (rest : str) (c : caps)
      (k : str -> caps -> option A) :
  is_digit h1 = true -> is_digit h2 = true -> is_digit n1 = true ->
  is_digit n2 = true -> is_digit s1 = true -> is_digit s2 = true ->
  run n0 false time_re
      (h1 :: h2 :: ":" :: n1 :: n2 :: ":" :: s1 :: s2 :: "]" :: rest) c k
  = match k ("]" :: rest) c with
    | Some x => Some x
    | None => k (":" :: s1 :: s2 :: "]" :: rest) c
    end.
Proof.
  intros. digit_hyps. unfold time_re, digits, spaces0, word.
  cbn [run fold_right s2l list_ascii_of_string].
  rewrite rep_1_2 by assumption. tests.
  rewrite rep_2_2 by assumption. tests.
  rewrite rep_2_2 by assumption. tests.
  rewrite !rep_0_stop by reflexivity. tests.
  rewrite !option_id. reflexivity.
Qed.

Lemma run_Seq (ic : bool) (r1 r2 : regex) (s : str) (c : caps)
      (k : str -> caps -> option A) :
  run n0 ic (r1 ;; r2) s c k
  = run n0 ic r1 s c (fun s' c' => run n0 ic r2 s' c' k).
Proof. reflexivity. Qed.

Lemma run_Grp (ic : bool) (name : string) (r : regex) (s : str) (c : caps)
      (k : str -> caps -> option A) :
  run n0 ic (Grp name r) s c k
  = run n0 ic r s c
        (fun s' c' => k s' ((name, firstn (length s - length s') s) :: c')).
Proof. reflexivity. Qed.

(** [^\[] at the start of the subject. *)
Lemma open_bracket_run (r : regex) (s : str) (c : caps)
      (k : str -> caps -> option A) :
  n0 = length ("[" :: s) ->
  run n0 false (Bos ;; Lit "[" ;; r) ("[" :: s) c k = run n0 false r s c k.
Proof.
  intros Hn. cbn [run lit_eqb]. rewrite <- Hn, Nat.eqb_refl. reflexivity.
Qed.

(** [(?:,\s+|\s+)] on a comma, a space and something else. *)
Lemma comma_space_run (r : regex) (h : ascii) (s : str) (c : caps)
      (k : str -> caps -> option A) :
  is_space h = false ->
  run n0 false ((Lit "," ;; spaces1 <|> spaces1) ;; r)
      ("," :: " " :: h :: s) c k
  = run n0 false r (h :: s) c k.
Proof.
  intros Hh. unfold spaces1. cbn [run lit_eqb]. concrete_tests. cbv iota.
  rewrite rep_1_one by (reflexivity || assumption).
  rewrite (rep_1_stop _ _ _ None ",") by reflexivity.
  apply option_id.
Qed.

Lemma comma_space_fail (r : regex) (y : ascii) (s : str) (c : caps)
      (k : str -> caps -> option A) :
  is_space y = false -> Ascii.eqb "," y = false ->
  run n0 false ((Lit "," ;; spaces1 <|> spaces1) ;; r) (y :: s) c k = None.
Proof.
  intros Hs Hc. unfold spaces1. cbn [run lit_eqb]. rewrite Hc.
  now rewrite (rep_1_stop _ _ _ None y).
Qed.

Lemma close_bracket_run (rest : str) (c : caps)
      (k : str -> caps -> option A) :
  run n0 false (Lit "]") ("]" :: rest) c k = k rest c.
Proof. reflexivity. Qed.

Lemma close_bracket_fail (s : str) (c : caps)
      (k : str -> caps -> option A) :
  run n0 false (Lit "]") (":" :: s) c k = None.
Proof. reflexivity. Qed.

Lemma bracket_head_run (date time rest : str) (c : caps)
      (k : str -> caps -> option A) :
  is_ddmmyyyy date = true -> is_hhmmss time = true ->
  n0 = length (bracket date time ++ rest) ->
  run n0 false bracket_head (bracket date time ++ rest) c k
  = k rest (("time"%string, time) :: ("date"%string, date) :: c).
Proof.
  intros Hd Ht Hn.
  destruct date as [|d1 [|d2 [|p1 [|m1 [|m2 [|p2 [|y1 [|y2 [|y3 [|y4 [|? ?]]]]]]]]]]];
    try discriminate Hd.
  destruct time as [|h1 [|h2 [|q1 [|n1 [|n2 [|q2 [|s1 [|s2 [|? ?]]]]]]]]];
    try discriminate Ht.
  unfold is_ddmmyyyy in Hd. unfold is_hhmmss in Ht.
  do 9 (apply andb_prop in Hd; destruct Hd as [Hd ?]).
  do 7 (apply andb_prop in Ht; destruct Ht as [Ht ?]).
  repeat match goal with
         | H : Ascii.eqb ?x _ = true |- _ => apply Ascii.eqb_eq in H; subst x
         end.
  destruct (digit_facts y3) as (Hy3s & _ & _ & Hy3c); trivial.
  destruct (digit_facts y4) as (Hy4s & _ & _ & Hy4c); trivial.
  destruct (digit_facts h1) as (Hh1s & _ & _ & _); trivial.
  unfold bracket in *. cbn [app] in *. unfold bracket_head.
  rewrite open_bracket_run by exact Hn.
  rewrite run_Seq, run_Grp, date_re_run by assumption. cbv beta.
  rewrite comma_space_run by assumption.
  rewrite !comma_space_fail by assumption.
  rewrite run_Seq, run_Grp, time_re_run by assumption. cbv beta.
  rewrite close_bracket_run, close_bracket_fail, !option_id.
  f_equal. f_equal; [f_equal|f_equal; f_equal].
  - apply (firstn_app_exact [h1; h2; ":"; n1; n2; ":"; s1; s2] ("]" :: rest)).
  - apply (firstn_app_exact [d1; d2; "."; m1; m2; "."; y1; y2; y3; y4]
             ("," :: " " :: h1 :: h2 :: ":" :: n1 :: n2 :: ":" :: s1 :: s2
                  :: "]" :: rest)).
Qed.
End BracketHead.

(** ** Lines of a transcript *)

Lemma splitlines_from_line (cur s : str) :
  is_line s = true ->
  splitlines_from cur s
  = match rev cur ++ s with [] => [] | l => [l] end.
Proof.
  revert cur. induction s as [|x s IH]; intros cur Hs; simpl.
  - rewrite app_nil_r. destruct cur as [|y cur]; trivial.
    simpl. destruct (rev cur ++ [y]) eqn:E; trivial.
    now destruct (rev cur).
  - simpl in Hs. apply andb_prop in Hs. destruct Hs as [Hx Hs].
    unfold no_break in Hx. apply negb_true_iff in Hx. rewrite Hx.
    rewrite IH by exact Hs. simpl. now rewrite <- app_assoc.
Qed.

Lemma splitlines_from_break (cur a b : str) :
  is_line a = true ->
  splitlines_from cur (a ++ LF :: b) = (rev cur ++ a) :: splitlines_from [] b.
Proof.
  revert cur. induction a as [|x a IH]; intros cur Ha; simpl.
  - rewrite app_nil_r. change (is_linebreak LF) with true. cbv iota.
    destruct b as [|d b]; trivial.
  - simpl in Ha. apply andb_prop in Ha. destruct Ha as [Hx Ha].
    unfold no_break in Hx. apply negb_true_iff in Hx. rewrite Hx.
    rewrite IH by exact Ha. simpl. now rewrite <- app_assoc.
Qed.

Lemma splitlines_one (s : str) :
  is_line s = true -> s <> [] -> splitlines s = [s].
Proof.
  intros Hs Hne. unfold splitlines. rewrite splitlines_from_line by exact Hs.
  simpl. now destruct s.
Qed.

Lemma splitlines_two (a b : str) :
  is_line a = true -> is_line b = true -> b <> [] ->
  splitlines (a ++ LF :: b) = [a; b].
Proof.
  intros Ha Hb Hne. unfold splitlines.
  rewrite splitlines_from_break by exact Ha. simpl.
  f_equal. now apply splitlines_one.
Qed.

Lemma is_line_dot (s : str) : is_line s = true -> forallb dot s = true.
Proof.
  unfold is_line. rewrite !forallb_forall. intros H x Hx.
  specialize (H x Hx). unfold no_break, dot in *.
  destruct (Ascii.eqb x LF) eqn:E; trivial.
  apply Ascii.eqb_eq in E. subst x. discriminate.
Qed.

Lemma digit_no_break (d : ascii) : is_digit d = true -> no_break d = true.
Proof.
  destruct d as [b0 b1 b2 b3 b4 b5 b6 b7].
  destruct b0, b1, b2, b3, b4, b5, b6, b7; vm_compute; intros H;
    try discriminate; reflexivity.
Qed.

Lemma bracket_is_line (date time : str) :
  is_ddmmyyyy date = true -> is_hhmmss time = true ->
  is_line (bracket date time) = true.
Proof.
  intros Hd Ht.
  destruct date as [|d1 [|d2 [|p1 [|m1 [|m2 [|p2 [|y1 [|y2 [|y3 [|y4 [|? ?]]]]]]]]]]];
    try discriminate Hd.
  destruct time as [|h1 [|h2 [|q1 [|n1 [|n2 [|q2 [|s1 [|s2 [|? ?]]]]]]]]];
    try discriminate Ht.
  unfold is_ddmmyyyy in Hd. unfold is_hhmmss in Ht.
  do 9 (apply andb_prop in Hd; destruct Hd as [Hd ?]).
  do 7 (apply andb_prop in Ht; destruct Ht as [Ht ?]).
  repeat match goal with
         | H : Ascii.eqb ?x _ = true |- _ => apply Ascii.eqb_eq in H; subst x
         end.
  repeat match goal with
         | H : is_digit _ = true |- _ => apply digit_no_break in H
         end.
  unfold bracket, is_line. cbn [app forallb].
  repeat match goal with H : no_break _ = true |- _ => rewrite H; clear H end.
  reflexivity.
Qed.

(** ** The bracketed patterns on the two forms *)

Section Bracketed.
Variables date time : str.
Hypothesis Hdate : is_ddmmyyyy date = true.
Hypothesis Htime : is_hhmmss time = true.

(** The time stamp alone on its line. *)
Lemma bracket_ts_only_alone :
  re_match BRACKET_TS_ONLY (bracket date time)
  = Some [("time"%string, time); ("date"%string, date)].
Proof.
  unfold re_match, BRACKET_TS_ONLY. rewrite run_Seq.
  rewrite <- (app_nil_r (bracket date time)) at 2.
  rewrite bracket_head_run; trivial. now rewrite app_nil_r.
Qed.

(** White space up to the end of the line, on a line that has more. *)
Lemma spaces_eos_fail (A : Type) (n0 : nat) (s : str) (c : caps)
      (k : str -> caps -> option A) :
  forallb is_space s = false ->
  run n0 false (spaces0 ;; Eos) s c k = None.
Proof.
  intros Hs. unfold spaces0. cbn [run].
  destruct (take_drop_while is_space s) as (E & Hw & Hst).
  destruct (drop_while is_space s) as [|x y] eqn:Ed.
  - rewrite app_nil_r in E. rewrite E in Hs. congruence.
  - rewrite E. apply rep_none; trivial.
    intros u v _ _. simpl in Hst.
    destruct v as [|z v]; simpl.
    + destruct y; trivial.
      destruct (Ascii.eqb x LF) eqn:Ex; trivial.
      apply Ascii.eqb_eq in Ex. subst x. discriminate.
    + now destruct (v ++ x :: y) eqn:Ev; [destruct v|].
Qed.

(** The single-line form is not a time stamp alone. *)
Lemma bracket_ts_only_single (rest : str) :
  forallb is_space rest = false ->
  re_match BRACKET_TS_ONLY (bracket date time ++ rest) = None.
Proof.
  intros Hr. unfold re_match, BRACKET_TS_ONLY. rewrite run_Seq.
  rewrite bracket_head_run; trivial. now apply spaces_eos_fail.
Qed.

(** Neither form starts like an Android line. *)
Lemma android_head_bracket (A : Type) (n0 : nat) (r : regex) (s : str)
      (c : caps) (k : str -> caps -> option A) :
  run n0 false (android_head ;; r) ("[" :: s) c k = None.
Proof.
  unfold android_head, date_re, digits. cbn [run].
  rewrite (rep_1_stop _ _ _ (Some 2) "[") by reflexivity.
  destruct (Nat.eqb _ _); reflexivity.
Qed.
End Bracketed.

(** ** White space around the sender *)

Lemma lstrip_idem (s : str) : lstrip (lstrip s) = lstrip s.
Proof.
  induction s as [|c s IH]; simpl; trivial.
  destruct (is_space c) eqn:E; trivial. simpl. now rewrite E.
Qed.

Lemma lstrip_app_spaces (ws s : str) :
  forallb is_space ws = true -> lstrip (ws ++ s) = lstrip s.
Proof.
  induction ws as [|c ws IH]; simpl; trivial.
  intros H. apply andb_prop in H. destruct H as [-> H]. now apply IH.
Qed.

Lemma lstrip_spaces (s : str) : forallb is_space s = true -> lstrip s = [].
Proof.
  intros H. rewrite <- (app_nil_r s). now rewrite lstrip_app_spaces.
Qed.

Lemma strip_spaces (s : str) : forallb is_space s = true -> strip s = [].
Proof. intros H. unfold strip. now rewrite lstrip_spaces. Qed.

Lemma strip_lstrip (s : str) : strip (lstrip s) = strip s.
Proof. unfold strip. now rewrite lstrip_idem. Qed.

Lemma strip_after_spaces (s : str) : s <> [] -> strip (after_spaces s) = strip s.
Proof.
  intros Hne. unfold after_spaces.
  destruct (lstrip s) as [|c s'] eqn:E.
  - assert (Hs : forallb is_space s = true).
    { destruct (take_drop_while is_space s) as (E1 & Hw & _).
      rewrite <- lstrip_drop_while, E, app_nil_r in E1. now rewrite E1. }
    rewrite (strip_spaces s Hs). apply strip_spaces. simpl.
    rewrite andb_true_r. rewrite forallb_forall in Hs. apply Hs.
    destruct (exists_last Hne) as (s0 & x & ->).
    rewrite last_last. apply in_or_app. right. now left.
  - rewrite <- E. apply strip_lstrip.
Qed.

Section SpacesSender.
Variable n0 : nat.

Lemma spaces_sender_text_run (s t : str) (c : caps) :
  s <> [] -> forallb not_colon s = true -> forallb dot t = true ->
  run n0 false (spaces1 ;; sender_text) (" " :: s ++ ":" :: t) c
      (fun _ c' => Some c')
  = Some (("text"%string, lstrip t) :: ("sender"%string, after_spaces s) :: c).
Proof.
  intros Hne Hnc Ht. rewrite run_Seq. unfold spaces1 at 1. cbn [run].
  unfold after_spaces.
  destruct (take_drop_while is_space s) as (E & Hw & Hst).
  rewrite <- lstrip_drop_while in *.
  destruct (lstrip s) as [|x s'] eqn:El.
  - (* the sender is white space only: its last character is given back *)
    destruct (exists_last Hne) as (s0 & z & Es).
    assert (Hs : forallb is_space s = true)
      by (rewrite app_nil_r in E; now rewrite E).
    rewrite Es, last_last.
    rewrite Es, forallb_app in Hs, Hnc.
    apply andb_prop in Hs. destruct Hs as [Hs0 Hz].
    apply andb_prop in Hnc. destruct Hnc as [_ Hzc].
    simpl in Hz, Hzc. rewrite andb_true_r in Hz, Hzc.
    replace (" " :: (s0 ++ [z]) ++ ":" :: t)
      with ((" " :: s0) ++ [z] ++ ":" :: t)
      by (simpl; now rewrite <- app_assoc).
    assert (Hz1 : run n0 false sender_text ([z] ++ ":" :: t) c
                      (fun _ c' => Some c')
                  = Some (("text"%string, lstrip t)
                            :: ("sender"%string, [z]) :: c)).
    { apply sender_text_run; simpl; try rewrite Hzc; trivial; discriminate. }
    rewrite rep_first; trivial.
    + simpl. rewrite forallb_app, Hs0. simpl. now rewrite Hz.
    + reflexivity.
    + simpl. lia.
    + intros u v Euv Hu. destruct u as [|a u]; [congruence|].
      destruct u; [|destruct u; discriminate]. destruct v; [|discriminate].
      apply sender_text_fail. right. now exists t.
    + right. rewrite Hz1. discriminate.
  - (* the sender starts after the white space *)
    assert (Hnc' : forallb not_colon (x :: s') = true).
    { rewrite E, forallb_app in Hnc. apply andb_prop in Hnc. tauto. }
    assert (Hx : run n0 false sender_text ((x :: s') ++ ":" :: t) c
                     (fun _ c' => Some c')
                 = Some (("text"%string, lstrip t)
                           :: ("sender"%string, x :: s') :: c)).
    { apply sender_text_run; trivial; discriminate. }
    replace (" " :: s ++ ":" :: t)
      with ((" " :: take_while is_space s) ++ ((x :: s') ++ ":" :: t))
      by (rewrite E at 2; simpl; now rewrite <- app_assoc).
    rewrite rep_longest; trivial.
    + simpl. lia.
    + rewrite Hx. discriminate.
Qed.

Lemma spaces_sender_text_fail (A : Type) (t : str) (c : caps)
      (k : str -> caps -> option A) :
  run n0 false (spaces1 ;; sender_text) (" " :: ":" :: t) c k = None.
Proof.
  rewrite run_Seq. unfold spaces1 at 1. cbn [run].
  rewrite rep_1_one by reflexivity.
  apply sender_text_fail. right. now exists t.
Qed.
End SpacesSender.

(** ** The two forms of a header *)

Lemma colon_split (name x : str) :
  exists s t, name ++ ":" :: x = s ++ ":" :: t /\ forallb not_colon s = true.
Proof.
  destruct (take_drop_while not_colon (name ++ ":" :: x)) as (E & Hw & Hst).
  destruct (drop_while not_colon (name ++ ":" :: x)) as [|y t].
  - rewrite app_nil_r in E. rewrite <- E, forallb_app in Hw.
    apply andb_prop in Hw. destruct Hw as [_ Hw]. discriminate.
  - simpl in Hst. apply not_colon_false in Hst. subst y.
    now exists (take_while not_colon (name ++ ":" :: x)), t.
Qed.

Lemma with_colon_not_spaces (s t : str) :
  forallb is_space (" " :: s ++ ":" :: t) = false.
Proof.
  simpl. rewrite forallb_app. simpl.
  now destruct (forallb is_space s).
Qed.

Section TwoForms.
Variables date time : str.
Hypothesis Hdate : is_ddmmyyyy date = true.
Hypothesis Htime : is_hhmmss time = true.

Lemma bracket_cons : exists b, bracket date time = "[" :: b.
Proof. unfold bracket. eexists. reflexivity. Qed.

Lemma android_on_bracket (r : regex) (rest : str) :
  re_match (android_head ;; r) (bracket date time ++ rest) = None.
Proof.
  unfold re_match. destruct bracket_cons as [b ->]. cbn [app].
  apply android_head_bracket.
Qed.

Lemma patterns_single_authored (s t : str) :
  s <> [] -> forallb not_colon s = true -> forallb dot t = true ->
  first_match PATTERNS (bracket date time ++ " " :: s ++ ":" :: t)
  = Some [("text"%string, lstrip t); ("sender"%string, after_spaces s);
          ("time"%string, time); ("date"%string, date)].
Proof.
  intros Hne Hnc Ht. unfold PATTERNS, first_match.
  rewrite android_on_bracket. unfold re_match.
  rewrite run_Seq, bracket_head_run by trivial.
  now rewrite spaces_sender_text_run.
Qed.

Lemma patterns_single_none (t : str) :
  first_match PATTERNS (bracket date time ++ " " :: ":" :: t) = None.
Proof.
  unfold PATTERNS, first_match.
  rewrite android_on_bracket. unfold re_match.
  rewrite run_Seq, bracket_head_run by trivial.
  now rewrite spaces_sender_text_fail.
Qed.

(** The step of the parser on the single-line form. *)
Lemma step_single_authored (s t : str) :
  s <> [] -> forallb not_colon s = true ->
  is_line (s ++ ":" :: t) = true ->
  step init_state (bracket date time ++ " " :: s ++ ":" :: t)
  = mkState [] (Some (mkMessage (try_parse_dt date time) (Some (strip s))
                                (lstrip t) false)) None.
Proof.
  intros Hne Hnc Hl.
  assert (Hline : is_line (bracket date time ++ " " :: s ++ ":" :: t) = true).
  { assert (Hb := bracket_is_line date time Hdate Htime).
    unfold is_line in *. rewrite forallb_app, Hb. simpl. exact Hl. }
  assert (Ht : forallb dot t = true).
  { apply is_line_dot in Hl. rewrite forallb_app in Hl.
    apply andb_prop in Hl. destruct Hl as [_ Hl]. exact Hl. }
  unfold step. cbn [pending_ts init_state].
  rewrite rstrip_lf_line by now apply is_line_dot.
  rewrite bracket_ts_only_single; trivial using with_colon_not_spaces.
  rewrite patterns_single_authored; trivial.
  cbn [get group String.eqb Ascii.eqb Bool.eqb flush current messages
       init_state app].
  f_equal. f_equal. f_equal.
  unfold strip_sender.
  assert (Hs := strip_after_spaces s Hne).
  destruct (after_spaces s) as [|a l] eqn:Ea.
  - unfold after_spaces in Ea. destruct (lstrip s); discriminate.
  - now rewrite Hs.
Qed.

(** The two steps of the parser on the two-line form. *)
Lemma step_two_authored (s t : str) (t0 : datetime) :
  s <> [] -> forallb not_colon s = true ->
  is_line (s ++ ":" :: t) = true ->
  try_parse_dt date time = Some t0 ->
  step (step init_state (bracket date time)) (s ++ ":" :: t)
  = mkState [] (Some (mkMessage (Some t0) (Some (strip s)) (lstrip t) false))
            None.
Proof.
  intros Hne Hnc Hl Hts.
  assert (H1 : step init_state (bracket date time)
               = mkState [] None (Some t0)).
  { unfold step. cbn [pending_ts init_state].
    rewrite rstrip_lf_line
      by (apply is_line_dot; now apply bracket_is_line).
    rewrite bracket_ts_only_alone; trivial.
    cbn [get group String.eqb Ascii.eqb Bool.eqb]. now rewrite Hts. }
  rewrite H1.
  rewrite (step_pending (mkState [] None (Some t0)) t0 (s ++ ":" :: t)
             eq_refl (is_line_dot _ Hl)).
  rewrite (bind_pending_authored t0 s t Hne Hnc). reflexivity.
Qed.
End TwoForms.

Lemma step_not_authored (line : str) (m : Message) :
  re_match BRACKET_TS_ONLY (rstrip_lf line) = None ->
  first_match PATTERNS (rstrip_lf line) = None ->
  In m (flush (step init_state line)) -> is_system m = true.
Proof.
  intros Hb Hp. unfold step. cbn [pending_ts init_state]. rewrite Hb, Hp.
  destruct (first_match SYSTEM_PATTERNS _); simpl; [|tauto].
  now intros [<-|[]].
Qed.

(** C1.  When the single-line form [[dd.mm.yyyy, HH:MM:SS] Name: text]
    parses into an authored message, the two-line form, with the line
    break after the bracketed time stamp, parses into the same message:
    same time stamp, same sender, same text, not a system notice. *)
Theorem two_line_header_roundtrip
        (date time name text : str) (m : Message) :
  is_ddmmyyyy date = true -> is_hhmmss time = true ->
  is_line name = true -> is_line text = true ->
  parse_chat_text (single_line date time name text) = [m] ->
  is_system m = false ->
  parse_chat_text (two_line date time name text) = [m].
Proof.
  intros Hd Ht Hname Htext Hsingle Hsys.
  assert (Hb := bracket_is_line date time Hd Ht).
  assert (Hr : is_line (name ++ ":" :: " " :: text) = true).
  { unfold is_line in *. rewrite forallb_app, Hname. simpl. exact Htext. }
  destruct (colon_split name (" " :: text)) as (s & t & E & Hnc).
  unfold single_line, two_line, parse_chat_text, parse_lines in *.
  rewrite E in *.
  rewrite splitlines_one in Hsingle.
  2:{ unfold is_line in *. rewrite forallb_app, Hb. simpl. exact Hr. }
  2:{ unfold bracket. discriminate. }
  rewrite splitlines_two; trivial.
  2:{ now destruct s. }
  cbn [fold_left] in *.
  destruct s as [|a s].
  - exfalso. assert (Hin : In m [m]) by now left.
    rewrite <- Hsingle in Hin. apply filter_In in Hin. destruct Hin as [Hin _].
    assert (Hline : forallb dot (bracket date time ++ " " :: [] ++ ":" :: t)
                    = true).
    { apply is_line_dot. unfold is_line in *.
      rewrite forallb_app, Hb. simpl. exact Hr. }
    assert (Hs : is_system m = true); [|congruence].
    apply (step_not_authored _ m) in Hin; trivial;
      rewrite (rstrip_lf_line _ Hline).
    + apply bracket_ts_only_single; trivial.
    + apply patterns_single_none; trivial.
  - rewrite step_single_authored in Hsingle; trivial; [|discriminate].
    destruct (try_parse_dt date time) as [t0|] eqn:Ets; [|discriminate].
    rewrite (step_two_authored date time Hd Ht (a :: s) t t0);
      trivial; discriminate.
Qed.

Lemma two_line_header_roundtrip_witness :
  let m := mkMessage (Some (mkdt 2020 4 15 16 20 56)) (Some (s2l "Name"))
                     (s2l "text") false in
  is_ddmmyyyy (s2l "15.04.2020") = true
  /\ is_hhmmss (s2l "16:20:56") = true
  /\ is_line (s2l "Name") = true /\ is_line (s2l "text") = true
  /\ parse_chat_text
       (single_line (s2l "15.04.2020") (s2l "16:20:56") (s2l "Name")
                    (s2l "text")) = [m]
  /\ is_system m = false
  /\ parse_chat_text
       (two_line (s2l "15.04.2020") (s2l "16:20:56") (s2l "Name")
                 (s2l "text")) = [m].
Proof.
  intros m.
  assert (H : parse_chat_text
                (single_line (s2l "15.04.2020") (s2l "16:20:56") (s2l "Name")
                             (s2l "text")) = [m])
    by (vm_compute; reflexivity).
  do 4 (split; [reflexivity|]). split; [exact H|]. split; [reflexivity|].
  apply (two_line_header_roundtrip (s2l "15.04.2020") (s2l "16:20:56")
           (s2l "Name") (s2l "text") m); trivial; reflexivity.
Defined.

(* ================================================================== *)
(** * The engine leaves its input alone                                *)
(* ================================================================== *)

(** ** The store *)

Lemma length_update (l : nat) (o : obj) (h : heap) :
  length (update l o h) = length h.
Proof.
  revert l. induction h as [|x h IH]; intros [|l]; simpl; auto.
Qed.

Lemma nth_error_update_eq (l : nat) (o : obj) (h : heap) :
  l < length h -> nth_error (update l o h) l = Some o.
Proof.
  revert l. induction h as [|x h IH]; intros [|l] Hl; simpl in *;
    try lia; trivial.
  apply IH. lia.
Qed.

Lemma nth_error_update_neq (l l' : nat) (o : obj) (h : heap) :
  l <> l' -> nth_error (update l o h) l' = nth_error h l'.
Proof.
  revert l l'. induction h as [|x h IH]; intros [|l] [|l'] Hne; simpl;
    trivial; try congruence.
  apply IH. congruence.
Qed.

Lemma nth_error_old (h ext : heap) (l : nat) (o : obj) :
  nth_error h l = Some o -> nth_error (h ++ ext) l = Some o.
Proof.
  intros H. rewrite nth_error_app1; trivial.
  apply nth_error_Some. congruence.
Qed.

Lemma nth_error_new (h : heap) (o : obj) :
  nth_error (h ++ [o]) (length h) = Some o.
Proof. rewrite nth_error_app2, Nat.sub_diag; trivial. Qed.

(** ** Frame: only new objects are written *)

Section Safe.
Variable n : nat.

Lemma safe_ret (A : Type) (a : A) (P : A -> Prop) : P a -> safe n (ret a) P.
Proof. intros Hp h a' h' Hn E. inversion E; subst. auto. Qed.

Lemma safe_raise (A : Type) (P : A -> Prop) : safe n (@raise A) P.
Proof. intros h a h' _ E. discriminate. Qed.

Lemma safe_bind (A B : Type) (c : M A) (k : A -> M B)
      (P : A -> Prop) (Q : B -> Prop) :
  safe n c P -> (forall a, P a -> safe n (k a) Q) -> safe n (bind c k) Q.
Proof.
  intros Hc Hk h b h' Hn E. unfold bind in E.
  destruct (c h) as [[a h1]|] eqn:Ec; [|discriminate].
  destruct (Hc h a h1 Hn Ec) as (Hn1 & Hold1 & Hp).
  destruct (Hk a Hp h1 b h' Hn1 E) as (Hn2 & Hold2 & Hq).
  repeat split; trivial.
  intros l Hl. now rewrite Hold2, Hold1.
Qed.

Lemma safe_weaken (A : Type) (c : M A) (P Q : A -> Prop) :
  safe n c P -> (forall a, P a -> Q a) -> safe n c Q.
Proof.
  intros Hc Hpq h a h' Hn E.
  destruct (Hc h a h' Hn E) as (H1 & H2 & H3). auto.
Qed.

Lemma safe_load (l : nat) : safe n (load l) any.
Proof.
  intros h a h' Hn E. unfold load in E.
  destruct (nth_error h l); inversion E; subst. unfold any. auto.
Qed.

Lemma safe_alloc (o : obj) : safe n (alloc o) (fun l => n <= l).
Proof.
  intros h a h' Hn E. unfold alloc in E. inversion E; subst.
  rewrite length_app. repeat split; try lia.
  intros l Hl. apply nth_error_app1. lia.
Qed.

Lemma safe_store (l : nat) (o : obj) : n <= l -> safe n (store l o) any.
Proof.
  intros Hl h a h' Hn E. unfold store in E.
  destruct (l <? length h)%nat; inversion E; subst.
  rewrite length_update. repeat split; trivial.
  intros l' Hl'. apply nth_error_update_neq. lia.
Qed.

Lemma safe_load_dict (l : nat) : safe n (load_dict l) any.
Proof.
  unfold load_dict. eapply safe_bind; [apply safe_load|].
  intros [] _; (apply safe_raise || now apply safe_ret).
Qed.

Lemma safe_load_refs (l : nat) : safe n (load_refs l) any.
Proof.
  unfold load_refs. eapply safe_bind; [apply safe_load|].
  intros [] _; (apply safe_raise || now apply safe_ret).
Qed.

Lemma safe_load_nums (l : nat) : safe n (load_nums l) any.
Proof.
  unfold load_nums. eapply safe_bind; [apply safe_load|].
  intros [] _; (apply safe_raise || now apply safe_ret).
Qed.

Lemma safe_load_counts (l : nat) : safe n (load_counts l) any.
Proof.
  unfold load_counts. eapply safe_bind; [apply safe_load|].
  intros [] _; (apply safe_raise || now apply safe_ret).
Qed.

Lemma safe_mapM (A B : Type) (f : A -> M B) (l : list A) :
  (forall x, safe n (f x) any) -> safe n (mapM f l) any.
Proof.
  intros Hf. induction l as [|x l IH]; simpl.
  - now apply safe_ret.
  - eapply safe_bind; [apply Hf|]. intros y _.
    eapply safe_bind; [apply IH|]. intros ys _. now apply safe_ret.
Qed.

Lemma safe_forM (A : Type) (f : A -> M unit) (l : list A) :
  (forall x, safe n (f x) any) -> safe n (forM l f) any.
Proof.
  intros Hf. induction l as [|x l IH]; simpl.
  - now apply safe_ret.
  - eapply safe_bind; [apply Hf|]. intros _ _. apply IH.
Qed.

Lemma safe_select (refs : list nat) : safe n (select refs) any.
Proof.
  induction refs as [|l refs IH]; simpl.
  - now apply safe_ret.
  - eapply safe_bind; [apply safe_load_dict|]. intros m _.
    eapply safe_bind; [apply IH|]. intros kept _. now apply safe_ret.
Qed.

Lemma safe_deref (l : nat) : safe n (deref l) any.
Proof.
  unfold deref. eapply safe_bind; [apply safe_load_refs|].
  intros refs _. apply safe_mapM. intros x. apply safe_load_dict.
Qed.

Lemma safe_bump_hour (hc l : nat) : n <= hc -> safe n (bump_hour hc l) any.
Proof.
  intros Hhc. unfold bump_hour.
  eapply safe_bind; [apply safe_load_dict|]. intros m _.
  eapply safe_bind; [apply safe_load_counts|]. intros xs _.
  now apply safe_store.
Qed.

Lemma safe_append_num (xs : nat) (x : Q) : n <= xs -> safe n (append_num xs x) any.
Proof.
  intros Hxs. unfold append_num.
  eapply safe_bind; [apply safe_load_nums|]. intros old _.
  now apply safe_store.
Qed.

Lemma safe_react_body (cfg : Config) (names : list str) (me them : nat)
      (pc : nat * nat) :
  n <= me -> n <= them -> safe n (react_body cfg names me them pc) any.
Proof.
  intros Hme Hthem. unfold react_body.
  eapply safe_bind; [apply safe_load_dict|]. intros prev _.
  eapply safe_bind; [apply safe_load_dict|]. intros cur _.
  cbv zeta.
  destruct (negb (Qle_bool 0 _)); [now apply safe_ret|].
  destruct (negb (within_cutoff cfg _)); [now apply safe_ret|].
  destruct (negb _ && _); [now apply safe_append_num|].
  destruct (_ && negb _); [now apply safe_append_num|].
  now apply safe_ret.
Qed.

Lemma safe_sorted_refs (refs : list nat) : safe n (sorted_refs refs) any.
Proof.
  unfold sorted_refs. eapply safe_bind.
  - apply safe_mapM. intros x. apply safe_load_dict.
  - intros ms _. now apply safe_ret.
Qed.

Lemma safe_stats (cfg : Config) (messages : nat) (names : list str)
      (lbl : str) :
  safe n (stats_for_messages_h cfg messages names lbl) any.
Proof.
  unfold stats_for_messages_h.
  eapply safe_bind; [apply safe_load_refs|]. intros refs _.
  eapply safe_bind; [apply safe_select|]. intros kept _.
  eapply safe_bind; [apply safe_alloc|]. intros non_system Hns.
  eapply safe_bind; [apply safe_deref|]. intros ns _.
  destruct (negb (forallb has_ts ns)); [apply safe_raise|].
  eapply safe_bind; [apply safe_deref|]. intros all _.
  cbv zeta. destruct (determine_me names _) as [guessed me].
  eapply safe_bind; [apply safe_alloc|]. intros hour_counts Hhc.
  eapply safe_bind; [apply safe_load_refs|]. intros ns_refs _.
  eapply safe_bind.
  { apply safe_forM. intros x. now apply safe_bump_hour. }
  intros _ _.
  eapply safe_bind; [apply safe_sorted_refs|]. intros srefs _.
  eapply safe_bind; [apply safe_alloc|]. intros non_system_sorted _.
  eapply safe_bind; [apply safe_alloc|]. intros me_react Hme.
  eapply safe_bind; [apply safe_alloc|]. intros them_react Hthem.
  eapply safe_bind; [apply safe_load_refs|]. intros sorted_items _.
  eapply safe_bind.
  { apply safe_forM. intros x. now apply safe_react_body. }
  intros _ _.
  eapply safe_bind; [apply safe_load_nums|]. intros mr _.
  eapply safe_bind; [apply safe_load_nums|]. intros tr _.
  eapply safe_bind; [apply safe_load_counts|]. intros hc _.
  now apply safe_ret.
Qed.
End Safe.

(** ** Refinement: the store-level engine computes [stats_for_messages] *)

Lemma holds_mono (h h' : heap) (refs : list nat) (msgs : list Message) :
  (forall l m, pts h l m -> pts h' l m) ->
  holds h refs msgs -> holds h' refs msgs.
Proof. intros H. apply Forall2_impl. exact H. Qed.

Lemma load_dict_pts (h : heap) (l : nat) (m : Message) :
  pts h l m -> load_dict l h = Some (m, h).
Proof. intros H. unfold load_dict, bind, load. now rewrite H. Qed.

Lemma load_refs_at (h : heap) (l : nat) (refs : list nat) :
  nth_error h l = Some (Refs refs) -> load_refs l h = Some (refs, h).
Proof. intros H. unfold load_refs, bind, load. now rewrite H. Qed.

Lemma load_nums_at (h : heap) (l : nat) (xs : list Q) :
  nth_error h l = Some (Nums xs) -> load_nums l h = Some (xs, h).
Proof. intros H. unfold load_nums, bind, load. now rewrite H. Qed.

Lemma load_counts_at (h : heap) (l : nat) (xs : list nat) :
  nth_error h l = Some (Counts xs) -> load_counts l h = Some (xs, h).
Proof. intros H. unfold load_counts, bind, load. now rewrite H. Qed.

Lemma store_at (h : heap) (l : nat) (o o' : obj) :
  nth_error h l = Some o -> store l o' h = Some (tt, update l o' h).
Proof.
  intros H. unfold store.
  assert (Hl : l < length h) by (apply nth_error_Some; congruence).
  apply Nat.ltb_lt in Hl. now rewrite Hl.
Qed.

Lemma mapM_load_dict (h : heap) (refs : list nat) (msgs : list Message) :
  holds h refs msgs -> mapM load_dict refs h = Some (msgs, h).
Proof.
  induction 1 as [|l m refs msgs Hl _ IH]; simpl; trivial.
  unfold bind. now rewrite (load_dict_pts h l m Hl), IH.
Qed.

Lemma select_holds (h : heap) (refs : list nat) (msgs : list Message) :
  holds h refs msgs ->
  exists kept, select refs h = Some (kept, h)
               /\ holds h kept (non_system_of msgs).
Proof.
  induction 1 as [|l m refs msgs Hl _ (kept & E & Hk)]; simpl.
  - exists []. split; [reflexivity | constructor].
  - unfold bind. rewrite (load_dict_pts h l m Hl), E.
    unfold qualifies, ret.
    destruct (negb (is_system m) && truthy (sender m)).
    + exists (l :: kept). split; trivial. now constructor.
    + now exists kept.
Qed.

Lemma deref_holds (h : heap) (l : nat) (refs : list nat)
      (msgs : list Message) :
  nth_error h l = Some (Refs refs) -> holds h refs msgs ->
  deref l h = Some (msgs, h).
Proof.
  intros Hl Hh. unfold deref, bind. rewrite (load_refs_at h l refs Hl).
  now apply mapM_load_dict.
Qed.

(** The loop that fills [hour_counts]. *)
Lemma bump_hours_spec (hc : nat) (refs : list nat) :
  forall (ms : list Message) (h : heap) (xs : list nat),
    holds h refs ms -> nth_error h hc = Some (Counts xs) ->
    exists h',
      forM refs (bump_hour hc) h = Some (tt, h')
      /\ nth_error h' hc
         = Some (Counts (fold_left
                           (fun hc m => incr_at (Z.to_nat (hour (ts_of m))) hc)
                           ms xs))
      /\ forall l, l <> hc -> nth_error h' l = nth_error h l.
Proof.
  induction refs as [|l refs IH]; intros ms h xs Hh Hc;
    inversion Hh as [|? m ? ms' Hl Hrest]; subst; simpl.
  - exists h. auto.
  - unfold bind at 1. unfold bump_hour at 1. unfold bind.
    rewrite (load_dict_pts h l m Hl), (load_counts_at h hc xs Hc).
    rewrite (store_at h hc _ _ Hc).
    set (h1 := update hc _ h).
    assert (Hc1 : nth_error h1 hc
                  = Some (Counts (incr_at (Z.to_nat (hour (ts_of m))) xs))).
    { apply nth_error_update_eq. apply nth_error_Some. congruence. }
    assert (Hsame : forall l', l' <> hc -> nth_error h1 l' = nth_error h l').
    { intros l' Hne. apply nth_error_update_neq. congruence. }
    assert (Hh1 : holds h1 refs ms').
    { revert Hrest. apply Forall2_impl. intros l' m' Hp. unfold pts in *.
      rewrite Hsame; trivial. intros ->. congruence. }
    destruct (IH ms' h1 _ Hh1 Hc1) as (h' & E & Hc' & Hold).
    exists h'. repeat split; trivial.
    intros l' Hne. now rewrite Hold, Hsame.
Qed.

(** ** Sorting references by the time stamp of their dicts *)

Lemma insert_by_map (T U : Type) (f : T -> U) (le : U -> U -> bool)
      (x : T) (l : list T) :
  map f (insert_by (fun a b => le (f a) (f b)) x l)
  = insert_by le (f x) (map f l).
Proof.
  induction l as [|y l IH]; simpl; trivial.
  destruct (le (f x) (f y)); simpl; trivial. now rewrite IH.
Qed.

Lemma sorted_by_map (T U : Type) (f : T -> U) (le : U -> U -> bool)
      (l : list T) :
  map f (sorted_by (fun a b => le (f a) (f b)) l) = sorted_by le (map f l).
Proof.
  induction l as [|x l IH]; simpl; trivial.
  now rewrite insert_by_map, IH.
Qed.

Lemma holds_combine (h : heap) (refs : list nat) (ms : list Message) :
  holds h refs ms ->
  map snd (combine refs ms) = ms
  /\ Forall (fun p => pts h (fst p) (snd p)) (combine refs ms).
Proof.
  induction 1 as [|l m refs ms Hl _ [IH1 IH2]]; simpl.
  - split; [reflexivity | constructor].
  - rewrite IH1. split; trivial. now constructor.
Qed.

Lemma holds_pairs (h : heap) (ps : list (nat * Message)) :
  Forall (fun p => pts h (fst p) (snd p)) ps ->
  holds h (map fst ps) (map snd ps).
Proof. induction 1; simpl; constructor; trivial. Qed.

Lemma sorted_refs_spec (h : heap) (refs : list nat) (ms : list Message) :
  holds h refs ms ->
  exists srefs, sorted_refs refs h = Some (srefs, h)
                /\ holds h srefs (sort_by_ts ms).
Proof.
  intros Hh. unfold sorted_refs, bind. rewrite (mapM_load_dict h refs ms Hh).
  eexists. split; [reflexivity|].
  destruct (holds_combine h refs ms Hh) as [Hsnd Hall].
  set (le := fun a b : nat * Message => dt_leb (ts_of (snd a)) (ts_of (snd b))).
  assert (Hs : map snd (sorted_by le (combine refs ms)) = sort_by_ts ms).
  { unfold sort_by_ts. rewrite <- Hsnd at 2.
    apply (sorted_by_map _ _ snd (fun a b => dt_leb (ts_of a) (ts_of b))). }
  rewrite <- Hs. apply holds_pairs.
  apply (Permutation_Forall (sorted_by_perm le (combine refs ms)) Hall).
Qed.

(** ** The reaction loop *)

Lemma holds_adjacent (h : heap) (refs : list nat) (ms : list Message) :
  holds h refs ms ->
  Forall2 (fun pc mc => pts h (fst pc) (fst mc) /\ pts h (snd pc) (snd mc))
          (adjacent refs) (adjacent ms).
Proof.
  unfold adjacent. induction 1 as [|l m refs ms Hl Hrest IH]; simpl.
  - constructor.
  - destruct Hrest as [|l' m' refs ms Hl' Hrest]; simpl in *.
    + constructor.
    + constructor; auto.
Qed.

Lemma reactions_spec (cfg : Config) (names : list str) (me them : nat)
      (prs : list (nat * nat)) :
  me <> them ->
  forall (mps : list (Message * Message)) (h : heap) (a b : list Q),
    Forall2 (fun pc mc => pts h (fst pc) (fst mc) /\ pts h (snd pc) (snd mc))
            prs mps ->
    nth_error h me = Some (Nums a) -> nth_error h them = Some (Nums b) ->
    exists h',
      forM prs (react_body cfg names me them) h = Some (tt, h')
      /\ nth_error h' me
         = Some (Nums (fst (fold_left (react_step cfg names) mps (a, b))))
      /\ nth_error h' them
         = Some (Nums (snd (fold_left (react_step cfg names) mps (a, b))))
      /\ forall l, l <> me -> l <> them -> nth_error h' l = nth_error h l.
Proof.
  intros Hne. induction prs as [|[p c] prs IH]; intros mps h a b Hh Hme Hthem;
    inversion Hh as [|? [pm cm] ? mps' [Hp Hc] Hrest]; subst; simpl.
  - exists h. auto.
  - simpl in Hp, Hc. unfold bind at 1. unfold react_body at 1. unfold bind.
    simpl fst. simpl snd.
    rewrite (load_dict_pts h p pm Hp), (load_dict_pts h c cm Hc).
    assert (Hkeep : forall h1,
               (forall l, l <> me -> l <> them ->
                          nth_error h1 l = nth_error h l) ->
               Forall2 (fun pc mc => pts h1 (fst pc) (fst mc)
                                     /\ pts h1 (snd pc) (snd mc)) prs mps').
    { intros h1 Hsame. revert Hrest. apply Forall2_impl.
      intros [l1 l2] [m1 m2] [H1 H2]. unfold pts in *. simpl in *.
      rewrite !Hsame; auto; intros ->; congruence. }
    destruct (negb (Qle_bool 0 (elapsed pm cm))) eqn:E0;
      [apply (IH mps' h a b); auto|].
    destruct (negb (within_cutoff cfg (elapsed pm cm))) eqn:E1;
      [apply (IH mps' h a b); auto|].
    destruct (negb (member (sender_of pm) names)
              && member (sender_of cm) names) eqn:E2.
    + unfold append_num, bind, ret.
      rewrite (load_nums_at h me a Hme), (store_at h me _ _ Hme).
      set (h1 := update me _ h).
      assert (Hsame : forall l, l <> me -> nth_error h1 l = nth_error h l)
        by (intros l Hl; apply nth_error_update_neq; congruence).
      destruct (IH mps' h1 (a ++ [elapsed pm cm]) b) as (h' & E & H1 & H2 & H3).
      * apply Hkeep. intros l Hl _. now apply Hsame.
      * apply nth_error_update_eq. apply nth_error_Some. congruence.
      * rewrite Hsame; auto.
      * exists h'. repeat split; trivial.
        intros l Hl1 Hl2. rewrite H3, Hsame; auto.
    + destruct (member (sender_of pm) names
                && negb (member (sender_of cm) names)) eqn:E3;
        [|apply (IH mps' h a b); auto].
      unfold append_num, bind, ret.
      rewrite (load_nums_at h them b Hthem), (store_at h them _ _ Hthem).
      set (h1 := update them _ h).
      assert (Hsame : forall l, l <> them -> nth_error h1 l = nth_error h l)
        by (intros l Hl; apply nth_error_update_neq; congruence).
      destruct (IH mps' h1 a (b ++ [elapsed pm cm])) as (h' & E & H1 & H2 & H3).
      * apply Hkeep. intros l _ Hl. now apply Hsame.
      * rewrite Hsame; auto.
      * apply nth_error_update_eq. apply nth_error_Some. congruence.
      * exists h'. repeat split; trivial.
        intros l Hl1 Hl2. rewrite H3, Hsame; auto.
Qed.

Lemma pts_old (h ext : heap) (l : nat) (m : Message) :
  pts h l m -> pts (h ++ ext) l m.
Proof. apply nth_error_old. Qed.

Lemma holds_old (h ext : heap) (refs : list nat) (ms : list Message) :
  holds h refs ms -> holds (h ++ ext) refs ms.
Proof. apply holds_mono. intros l m. apply pts_old. Qed.

(** On a store where [messages] is a list of references to the dicts
    [msgs], the store-level engine returns what [stats_for_messages]
    returns on [msgs], and raises when it raises. *)
Lemma stats_refines (cfg : Config) (h : heap) (messages : nat)
      (refs : list nat) (msgs : list Message) (names : list str) (lbl : str) :
  nth_error h messages = Some (Refs refs) -> holds h refs msgs ->
  option_map fst (stats_for_messages_h cfg messages names lbl h)
  = stats_for_messages cfg msgs names lbl.
Proof.
  intros Hm Hh. unfold stats_for_messages_h, stats_for_messages.
  unfold bind at 1. rewrite (load_refs_at h messages refs Hm).
  destruct (select_holds h refs msgs Hh) as (kept & Ek & Hk).
  unfold bind at 1. rewrite Ek.
  unfold bind at 1. unfold alloc at 1.
  set (ns := non_system_of msgs) in *.
  set (h1 := h ++ [Refs kept]).
  assert (Hns1 : nth_error h1 (length h) = Some (Refs kept))
    by apply nth_error_new.
  assert (Hk1 : holds h1 kept ns) by now apply holds_old.
  unfold bind at 1. rewrite (deref_holds h1 (length h) kept ns Hns1 Hk1).
  destruct (negb (forallb has_ts ns)); [reflexivity|].
  unfold bind at 1.
  rewrite (deref_holds h1 messages refs msgs (nth_error_old _ _ _ _ Hm)
             (holds_old _ _ _ _ Hh)).
  cbv zeta. destruct (determine_me names _) as [guessed me].
  unfold bind at 1. unfold alloc at 1.
  set (h2 := h1 ++ [Counts (repeat 0 24)]).
  assert (Hc2 : nth_error h2 (length h1) = Some (Counts (repeat 0 24)))
    by apply nth_error_new.
  unfold bind at 1.
  rewrite (load_refs_at h2 (length h) kept (nth_error_old _ _ _ _ Hns1)).
  destruct (bump_hours_spec (length h1) kept ns h2 (repeat 0 24)
              (holds_old _ _ _ _ Hk1) Hc2) as (h3 & E3 & Hc3 & Hold3).
  unfold bind at 1. rewrite E3.
  assert (Hk3 : holds h3 kept ns).
  { revert Hk1. apply holds_mono. intros l m Hp. unfold pts in *.
    rewrite Hold3.
    - now apply nth_error_old.
    - intros ->.
      assert (Hn : nth_error h1 (length h1) = None)
        by (apply nth_error_None; lia).
      congruence. }
  destruct (sorted_refs_spec h3 kept ns Hk3) as (srefs & Es & Hs).
  unfold bind at 1. rewrite Es.
  unfold bind at 1. unfold alloc at 1.
  unfold bind at 1. unfold alloc at 1.
  unfold bind at 1. unfold alloc at 1.
  set (h4 := h3 ++ [Refs srefs]).
  set (h5 := h4 ++ [Nums []]).
  set (h6 := h5 ++ [Nums []]).
  assert (Hs6 : nth_error h6 (length h3) = Some (Refs srefs)).
  { unfold h6, h5. do 2 apply nth_error_old. apply nth_error_new. }
  assert (Hme6 : nth_error h6 (length h4) = Some (Nums [])).
  { unfold h6. apply nth_error_old. apply nth_error_new. }
  assert (Hthem6 : nth_error h6 (length h5) = Some (Nums []))
    by apply nth_error_new.
  unfold bind at 1. rewrite (load_refs_at h6 (length h3) srefs Hs6).
  assert (Hne : length h4 <> length h5).
  { unfold h5. rewrite length_app. simpl. lia. }
  destruct (reactions_spec cfg me (length h4) (length h5) (adjacent srefs) Hne
              (adjacent (sort_by_ts ns)) h6 [] [])
    as (h7 & E7 & Hme7 & Hthem7 & Hold7); trivial.
  { apply holds_adjacent. revert Hs. apply holds_mono. intros l m Hp.
    unfold h6, h5, h4. now do 3 apply pts_old. }
  unfold bind at 1. rewrite E7.
  unfold bind at 1. rewrite (load_nums_at h7 _ _ Hme7).
  unfold bind at 1. rewrite (load_nums_at h7 _ _ Hthem7).
  assert (Hc7 : nth_error h7 (length h1)
                = Some (Counts (hour_counts_of ns))).
  { assert (Hlen3 : length h1 < length h3)
      by (apply nth_error_Some; congruence).
    rewrite Hold7.
    - unfold h6, h5, h4. now do 3 apply nth_error_old.
    - unfold h4. rewrite length_app. simpl. lia.
    - unfold h5, h4. rewrite !length_app. simpl. lia. }
  unfold bind at 1. rewrite (load_counts_at h7 _ _ Hc7).
  unfold ret, option_map, fst at 1.
  fold (reactions cfg me (sort_by_ts ns)).
  destruct (reactions cfg me (sort_by_ts ns)) as [mr tr]. reflexivity.
Qed.

(** C10.  [stats_for_messages] does not modify what it is given: on the
    store, every object that exists before the call, the list and each
    message dict among them, is the same after it (the sort and the loops
    write to lists that the call itself created).  So the statistics of a
    list of messages, such as the concatenation of all files, are the
    same after per-file calls as before them: what [stats_for_messages]
    gives on the messages the list refers to. *)
Theorem stats_leaves_input_unchanged
        (cfg : Config) (h : heap) (messages : nat) (names : list str)
        (lbl : str) (r : StatisticsResult) (h' : heap) :
  stats_for_messages_h cfg messages names lbl h = Some (r, h') ->
  (forall l o, nth_error h l = Some o -> nth_error h' l = Some o)
  /\ (forall all refs msgs names' lbl',
        nth_error h all = Some (Refs refs) -> holds h refs msgs ->
        option_map fst (stats_for_messages_h cfg all names' lbl' h')
        = stats_for_messages cfg msgs names' lbl'
        /\ option_map fst (stats_for_messages_h cfg all names' lbl' h)
           = stats_for_messages cfg msgs names' lbl').
Proof.
  intros E.
  destruct (safe_stats (length h) cfg messages names lbl h r h'
              (Nat.le_refl _) E) as (_ & Hold & _).
  assert (Hkeep : forall l o, nth_error h l = Some o ->
                              nth_error h' l = Some o).
  { intros l o Hl. rewrite Hold; trivial.
    apply nth_error_Some. congruence. }
  split; [exact Hkeep|].
  intros all refs msgs names' lbl' Ha Hh. split.
  - apply (stats_refines cfg h' all refs msgs); auto.
    revert Hh. apply holds_mono. intros l m. apply Hkeep.
  - now apply (stats_refines cfg h all refs msgs).
Qed.

Lemma stats_leaves_input_unchanged_witness :
  exists r h',
    stats_for_messages_h default_config 3 [s2l "Bob"] [] demo_heap
    = Some (r, h')
    /\ forall l o, nth_error demo_heap l = Some o -> nth_error h' l = Some o.
Proof.
  eexists. eexists.
  assert (E : stats_for_messages_h default_config 3 [s2l "Bob"] [] demo_heap
              = Some _) by (vm_compute; reflexivity).
  split; [exact E|].
  apply (proj1 (stats_leaves_input_unchanged default_config demo_heap 3
                  [s2l "Bob"] [] _ _ E)).
Defined.

(* ================================================================== *)
(** * What the parser returns                                        *)
(* ================================================================== *)

(** ** What a successful match has consumed *)

Section RunSound.
Variable A : Type.

Lemma rep_sound (p : ascii -> bool) (lo : nat) (hi : option nat) (s : str)
      (k : str -> option A) (a : A) :
  rep p lo hi s k = Some a ->
  exists w rest,
    s = w ++ rest /\ forallb p w = true /\ lo <= length w /\ k rest = Some a.
Proof.
  revert lo hi. induction s as [|c s IH]; intros lo hi H.
  - assert (Hs : lo = 0 /\ k [] = Some a).
    { simpl in H. destruct hi as [[|h]|], lo; try discriminate; auto. }
    destruct Hs as [-> Hk]. exists [], []. auto.
  - assert (Hs : (lo = 0 /\ k (c :: s) = Some a)
                 \/ (p c = true
                     /\ rep p (pred lo) (option_map pred hi) s k = Some a)).
    { simpl in H. destruct (p c) eqn:Hc.
      - destruct hi as [[|h]|].
        + left. destruct lo; [auto | discriminate].
        + destruct (rep p (pred lo) (option_map pred (Some (S h))) s k) eqn:E.
          * right. split; [trivial | congruence].
          * left. destruct lo; [auto | discriminate].
        + destruct (rep p (pred lo) (option_map pred None) s k) eqn:E.
          * right. split; [trivial | congruence].
          * left. destruct lo; [auto | discriminate].
      - left. destruct hi as [[|h]|], lo; try discriminate; auto. }
    destruct Hs as [[-> Hk]|[Hc Hr]].
    + exists [], (c :: s). auto.
    + apply IH in Hr. destruct Hr as (w & rest & -> & Hw & Hlo & Hk).
      exists (c :: w), rest. simpl. rewrite Hc, Hw.
      repeat split; trivial. lia.
Qed.

(** A match that succeeds has run its continuation. *)
Lemma run_cont (n0 : nat) (ic : bool) (r : regex) (s : str) (c : caps)
      (k : str -> caps -> option A) (a : A) :
  run n0 ic r s c k = Some a -> exists s' c', k s' c' = Some a.
Proof.
  revert s c k.
  induction r as [| x | p | p lo hi | r1 IH1 r2 IH2 | r1 IH1 r2 IH2
                 | r1 IH1 | name r1 IH1 | |]; intros s c k H; simpl in H.
  - eauto.
  - destruct s as [|y s]; [discriminate|].
    destruct (lit_eqb ic x y); [eauto | discriminate].
  - destruct s as [|y s]; [discriminate|].
    destruct (p y); [eauto | discriminate].
  - apply rep_sound in H. destruct H as (w & rest & _ & _ & _ & H). eauto.
  - apply IH1 in H. destruct H as (s1 & c1 & H). now apply IH2 in H.
  - destruct (run n0 ic r1 s c k) eqn:E.
    + rewrite H in E. now apply IH1 in E.
    + now apply IH2 in H.
  - destruct (run n0 ic r1 s c k) eqn:E.
    + rewrite H in E. now apply IH1 in E.
    + eauto.
  - apply IH1 in H. destruct H as (s1 & c1 & H). eauto.
  - destruct (length s =? n0)%nat; [eauto | discriminate].
  - destruct s as [|y [|z s]]; [eauto | | discriminate].
    destruct (Ascii.eqb y LF); [eauto | discriminate].
Qed.

(** What [sender_text] captures when it matches. *)
Lemma sender_text_sound (n0 : nat) (s : str) (c : caps)
      (k : str -> caps -> option A) (a : A) :
  run n0 false sender_text s c k = Some a ->
  exists w t rest,
    w <> [] /\ forallb not_colon w = true
    /\ k rest (("text"%string, t) :: ("sender"%string, w) :: c) = Some a.
Proof.
  unfold sender_text, spaces0. intros H. cbn [run] in H.
  apply rep_sound in H. destruct H as (w & r1 & -> & Hw & Hlo & H).
  rewrite firstn_app_exact in H.
  destruct r1 as [|y r1]; [discriminate|].
  destruct (lit_eqb false ":" y); [|discriminate].
  apply rep_sound in H. destruct H as (w2 & r2 & -> & _ & _ & H).
  apply rep_sound in H. destruct H as (t & r3 & -> & _ & _ & H).
  rewrite firstn_app_exact in H.
  exists w, t, r3. split; [|split; trivial].
  - destruct w; [simpl in Hlo; lia | discriminate].
  - destruct r3 as [|z [|z' r3]]; trivial; try discriminate.
    destruct (Ascii.eqb z LF); [trivial | discriminate].
Qed.
End RunSound.

(** ** What the header patterns capture *)

Lemma patterns_sender (line : str) (gd : caps) :
  first_match PATTERNS line = Some gd ->
  exists w, group "sender" gd = Some w /\ w <> []
            /\ forallb not_colon w = true.
Proof.
  assert (Hone : forall r : regex,
            re_match (r ;; sender_text) line = Some gd ->
            exists w, group "sender" gd = Some w /\ w <> []
                      /\ forallb not_colon w = true).
  { intros r H. unfold re_match in H. rewrite run_Seq in H.
    apply run_cont in H. destruct H as (s' & c' & H).
    apply sender_text_sound in H.
    destruct H as (w & t & rest & Hne & Hw & H).
    inversion H; subst gd. exists w. auto. }
  unfold PATTERNS. cbn [first_match].
  destruct (re_match (android_head ;; sender_text) line) eqn:E1.
  - intros H. inversion H; subst. now apply (Hone android_head).
  - destruct (re_match (bracket_head ;; spaces1 ;; sender_text) line) eqn:E2;
      [|discriminate].
    intros H. inversion H; subst.
    apply (Hone (bracket_head ;; spaces1)).
    exact E2.
Qed.

Lemma sender_only_sender (line : str) (gd : caps) :
  re_match SENDER_ONLY line = Some gd ->
  get "sender" gd <> [] /\ forallb not_colon (get "sender" gd) = true.
Proof.
  unfold re_match, SENDER_ONLY. rewrite run_Seq. intros H.
  apply run_cont in H. destruct H as (s' & c' & H).
  apply sender_text_sound in H.
  destruct H as (w & t & rest & Hne & Hw & H).
  inversion H; subst gd. auto.
Qed.

(** ** [str.strip] *)

Lemma forallb_lstrip (p : ascii -> bool) (s : str) :
  forallb p s = true -> forallb p (lstrip s) = true.
Proof.
  induction s as [|c s IH]; simpl; trivial.
  intros H. destruct (is_space c); trivial.
  apply andb_prop in H. tauto.
Qed.

Lemma forallb_strip (p : ascii -> bool) (s : str) :
  forallb p s = true -> forallb p (strip s) = true.
Proof.
  intros H. unfold strip, rstrip. rewrite forallb_rev.
  apply forallb_lstrip. rewrite forallb_rev. now apply forallb_lstrip.
Qed.

Lemma lstrip_snoc (a : str) (c : ascii) :
  is_space c = false -> lstrip (a ++ [c]) = lstrip a ++ [c].
Proof.
  intros Hc. induction a as [|x a IH]; simpl.
  - now rewrite Hc.
  - now destruct (is_space x).
Qed.

Lemma lstrip_stops (s : str) : stops is_space (lstrip s).
Proof.
  rewrite lstrip_drop_while. apply take_drop_while.
Qed.

Lemma lstrip_rstrip (u : str) :
  stops is_space u -> lstrip (rstrip u) = rstrip u.
Proof.
  destruct u as [|c u]; [reflexivity|]. simpl. intros Hc.
  unfold rstrip. simpl rev. rewrite lstrip_snoc by exact Hc.
  rewrite rev_app_distr. simpl. now rewrite Hc.
Qed.

Lemma strip_idem (s : str) : strip (strip s) = strip s.
Proof.
  unfold strip. rewrite lstrip_rstrip by apply lstrip_stops.
  unfold rstrip. now rewrite rev_involutive, lstrip_idem.
Qed.

(** ** What [strptime] returns *)

Lemma strptime_valid (s fmt : str) (d : datetime) :
  strptime s fmt = Some d -> valid_datetime d = true.
Proof.
  unfold strptime. destruct (pattern fmt) as [r|]; [|discriminate].
  destruct (run _ _ _ _ _ _) as [[[|x rest] gd]|]; try discriminate.
  destruct (valid_datetime _) eqn:E; [|discriminate].
  intros H. inversion H; subst. exact E.
Qed.

Lemma try_parse_dt_valid (date_str time_str : str) (d : datetime) :
  try_parse_dt date_str time_str = Some d -> valid_datetime d = true.
Proof.
  unfold try_parse_dt. generalize (normalize_dt date_str time_str).
  intros s. induction DT_FORMATS as [|fmt fmts IH]; simpl; [discriminate|].
  destruct (strptime s fmt) as [d'|] eqn:E; trivial.
  intros H. inversion H; subst. now apply strptime_valid in E.
Qed.

(** ** The invariant of the loop of [parse_chat_text] *)

Lemma flush_closed (st : ParserState) (m : Message) :
  flush (mkState (flush st) (Some m) None) = flush st ++ [m].
Proof. reflexivity. Qed.

Lemma good_authored (t : option datetime) (w txt : str) :
  forallb not_colon w = true ->
  (forall d, t = Some d -> valid_datetime d = true) ->
  good (mkMessage t (Some (strip w)) txt false).
Proof.
  intros Hw Ht. split; [|exact Ht]. unfold well_formed. simpl.
  split; [reflexivity|]. split; [now apply forallb_strip | apply strip_idem].
Qed.

Lemma good_notice (t : option datetime) (txt : str) :
  (forall d, t = Some d -> valid_datetime d = true) ->
  good (mkMessage t None txt true).
Proof. intros Ht. split; [reflexivity | exact Ht]. Qed.

Lemma step_inv (st : ParserState) (line : str) :
  state_inv st -> state_inv (step st line).
Proof.
  intros [Hf Hp]. unfold step.
  destruct (pending_ts st) as [pending|] eqn:Ep.
  - assert (Hv : forall d, Some pending = Some d -> valid_datetime d = true)
      by (intros d E; apply Hp; exact E).
    destruct (re_match SENDER_ONLY (rstrip_lf line)) as [gd|] eqn:E.
    + apply sender_only_sender in E. destruct E as [_ Hw].
      split; [|discriminate]. rewrite flush_closed.
      apply Forall_app. split; trivial. constructor; [|constructor].
      now apply good_authored.
    + split; [|discriminate]. rewrite flush_closed.
      apply Forall_app. split; trivial. constructor; [|constructor].
      now apply good_notice.
  - destruct (re_match BRACKET_TS_ONLY (rstrip_lf line)) as [gd|].
    + destruct (try_parse_dt _ _) as [t|] eqn:Et.
      * split; [exact Hf|]. simpl. intros d E. inversion E; subst.
        now apply try_parse_dt_valid in Et.
      * split; [exact Hf | intros t E; congruence].
    + destruct (first_match PATTERNS (rstrip_lf line)) as [gd|] eqn:E1.
      * apply patterns_sender in E1. destruct E1 as (w & -> & Hne & Hw).
        split; [|discriminate].
        change (Forall good
                  (flush st ++
                   [mkMessage (try_parse_dt (get "date" gd) (get "time" gd))
                              (strip_sender (Some w)) (get "text" gd)
                              false])).
        apply Forall_app. split; trivial. constructor; [|constructor].
        destruct w as [|c w]; [congruence|]. simpl strip_sender.
        apply good_authored; trivial.
        intros d. apply try_parse_dt_valid.
      * destruct (first_match SYSTEM_PATTERNS (rstrip_lf line)) as [gd|].
        -- split; [|discriminate].
           change (Forall good
                     (flush st ++
                      [mkMessage (try_parse_dt (get "date" gd) (get "time" gd))
                                 None (get "text" gd) true])).
           apply Forall_app. split; trivial. constructor; [|constructor].
           apply good_notice. intros d. apply try_parse_dt_valid.
        -- destruct (current st) as [m|] eqn:Ec.
           ++ split; [|simpl; intros t E; congruence].
              unfold flush in *. rewrite Ec in Hf. simpl.
              apply Forall_app in Hf. destruct Hf as [Hm Hc].
              apply Forall_app. split; trivial.
              inversion Hc as [|? ? Hg _]; subst.
              constructor; [|constructor]. exact Hg.
           ++ split; [exact Hf | intros t E; congruence].
Qed.

Lemma parse_lines_inv (lines : list str) : state_inv (parse_lines lines).
Proof.
  unfold parse_lines.
  assert (H : state_inv init_state) by (split; [constructor | discriminate]).
  revert H. generalize init_state.
  induction lines as [|l lines IH]; intros st H; simpl; trivial.
  apply IH. now apply step_inv.
Qed.

Lemma parse_chat_text_good (content : str) :
  Forall good (parse_chat_text content).
Proof.
  unfold parse_chat_text. apply Forall_forall. intros m Hm.
  apply filter_In in Hm. destruct Hm as [Hm _].
  destruct (parse_lines_inv (splitlines content)) as [H _].
  rewrite Forall_forall in H. now apply H.
Qed.

(** X1.  Every message the parser returns is well formed: a system notice has
    no sender, and an authored message has a sender that is stripped of
    surrounding white space and holds no colon. *)
Theorem parse_chat_text_well_formed (content : str) :
  Forall well_formed (parse_chat_text content).
Proof.
  eapply Forall_impl; [|apply parse_chat_text_good]. now intros m [H _].
Qed.

(** X2.  Every time stamp the parser reports is a date of the calendar and a
    time of the day: the fields of a header that are none (the 31st of
    February, the 99th month) leave the message without time stamp, and it
    is not returned. *)
Theorem parse_chat_text_valid_ts (content : str) :
  Forall (fun m => exists t, ts m = Some t /\ valid_datetime t = true)
         (parse_chat_text content)
  /\ parse_chat_text ($"31.02.2020, 10:00 - Alice: hello") = []
  /\ parse_chat_text ($"29.02.2020, 10:00 - Alice: hello")
     = [mkMessage (Some (mkdt 2020 2 29 10 0 0)) (Some $"Alice")
                  $"hello" false].
Proof.
  split; [|split; vm_compute; reflexivity].
  assert (Hg := parse_chat_text_good content).
  apply Forall_forall. intros m Hm.
  rewrite Forall_forall in Hg. destruct (Hg m Hm) as [_ Hv].
  unfold parse_chat_text in Hm. apply filter_In in Hm.
  destruct Hm as [_ Hts]. unfold has_ts in Hts.
  destruct (ts m) as [t|]; [|discriminate]. exists t. auto.
Qed.

(** ** Lines that open no message *)

Section NoHeader.
Variable A : Type.
Variable n0 : nat.

Ltac case_eqb :=
  match goal with
  | |- context [Nat.eqb ?a ?b] => destruct (Nat.eqb a b)
  end; reflexivity.

Lemma android_head_plain (r : regex) (s : str) (c : caps)
      (k : str -> caps -> option A) :
  plain_line s = true -> run n0 false (android_head ;; r) s c k = None.
Proof.
  intros Hp. unfold android_head, date_re, digits. cbn [run].
  destruct s as [|x s].
  - case_eqb.
  - simpl in Hp. apply andb_prop in Hp. destruct Hp as [Hd _].
    apply negb_true_iff in Hd.
    rewrite (rep_1_stop _ _ _ (Some 2) x) by exact Hd.
    case_eqb.
Qed.

Lemma bracket_head_plain (r : regex) (s : str) (c : caps)
      (k : str -> caps -> option A) :
  plain_line s = true -> run n0 false (bracket_head ;; r) s c k = None.
Proof.
  intros Hp. unfold bracket_head. cbn [run lit_eqb].
  destruct s as [|x s].
  - case_eqb.
  - simpl in Hp. apply andb_prop in Hp. destruct Hp as [_ Hb].
    apply negb_true_iff in Hb. rewrite Ascii.eqb_sym in Hb. rewrite Hb.
    case_eqb.
Qed.
End NoHeader.

Lemma plain_no_header (line : str) :
  plain_line line = true ->
  re_match BRACKET_TS_ONLY line = None
  /\ first_match PATTERNS line = None
  /\ first_match SYSTEM_PATTERNS line = None.
Proof.
  intros Hp. unfold BRACKET_TS_ONLY, PATTERNS, SYSTEM_PATTERNS.
  cbn [first_match]. unfold re_match.
  rewrite !android_head_plain, !bracket_head_plain by exact Hp.
  auto.
Qed.

(** X3.  A line that starts with neither a digit nor an opening bracket opens
    no message.  With no time stamp pending it continues the open
    message, whose text gets a newline and the line, or it is dropped
    when no message is open; so a transcript that starts with such a line
    gives the messages of the rest. *)
Theorem continuation_line (st : ParserState) (line : str) :
  pending_ts st = None ->
  plain_line (rstrip_lf line) = true ->
  step st line
  = match current st with
    | Some m =>
        mkState (messages st) (Some (continued m (rstrip_lf line))) None
    | None => st
    end
  /\ forall rest, is_line line = true ->
       parse_chat_text (line ++ LF :: rest) = parse_chat_text rest.
Proof.
  intros Hp Hl.
  destruct (plain_no_header _ Hl) as (H1 & H2 & H3).
  assert (Hstep : forall st', pending_ts st' = None ->
            step st' line
            = match current st' with
              | Some m =>
                  mkState (messages st')
                          (Some (continued m (rstrip_lf line))) None
              | None => st'
              end).
  { intros st' Hp'. unfold step. rewrite Hp', H1, H2, H3.
    destruct (current st'); reflexivity. }
  split; [now apply Hstep|].
  intros rest Hline. unfold parse_chat_text, splitlines.
  rewrite splitlines_from_break by exact Hline.
  unfold parse_lines. simpl rev. simpl app. simpl fold_left.
  now rewrite (Hstep init_state eq_refl).
Qed.

Lemma continuation_line_witness :
  pending_ts alice_open = None
  /\ plain_line (rstrip_lf $"and more") = true
  /\ step alice_open $"and more"
     = mkState [] (Some (mkMessage (Some (mkdt 2023 2 1 9 0 0))
                                   (Some $"Alice")
                                   ($"hello" ++ LF :: $"and more") false))
               None.
Proof.
  assert (H1 : pending_ts alice_open = None) by (vm_compute; reflexivity).
  assert (H2 : plain_line (rstrip_lf $"and more") = true)
    by (vm_compute; reflexivity).
  split; [exact H1|]. split; [exact H2|].
  rewrite (proj1 (continuation_line alice_open $"and more" H1 H2)).
  vm_compute. reflexivity.
Defined.

(** ** No more messages than lines *)

Lemma step_flush_length (st : ParserState) (line : str) :
  length (flush (step st line)) <= S (length (flush st)).
Proof.
  unfold step. destruct (pending_ts st).
  - destruct (re_match SENDER_ONLY _); rewrite flush_closed, length_app;
      simpl; lia.
  - destruct (re_match BRACKET_TS_ONLY _).
    + destruct (try_parse_dt _ _); [|lia].
      unfold flush. simpl. lia.
    + destruct (first_match PATTERNS _).
      { unfold flush at 1. simpl. rewrite length_app. simpl. lia. }
      destruct (first_match SYSTEM_PATTERNS _).
      { unfold flush at 1. simpl. rewrite length_app. simpl. lia. }
      unfold flush. destruct (current st) eqn:Ec; simpl;
        rewrite ?Ec, ?length_app; simpl; lia.
Qed.

(** X4.  The parser returns at most one message for each line of the text. *)
Theorem parse_chat_text_length (content : str) :
  length (parse_chat_text content) <= length (splitlines content).
Proof.
  unfold parse_chat_text, parse_lines.
  etransitivity; [apply filter_length_le|].
  assert (H : forall lines st,
            length (flush (fold_left step lines st))
            <= length lines + length (flush st)).
  { induction lines as [|l lines IH]; intros st; simpl; [lia|].
    specialize (IH (step st l)).
    assert (Hs := step_flush_length st l). lia. }
  specialize (H (splitlines content) init_state). simpl in H. lia.
Qed.

(* ================================================================== *)
(** * The fields of the statistics                                   *)
(* ================================================================== *)

(** ** The fields of a result *)

Lemma stats_fields (cfg : Config) (msgs : list Message) (names : list str)
      (lbl : str) (r : StatisticsResult) :
  stats_for_messages cfg msgs names lbl = Some r ->
  let ns := non_system_of msgs in
  let senders := map sender_of ns in
  let me := snd (determine_me names (Counter senders)) in
  let words := findall_words (lower (join $" " (map text ns))) in
  let rs := reactions cfg me (sort_by_ts ns) in
  let all_ts := match ns with [] => resolved msgs | _ => map ts_of ns end in
  forallb has_ts ns = true
  /\ first_ts r = min_dt all_ts /\ last_ts r = max_dt all_ts
  /\ span_sec r = match first_ts r, last_ts r with
                  | Some f, Some l => Some (inject_Z (seconds_between l f))
                  | _, _ => None
                  end
  /\ label r = lbl
  /\ guessed_me r = fst (determine_me names (Counter senders))
  /\ my_names r = me
  /\ total_msgs r = length ns
  /\ sent r = length (filter (fun m => member (sender_of m) me) ns)
  /\ received r = total_msgs r - sent r
  /\ top_words r = most_common (TOP_WORDS cfg) (Counter words)
  /\ hour_counts r = hour_counts_of ns
  /\ me_react_avg r = avg (fst rs) /\ me_react_med r = median (fst rs)
  /\ me_react_n r = length (fst rs)
  /\ them_react_avg r = avg (snd rs) /\ them_react_med r = median (snd rs)
  /\ them_react_n r = length (snd rs)
  /\ top_senders r = most_common 10 (Counter senders).
Proof.
  intros H. cbv zeta. unfold stats_for_messages in H.
  set (ns := non_system_of msgs) in *.
  set (senders := map sender_of ns) in *.
  destruct (forallb has_ts ns) eqn:Hts; [|discriminate].
  simpl negb in H. cbv iota in H.
  destruct (determine_me names (Counter senders)) as [g me].
  simpl snd. simpl fst.
  destruct (reactions cfg me (sort_by_ts ns)) as [mr tr].
  inversion H; subst r; clear H. simpl. repeat split.
Qed.

(** ** The histogram of the hours *)

Lemma incr_at_length (i : nat) (l : list nat) :
  length (incr_at i l) = length l.
Proof.
  revert i. induction l as [|x l IH]; intros [|i]; simpl; trivial.
  now rewrite IH.
Qed.

Lemma incr_at_nth (i j : nat) (l : list nat) :
  nth j (incr_at i l) 0
  = (if (i =? j)%nat && (i <? length l)%nat then 1 else 0) + nth j l 0.
Proof.
  revert i j. induction l as [|x l IH]; intros i j.
  - destruct i, j; simpl; trivial; now rewrite andb_false_r.
  - destruct i as [|i], j as [|j]; simpl; trivial.
Qed.

Lemma hour_fold_length (ms : list Message) (hc : list nat) :
  length (fold_left (fun hc m => incr_at (Z.to_nat (hour (ts_of m))) hc)
                    ms hc)
  = length hc.
Proof.
  revert hc. induction ms as [|m ms IH]; intros hc; simpl; trivial.
  now rewrite IH, incr_at_length.
Qed.

Lemma hour_fold_nth (j : nat) (ms : list Message) (hc : list nat) :
  j < length hc ->
  nth j (fold_left (fun hc m => incr_at (Z.to_nat (hour (ts_of m))) hc)
                   ms hc) 0
  = length (filter (in_hour j) ms) + nth j hc 0.
Proof.
  revert hc. induction ms as [|m ms IH]; intros hc Hj; simpl; trivial.
  rewrite IH by now rewrite incr_at_length.
  rewrite incr_at_nth. unfold in_hour at 2.
  destruct (Z.to_nat (hour (ts_of m)) =? j)%nat eqn:E; simpl.
  - apply Nat.eqb_eq in E. rewrite E.
    apply Nat.ltb_lt in Hj. rewrite Hj. lia.
  - lia.
Qed.

Lemma hour_counts_nth (j : nat) (ms : list Message) :
  j < 24 ->
  nth j (hour_counts_of ms) 0 = length (filter (in_hour j) ms).
Proof.
  intros Hj. unfold hour_counts_of. rewrite hour_fold_nth.
  - rewrite nth_repeat. lia.
  - now rewrite repeat_length.
Qed.

Lemma list_sum_incr_at (i : nat) (l : list nat) :
  i < length l -> list_sum (incr_at i l) = S (list_sum l).
Proof.
  revert i. induction l as [|x l IH]; intros [|i] H; simpl in *; try lia.
  rewrite IH; lia.
Qed.

Lemma valid_hour (d : datetime) :
  valid_datetime d = true -> Z.to_nat (hour d) < 24.
Proof. intros V. split_valid V. lia. Qed.

Lemma hour_counts_sum (ms : list Message) :
  Forall (fun m => valid_datetime (ts_of m) = true) ms ->
  list_sum (hour_counts_of ms) = length ms.
Proof.
  intros Hv. unfold hour_counts_of.
  assert (H : forall hc, length hc = 24 ->
            list_sum (fold_left
                        (fun hc m => incr_at (Z.to_nat (hour (ts_of m))) hc)
                        ms hc)
            = length ms + list_sum hc).
  { induction Hv as [|m ms Hm Hv IH]; intros hc Hl; simpl; trivial.
    rewrite IH by now rewrite incr_at_length.
    rewrite list_sum_incr_at; [lia|].
    rewrite Hl. now apply valid_hour. }
  rewrite H by apply repeat_length.
  assert (E : list_sum (repeat 0 24) = 0) by reflexivity. lia.
Qed.

Lemma non_system_valid (msgs : list Message) :
  Forall (fun m => valid_datetime (ts_of m) = true) msgs ->
  Forall (fun m => valid_datetime (ts_of m) = true) (non_system_of msgs).
Proof.
  intros H. apply Forall_forall. intros m Hm.
  apply filter_In in Hm. rewrite Forall_forall in H. now apply H.
Qed.

(** X5.  The hourly histogram has one entry for each hour of the day; the
    entry of an hour is the number of qualifying messages sent in that
    hour, and the entries add up to [total_msgs]. *)
Theorem hour_histogram (cfg : Config) (msgs : list Message)
        (names : list str) (lbl : str) (r : StatisticsResult) :
  stats_for_messages cfg msgs names lbl = Some r ->
  Forall (fun m => valid_datetime (ts_of m) = true) msgs ->
  length (hour_counts r) = 24
  /\ (forall j, j < 24 ->
        nth j (hour_counts r) 0
        = length (filter (in_hour j) (non_system_of msgs)))
  /\ list_sum (hour_counts r) = total_msgs r.
Proof.
  intros H Hv. apply stats_fields in H. cbv zeta in H.
  destruct H as (_ & _ & _ & _ & _ & _ & _ & Ht & _ & _ & _ & Hh & _).
  rewrite Hh, Ht. split; [|split].
  - unfold hour_counts_of. rewrite hour_fold_length. apply repeat_length.
  - intros j Hj. now apply hour_counts_nth.
  - apply hour_counts_sum. now apply non_system_valid.
Qed.

Lemma hour_histogram_witness :
  exists r,
    stats_for_messages default_config scenario_msgs [$"Bob"] [] = Some r
    /\ Forall (fun m => valid_datetime (ts_of m) = true) scenario_msgs
    /\ list_sum (hour_counts r) = total_msgs r.
Proof.
  eexists. split; [vm_compute; reflexivity|].
  assert (Hv : Forall (fun m => valid_datetime (ts_of m) = true)
                      scenario_msgs) by (repeat constructor).
  split; [exact Hv|].
  refine (proj2 (proj2 (hour_histogram default_config scenario_msgs
                          [$"Bob"] [] _ _ Hv))).
  vm_compute. reflexivity.
Defined.

(** ** The first and the last time stamp *)

Lemma dt_leb_iff (a b : datetime) :
  dt_leb a b = true <->
  (year a < year b \/ year a = year b /\
   (month a < month b \/ month a = month b /\
    (day a < day b \/ day a = day b /\
     (hour a < hour b \/ hour a = hour b /\
      (minute a < minute b \/ minute a = minute b /\
       second a <= second b)))))%Z.
Proof.
  unfold dt_leb, dt_compare.
  destruct (Z.compare_spec (year a) (year b));
    [|split; [lia | reflexivity] | split; [discriminate | lia]].
  destruct (Z.compare_spec (month a) (month b));
    [|split; [lia | reflexivity] | split; [discriminate | lia]].
  destruct (Z.compare_spec (day a) (day b));
    [|split; [lia | reflexivity] | split; [discriminate | lia]].
  destruct (Z.compare_spec (hour a) (hour b));
    [|split; [lia | reflexivity] | split; [discriminate | lia]].
  destruct (Z.compare_spec (minute a) (minute b));
    [|split; [lia | reflexivity] | split; [discriminate | lia]].
  destruct (Z.compare_spec (second a) (second b));
    [split; [lia | reflexivity] | split; [lia | reflexivity]
     | split; [discriminate | lia]].
Qed.

Lemma dt_leb_refl (a : datetime) : dt_leb a a = true.
Proof. apply dt_leb_iff. lia. Qed.

Lemma dt_leb_trans (a b c : datetime) :
  dt_leb a b = true -> dt_leb b c = true -> dt_leb a c = true.
Proof. rewrite !dt_leb_iff. lia. Qed.

Lemma dt_ltb_leb (a b : datetime) : dt_ltb a b = true -> dt_leb a b = true.
Proof. unfold dt_ltb, dt_leb. now destruct (dt_compare a b). Qed.

Lemma dt_ltb_false (a b : datetime) :
  dt_ltb a b = false -> dt_leb b a = true.
Proof.
  unfold dt_ltb, dt_leb. rewrite (dt_compare_antisym a b).
  now destruct (dt_compare a b).
Qed.

Lemma min_dt_spec (l : list datetime) (f : datetime) :
  min_dt l = Some f ->
  In f l /\ forall t, In t l -> dt_leb f t = true.
Proof.
  destruct l as [|x rest]; [discriminate|]. simpl. intros H.
  inversion H as [E]; clear H E.
  set (pick := fun best y : datetime => if dt_ltb y best then y else best).
  assert (G : forall rest best,
            let r := fold_left pick rest best in
            (r = best \/ In r rest) /\ dt_leb r best = true
            /\ forall t, In t rest -> dt_leb r t = true).
  { clear. induction rest as [|y rest IH]; intros best; simpl.
    - split; [now left|]. split; [apply dt_leb_refl | tauto].
    - destruct (IH (pick best y)) as (Hin & Hle & Hall).
      assert (Hp : dt_leb (pick best y) best = true
                   /\ dt_leb (pick best y) y = true
                   /\ (pick best y = best \/ pick best y = y)).
      { unfold pick. destruct (dt_ltb y best) eqn:E.
        - split; [now apply dt_ltb_leb|]. split; [apply dt_leb_refl | auto].
        - split; [apply dt_leb_refl|].
          split; [now apply dt_ltb_false | auto]. }
      destruct Hp as (Hb & Hy & Hor).
      split; [|split].
      + destruct Hin as [->|Hin]; [|auto].
        destruct Hor as [->| ->]; auto.
      + eapply dt_leb_trans; eauto.
      + intros t [<-|Ht]; [|auto]. eapply dt_leb_trans; eauto. }
  destruct (G rest x) as (Hin & Hle & Hall). split.
  - destruct Hin as [->|Hin]; [now left | now right].
  - intros t [<-|Ht]; auto.
Qed.

Lemma max_dt_spec (l : list datetime) (f : datetime) :
  max_dt l = Some f ->
  In f l /\ forall t, In t l -> dt_leb t f = true.
Proof.
  destruct l as [|x rest]; [discriminate|]. simpl. intros H.
  inversion H as [E]; clear H E.
  set (pick := fun best y : datetime => if dt_ltb best y then y else best).
  assert (G : forall rest best,
            let r := fold_left pick rest best in
            (r = best \/ In r rest) /\ dt_leb best r = true
            /\ forall t, In t rest -> dt_leb t r = true).
  { clear. induction rest as [|y rest IH]; intros best; simpl.
    - split; [now left|]. split; [apply dt_leb_refl | tauto].
    - destruct (IH (pick best y)) as (Hin & Hle & Hall).
      assert (Hp : dt_leb best (pick best y) = true
                   /\ dt_leb y (pick best y) = true
                   /\ (pick best y = best \/ pick best y = y)).
      { unfold pick. destruct (dt_ltb best y) eqn:E.
        - split; [now apply dt_ltb_leb|]. split; [apply dt_leb_refl | auto].
        - split; [apply dt_leb_refl|].
          split; [now apply dt_ltb_false | auto]. }
      destruct Hp as (Hb & Hy & Hor).
      split; [|split].
      + destruct Hin as [->|Hin]; [|auto].
        destruct Hor as [->| ->]; auto.
      + eapply dt_leb_trans; eauto.
      + intros t [<-|Ht]; [|auto]. eapply dt_leb_trans; eauto. }
  destruct (G rest x) as (Hin & Hle & Hall). split.
  - destruct Hin as [->|Hin]; [now left | now right].
  - intros t [<-|Ht]; auto.
Qed.

Lemma resolved_In (msgs : list Message) (t : datetime) :
  In t (resolved msgs) <-> exists m, In m msgs /\ ts m = Some t.
Proof.
  induction msgs as [|m msgs IH]; simpl.
  - split; [tauto | now intros (m & [] & _)].
  - destruct (ts m) as [t'|] eqn:E; simpl; rewrite IH; split.
    + intros [<-|(m' & H1 & H2)]; eauto.
    + intros (m' & [<-|H1] & H2); [left; congruence | eauto].
    + intros (m' & H1 & H2); eauto.
    + intros (m' & [<-|H1] & H2); [congruence | eauto].
Qed.

(** X6.  [first_ts] and [last_ts] are the earliest and the latest time stamp
    of the qualifying messages, or of all the messages when none
    qualifies, and [span_sec] is the number of seconds between them, which
    is not negative; without any time stamp the three are [None]. *)
Theorem time_span (cfg : Config) (msgs : list Message)
        (names : list str) (lbl : str) (r : StatisticsResult) :
  stats_for_messages cfg msgs names lbl = Some r ->
  Forall (fun m => valid_datetime (ts_of m) = true) msgs ->
  let all_ts :=
    match non_system_of msgs with
    | [] => resolved msgs
    | _ => map ts_of (non_system_of msgs)
    end in
  match all_ts with
  | [] => first_ts r = None /\ last_ts r = None /\ span_sec r = None
  | _ =>
      exists f l,
        first_ts r = Some f /\ last_ts r = Some l
        /\ In f all_ts /\ In l all_ts
        /\ (forall t, In t all_ts ->
              dt_leb f t = true /\ dt_leb t l = true)
        /\ span_sec r = Some (inject_Z (seconds_between l f))
        /\ (0 <= seconds_between l f)%Z
  end.
Proof.
  intros H Hv all_ts. apply stats_fields in H. cbv zeta in H.
  destruct H as (_ & Hf & Hl & Hs & _). fold all_ts in Hf, Hl.
  assert (Hval : forall t, In t all_ts -> valid_datetime t = true).
  { intros t Ht. rewrite Forall_forall in Hv. subst all_ts.
    destruct (non_system_of msgs) as [|m0 ns] eqn:E.
    - apply resolved_In in Ht. destruct Ht as (m & Hm & Et).
      specialize (Hv m Hm). unfold ts_of in Hv. now rewrite Et in Hv.
    - apply in_map_iff in Ht.
      destruct Ht as (m & <- & Hm). apply Hv. rewrite <- E in Hm.
      unfold non_system_of in Hm. now apply filter_In in Hm. }
  destruct all_ts as [|x rest] eqn:Eall.
  - rewrite Hs, Hf, Hl. auto.
  - destruct (min_dt (x :: rest)) as [f|] eqn:Ef; [|discriminate].
    destruct (max_dt (x :: rest)) as [l|] eqn:El; [|discriminate].
    destruct (min_dt_spec _ _ Ef) as [Hfin Hfle].
    destruct (max_dt_spec _ _ El) as [Hlin Hlle].
    exists f, l. rewrite Hs, Hf, Hl.
    repeat split; auto.
    apply dt_leb_seconds; auto.
Qed.

Lemma time_span_witness :
  exists r,
    stats_for_messages default_config scenario_msgs [$"Bob"] [] = Some r
    /\ Forall (fun m => valid_datetime (ts_of m) = true) scenario_msgs
    /\ exists f l,
         first_ts r = Some f /\ last_ts r = Some l
         /\ dt_leb f l = true
         /\ span_sec r = Some (inject_Z (seconds_between l f))
         /\ (0 <= seconds_between l f)%Z.
Proof.
  eexists. split; [vm_compute; reflexivity|].
  assert (Hv : Forall (fun m => valid_datetime (ts_of m) = true)
                      scenario_msgs) by (repeat constructor).
  split; [exact Hv|].
  assert (H := time_span default_config scenario_msgs [$"Bob"] [] _
                         eq_refl Hv).
  cbv zeta in H. simpl non_system_of in H. cbv iota in H.
  destruct H as (f & l & Hf & Hl & _ & Hin & Hall & Hs & Hpos).
  exists f, l. repeat split; trivial. exact (proj1 (Hall l Hin)).
Defined.

(** ** Averages and medians stay between the samples *)

Lemma Qsum_from (xs : list Q) (a : Q) :
  (fold_left Qplus xs a == a + Qsum xs)%Q.
Proof.
  unfold Qsum. revert a. induction xs as [|x xs IH]; intros a; simpl.
  - lra.
  - rewrite (IH (a + x)%Q), (IH (0 + x)%Q). lra.
Qed.

Lemma Qsum_cons (x : Q) (xs : list Q) : (Qsum (x :: xs) == x + Qsum xs)%Q.
Proof.
  unfold Qsum at 1. simpl. rewrite (Qsum_from xs (0 + x)%Q). lra.
Qed.

Lemma inject_length_cons (T : Type) (x : T) (xs : list T) :
  (inject_Z (Z.of_nat (length (x :: xs)))
   == inject_Z (Z.of_nat (length xs)) + 1)%Q.
Proof.
  simpl length. rewrite Nat2Z.inj_succ. unfold Z.succ.
  rewrite inject_Z_plus. reflexivity.
Qed.

Lemma Qsum_bounds (lo hi : Q) (xs : list Q) :
  Forall (fun x => lo <= x /\ x <= hi)%Q xs ->
  (inject_Z (Z.of_nat (length xs)) * lo <= Qsum xs
   /\ Qsum xs <= inject_Z (Z.of_nat (length xs)) * hi)%Q.
Proof.
  induction 1 as [|x xs [Hlo Hhi] _ [IH1 IH2]].
  - cbn [length Z.of_nat]. change (inject_Z 0) with 0%Q.
    unfold Qsum. simpl. lra.
  - rewrite Qsum_cons, inject_length_cons. nra.
Qed.

Lemma avg_bounds (lo hi q : Q) (xs : list Q) :
  Forall (fun x => lo <= x /\ x <= hi)%Q xs ->
  avg xs = Some q -> (lo <= q /\ q <= hi)%Q.
Proof.
  intros Hb H. destruct (Qsum_bounds lo hi xs Hb) as [H1 H2].
  destruct xs as [|x xs]; [discriminate|].
  unfold avg in H. inversion H; subst q; clear H.
  set (n := inject_Z (Z.of_nat (length (x :: xs)))) in *.
  assert (Hn : (0 < n)%Q).
  { unfold n. rewrite <- (Zlt_Qlt 0). simpl length. lia. }
  split.
  - apply Qle_shift_div_l; trivial. now rewrite Qmult_comm.
  - apply Qle_shift_div_r; trivial. now rewrite Qmult_comm.
Qed.

Lemma median_bounds (lo hi q : Q) (xs : list Q) :
  Forall (fun x => lo <= x /\ x <= hi)%Q xs ->
  median xs = Some q -> (lo <= q /\ q <= hi)%Q.
Proof.
  intros Hb H.
  assert (Hs : Forall (fun x => lo <= x /\ x <= hi)%Q (sorted_by Qle_bool xs)).
  { eapply Permutation_Forall; [apply sorted_by_perm | exact Hb]. }
  assert (Hlen : length (sorted_by Qle_bool xs) = length xs)
    by apply sorted_by_length.
  rewrite Forall_forall in Hs.
  destruct xs as [|x xs]; [discriminate|].
  unfold median in H. cbv zeta in H. rewrite Hlen in H.
  set (n := length (x :: xs)) in *.
  assert (Hn : 0 < n) by (unfold n; simpl; lia).
  assert (Hmid : n / 2 < n) by (apply Nat.div_lt; lia).
  assert (Hin : forall i, i < n ->
            (lo <= nth i (sorted_by Qle_bool (x :: xs)) 0
             /\ nth i (sorted_by Qle_bool (x :: xs)) 0 <= hi)%Q).
  { intros i Hi. apply Hs. apply nth_In. now rewrite Hlen. }
  destruct (Hin (n / 2) Hmid) as [A1 A2].
  destruct (Hin (n / 2 - 1)) as [B1 B2]; [lia|].
  remember (nth (n / 2) (sorted_by Qle_bool (x :: xs)) 0%Q) as a.
  remember (nth (n / 2 - 1) (sorted_by Qle_bool (x :: xs)) 0%Q) as b.
  destruct (n mod 2 =? 1)%nat; injection H as Hq; rewrite <- Hq;
    split; lra.
Qed.

(** ** The reaction times *)

Lemma upper_bound (xs : list Q) : exists hi, Forall (fun x => x <= hi)%Q xs.
Proof.
  induction xs as [|x xs [hi IH]].
  - exists 0%Q. constructor.
  - destruct (Qlt_le_dec hi x) as [H|H].
    + exists x. constructor; [apply Qle_refl|].
      eapply Forall_impl; [|exact IH]. intros y Hy. simpl in Hy. lra.
    + exists hi. now constructor.
Qed.

Lemma filter_disjoint_length (T : Type) (f g : T -> bool) (l : list T) :
  (forall x, f x = true -> g x = false) ->
  length (filter f l) + length (filter g l) <= length l.
Proof.
  intros H. induction l as [|x l IH]; simpl; [lia|].
  destruct (f x) eqn:E.
  - rewrite (H x E). simpl. lia.
  - destruct (g x); simpl; lia.
Qed.

Lemma adjacent_length (T : Type) (l : list T) :
  length (adjacent l) = length l - 1.
Proof.
  unfold adjacent. rewrite length_combine.
  destruct l as [|x l]; [reflexivity|].
  cbn [tl length]. rewrite Nat.min_r by lia. lia.
Qed.

(** The samples of the two lists: elapsed times of adjacent pairs of the
    sorted sequence, not negative and within the cutoff. *)
Lemma reactions_samples (cfg : Config) (names : list str)
      (ns : list Message) :
  Forall (fun m => valid_datetime (ts_of m) = true) ns ->
  let rs := reactions cfg names (sort_by_ts ns) in
  let ok x := (0 <= x)%Q /\ within_cutoff cfg x = true in
  Forall ok (fst rs) /\ Forall ok (snd rs)
  /\ length (fst rs) + length (snd rs) <= length ns - 1.
Proof.
  intros Hv rs ok. subst rs. unfold reactions.
  rewrite reactions_from by (apply sorted_pairs_elapsed; exact Hv).
  simpl fst. simpl snd.
  assert (Hok : forall f : Message * Message -> bool,
            Forall ok (map pair_elapsed
                         (filter (fun pc => f pc
                                            && within_cutoff cfg
                                                 (pair_elapsed pc))
                                 (adjacent (sort_by_ts ns))))).
  { intros f. apply Forall_forall. intros x Hx.
    apply in_map_iff in Hx. destruct Hx as ([p c] & <- & Hpc).
    apply filter_In in Hpc. destruct Hpc as [Hin Hf].
    apply andb_prop in Hf. destruct Hf as [_ Hw].
    split; [|exact Hw].
    apply Qle_bool_iff. apply (sorted_pairs_elapsed ns Hv p c Hin). }
  split; [apply Hok|]. split; [apply Hok|].
  rewrite !length_map.
  etransitivity; [apply filter_disjoint_length|].
  - intros [p c] H. apply andb_prop in H. destruct H as [H _].
    unfold me_reacts, they_react in *. simpl in *.
    destruct (member (sender_of p) names),
      (member (sender_of c) names); simpl in *; congruence.
  - rewrite adjacent_length. unfold sort_by_ts.
    now rewrite sorted_by_length.
Qed.

Lemma ok_bounds (cfg : Config) (xs : list Q) :
  Forall (fun x => (0 <= x)%Q /\ within_cutoff cfg x = true) xs ->
  exists hi,
    Forall (fun x => 0 <= x /\ x <= hi)%Q xs
    /\ forall cutoff, REACTION_CUTOFF_SEC cfg = Some cutoff ->
         xs <> [] -> (hi <= cutoff)%Q.
Proof.
  intros H. unfold within_cutoff in H.
  destruct (REACTION_CUTOFF_SEC cfg) as [c|].
  - exists c. split.
    + eapply Forall_impl; [|exact H]. intros x [H0 Hc].
      apply Qle_bool_iff in Hc. auto.
    + intros c' E _. inversion E. apply Qle_refl.
  - destruct (upper_bound xs) as [hi Hhi]. exists hi. split.
    + rewrite Forall_forall in *. intros x Hx.
      split; [apply H, Hx | apply Hhi, Hx].
    + discriminate.
Qed.

(** X7.  The two reaction lists hold together fewer samples than there are
    qualifying messages (one at most for each pair of neighbours), and no
    sample at all when no message qualifies; every reported average and
    median is a time that is not negative and does not exceed the
    configured cutoff. *)
Theorem reaction_bounds (cfg : Config) (msgs : list Message)
        (names : list str) (lbl : str) (r : StatisticsResult) :
  stats_for_messages cfg msgs names lbl = Some r ->
  Forall (fun m => valid_datetime (ts_of m) = true) msgs ->
  (total_msgs r = 0 -> me_react_n r = 0 /\ them_react_n r = 0)
  /\ (0 < total_msgs r -> me_react_n r + them_react_n r < total_msgs r)
  /\ forall q,
       In (Some q) [me_react_avg r; me_react_med r;
                    them_react_avg r; them_react_med r] ->
       (0 <= q)%Q
       /\ forall cutoff, REACTION_CUTOFF_SEC cfg = Some cutoff ->
                         (q <= cutoff)%Q.
Proof.
  intros H Hv. apply stats_fields in H. cbv zeta in H.
  destruct H as (_ & _ & _ & _ & _ & _ & _ & Ht & _ & _ & _ & _
                 & Hma & Hmm & Hmn & Hta & Htm & Htn & _).
  destruct (reactions_samples cfg
              (snd (determine_me names
                      (Counter (map sender_of (non_system_of msgs)))))
              (non_system_of msgs) (non_system_valid msgs Hv))
    as (Hme & Hthem & Hlen).
  split; [rewrite Hmn, Htn, Ht; lia|].
  split; [rewrite Hmn, Htn, Ht; lia|].
  destruct (ok_bounds cfg _ Hme) as (hi1 & B1 & C1).
  destruct (ok_bounds cfg _ Hthem) as (hi2 & B2 & C2).
  assert (Hcase : forall (xs : list Q) (hi q : Q) (o : option Q),
            Forall (fun x => 0 <= x /\ x <= hi)%Q xs ->
            (forall cutoff, REACTION_CUTOFF_SEC cfg = Some cutoff ->
               xs <> [] -> (hi <= cutoff)%Q) ->
            (o = avg xs \/ o = median xs) -> Some q = o ->
            (0 <= q)%Q
            /\ forall cutoff, REACTION_CUTOFF_SEC cfg = Some cutoff ->
                              (q <= cutoff)%Q).
  { intros xs hi q o B C Ho Hq.
    assert (Hb : (0 <= q /\ q <= hi)%Q).
    { destruct Ho as [-> | ->]; symmetry in Hq.
      - now apply (avg_bounds 0 hi q xs).
      - now apply (median_bounds 0 hi q xs). }
    assert (Hne : xs <> []).
    { intros ->. destruct Ho as [-> | ->]; discriminate. }
    split; [tauto|]. intros c Hc. specialize (C c Hc Hne). lra. }
  intros q [E|[E|[E|[E|[]]]]]; symmetry in E.
  - apply (Hcase _ hi1 q _ B1 C1 (or_introl Hma) E).
  - apply (Hcase _ hi1 q _ B1 C1 (or_intror Hmm) E).
  - apply (Hcase _ hi2 q _ B2 C2 (or_introl Hta) E).
  - apply (Hcase _ hi2 q _ B2 C2 (or_intror Htm) E).
Qed.

Lemma reaction_bounds_witness :
  exists r,
    stats_for_messages default_config scenario_msgs [$"Bob"] [] = Some r
    /\ Forall (fun m => valid_datetime (ts_of m) = true) scenario_msgs
    /\ 0 < total_msgs r
    /\ me_react_n r + them_react_n r < total_msgs r.
Proof.
  eexists. split; [vm_compute; reflexivity|].
  assert (Hv : Forall (fun m => valid_datetime (ts_of m) = true)
                      scenario_msgs) by (repeat constructor).
  split; [exact Hv|].
  assert (Hpos : 0 < 3) by lia.
  split; [exact Hpos|].
  exact (proj1 (proj2 (reaction_bounds default_config scenario_msgs
                         [$"Bob"] [] _ eq_refl Hv)) Hpos).
Defined.

(** ** [most_common]: the ranking *)

Lemma StronglySorted_impl (T : Type) (R R' : T -> T -> Prop) (l : list T) :
  (forall x y, R x y -> R' x y) ->
  StronglySorted R l -> StronglySorted R' l.
Proof.
  intros H. induction 1 as [|x l Hs IH Hall]; constructor; trivial.
  eapply Forall_impl; [|exact Hall]. intros y. apply H.
Qed.

Lemma StronglySorted_firstn (T : Type) (R : T -> T -> Prop) (n : nat)
      (l : list T) :
  StronglySorted R l -> StronglySorted R (firstn n l).
Proof.
  intros H. revert n. induction H as [|x l Hs IH Hall]; intros [|n]; simpl;
    try constructor; trivial.
  rewrite Forall_forall in *. intros y Hy. apply Hall.
  rewrite <- (firstn_skipn n l). apply in_or_app. now left.
Qed.

Lemma StronglySorted_app (T : Type) (R : T -> T -> Prop) (l1 l2 : list T) :
  StronglySorted R (l1 ++ l2) ->
  forall x y, In x l1 -> In y l2 -> R x y.
Proof.
  induction l1 as [|a l1 IH]; simpl; intros H x y Hx Hy; [destruct Hx|].
  inversion H as [|? ? Hs Hall]; subst.
  destruct Hx as [<-|Hx].
  - rewrite Forall_forall in Hall. apply Hall. apply in_or_app. now right.
  - now apply IH.
Qed.

Lemma sorted_descending (c : counter) :
  StronglySorted (fun x y => snd y <= snd x)
                 (sorted_by (fun x y => (snd y <=? snd x)%nat) c).
Proof.
  apply (StronglySorted_impl _
           (fun x y : str * nat => (snd y <=? snd x)%nat = true)).
  - intros x y H. now apply Nat.leb_le.
  - apply Sorted_StronglySorted.
    + intros x y z H1 H2. apply Nat.leb_le in H1, H2. apply Nat.leb_le. lia.
    + apply sorted_by_sorted. intros x y H.
      apply Nat.leb_gt in H. apply Nat.leb_le. lia.
Qed.

Lemma most_common_spec (n : nat) (l : list str) :
  let mc := most_common n (Counter l) in
  length mc <= n
  /\ NoDup (keys mc)
  /\ (forall k c, In (k, c) mc ->
        c = count_occ str_dec l k /\ 1 <= c)
  /\ StronglySorted (fun x y => snd y <= snd x) mc
  /\ (forall k, In k l ->
        In (k, count_occ str_dec l k) mc
        \/ (length mc = n
            /\ forall e, In e mc -> count_occ str_dec l k <= snd e)).
Proof.
  intros mc. subst mc. unfold most_common.
  set (le := fun x y : str * nat => (snd y <=? snd x)%nat).
  set (sorted := sorted_by le (Counter l)).
  assert (Hperm : Permutation (Counter l) sorted)
    by apply sorted_by_perm.
  assert (Hsplit := firstn_skipn n sorted).
  assert (Hsub : forall e, In e (firstn n sorted) -> In e (Counter l)).
  { intros e He. apply (Permutation_in _ (Permutation_sym Hperm)).
    rewrite <- Hsplit. apply in_or_app. now left. }
  split; [|split; [|split; [|split]]].
  - rewrite length_firstn. lia.
  - assert (Hnd : NoDup (keys sorted)).
    { apply (Permutation_NoDup (l := keys (Counter l))).
      - unfold keys. now apply Permutation_map.
      - rewrite Counter_keys. apply new_keys_NoDup. }
    rewrite <- Hsplit in Hnd. unfold keys in *. rewrite map_app in Hnd.
    now apply NoDup_app_remove_r in Hnd.
  - intros k c H. apply Hsub in H.
    destruct (Counter_entry l k c H) as [Hc Hin]. split; trivial.
    rewrite Hc. now apply (count_occ_In str_dec).
  - apply StronglySorted_firstn, sorted_descending.
  - intros k Hk. apply Counter_has in Hk.
    apply (Permutation_in _ Hperm) in Hk. rewrite <- Hsplit in Hk.
    apply in_app_or in Hk. destruct Hk as [Hk|Hk]; [now left|]. right.
    split.
    + rewrite length_firstn. apply Nat.min_l.
      destruct (Nat.le_gt_cases n (length sorted)) as [H|H]; trivial.
      rewrite skipn_all2 in Hk by lia. destruct Hk.
    + intros e He.
      assert (Hs := sorted_descending (Counter l)).
      fold le in Hs. fold sorted in Hs. rewrite <- Hsplit in Hs.
      apply (StronglySorted_app _ _ _ _ Hs e _ He Hk).
Qed.

(** X8.  [top_senders] lists at most ten senders, each once, with the number
    of qualifying messages of each, the greater numbers first; a sender
    that is not listed has no more messages than any listed one. *)
Theorem top_senders_ranking (cfg : Config) (msgs : list Message)
        (names : list str) (lbl : str) (r : StatisticsResult) :
  stats_for_messages cfg msgs names lbl = Some r ->
  let count s :=
    count_occ str_dec (map sender_of (non_system_of msgs)) s in
  length (top_senders r) <= 10
  /\ NoDup (keys (top_senders r))
  /\ (forall s n, In (s, n) (top_senders r) -> n = count s /\ 1 <= n)
  /\ StronglySorted (fun x y => snd y <= snd x) (top_senders r)
  /\ (forall m, In m (non_system_of msgs) ->
        In (sender_of m, count (sender_of m)) (top_senders r)
        \/ (length (top_senders r) = 10
            /\ forall e, In e (top_senders r) ->
                         count (sender_of m) <= snd e)).
Proof.
  intros H count. apply stats_fields in H. cbv zeta in H.
  destruct H as (_ & _ & _ & _ & _ & _ & _ & _ & _ & _ & _ & _
                 & _ & _ & _ & _ & _ & _ & Hs).
  rewrite Hs.
  destruct (most_common_spec 10 (map sender_of (non_system_of msgs)))
    as (H1 & H2 & H3 & H4 & H5).
  repeat split; trivial; try (now apply H3 in H).
  intros m Hm. apply H5. now apply in_map.
Qed.

Lemma top_senders_ranking_witness :
  exists r,
    stats_for_messages default_config scenario_msgs [$"Bob"] [] = Some r
    /\ top_senders r = [($"Bob", 2); ($"Alice", 1)]
    /\ NoDup (keys (top_senders r)).
Proof.
  eexists. split; [vm_compute; reflexivity|].
  split; [vm_compute; reflexivity|].
  exact (proj1 (proj2 (top_senders_ranking default_config scenario_msgs
                         [$"Bob"] [] _ eq_refl))).
Defined.

(** ** The words *)

Lemma lower_char_idem (c : ascii) : lower_char (lower_char c) = lower_char c.
Proof.
  destruct c as [b0 b1 b2 b3 b4 b5 b6 b7].
  destruct b0, b1, b2, b3, b4, b5, b6, b7; reflexivity.
Qed.

Lemma findall_from_spec (cur s w : str) :
  forallb is_word_char cur = true ->
  In w (findall_from cur s) ->
  w <> [] /\ forallb is_word_char w = true
  /\ forall c, In c w -> In c cur \/ In c s.
Proof.
  revert cur. induction s as [|x s IH]; intros cur Hcur Hw; simpl in Hw.
  - destruct cur as [|y cur]; [destruct Hw|].
    destruct Hw as [<-|[]]. split; [|split].
    + intros E. apply (f_equal (@length ascii)) in E.
      rewrite length_rev in E. discriminate.
    + now rewrite forallb_rev.
    + intros c Hc. left. now apply in_rev.
  - destruct (is_word_char x) eqn:Ex.
    + destruct (IH (x :: cur)) as (H1 & H2 & H3); trivial.
      { simpl. now rewrite Ex. }
      split; [trivial|]. split; [trivial|].
      intros c Hc. destruct (H3 c Hc) as [[<-|H]|H]; simpl; auto.
    + assert (Hrest : In w (findall_from [] s) ->
                w <> [] /\ forallb is_word_char w = true
                /\ forall c, In c w -> In c cur \/ In c (x :: s)).
      { intros H. destruct (IH [] eq_refl H) as (H1 & H2 & H3).
        split; [trivial|]. split; [trivial|].
        intros c Hc. destruct (H3 c Hc) as [[]|H']. right. now right. }
      destruct cur as [|y cur]; [now apply Hrest|].
      destruct Hw as [<-|Hw]; [|now apply Hrest].
      split; [|split].
      * intros E. apply (f_equal (@length ascii)) in E.
        rewrite length_rev in E. discriminate.
      * now rewrite forallb_rev.
      * intros c Hc. left. now apply in_rev.
Qed.

Lemma findall_words_lower (s w : str) :
  In w (findall_words (lower s)) ->
  w <> [] /\ forallb is_word_char w = true /\ lower w = w.
Proof.
  intros H. destruct (findall_from_spec [] (lower s) w eq_refl H)
    as (H1 & H2 & H3).
  split; [trivial|]. split; [trivial|].
  unfold lower. rewrite <- (map_id w) at 2. apply map_ext_in.
  intros c Hc. destruct (H3 c Hc) as [[]|Hin].
  unfold lower in Hin. apply in_map_iff in Hin.
  destruct Hin as (c' & <- & _). apply lower_char_idem.
Qed.

(** X9.  [top_words] lists at most [TOP_WORDS] words with the number of times
    each occurs in the texts of the qualifying messages; every word is a
    non-empty run of letters of [WORD_RE], in lower case. *)
Theorem top_words_are_words (cfg : Config) (msgs : list Message)
        (names : list str) (lbl : str) (r : StatisticsResult) :
  stats_for_messages cfg msgs names lbl = Some r ->
  let words :=
    findall_words (lower (join $" " (map text (non_system_of msgs)))) in
  length (top_words r) <= TOP_WORDS cfg
  /\ forall w n, In (w, n) (top_words r) ->
       w <> [] /\ forallb is_word_char w = true /\ lower w = w
       /\ n = count_occ str_dec words w /\ 1 <= n.
Proof.
  intros H words. apply stats_fields in H. cbv zeta in H.
  destruct H as (_ & _ & _ & _ & _ & _ & _ & _ & _ & _ & Hw & _).
  fold words in Hw. rewrite Hw.
  destruct (most_common_spec (TOP_WORDS cfg) words) as (H1 & _ & H3 & _).
  split; [exact H1|]. intros w n Hin.
  destruct (H3 w n Hin) as [Hn Hpos].
  assert (Hin' : In w words).
  { apply (count_occ_In str_dec). lia. }
  destruct (findall_words_lower _ w Hin') as (A & B & C).
  auto.
Qed.

Lemma top_words_are_words_witness :
  exists r,
    stats_for_messages default_config scenario_msgs [$"Bob"] [] = Some r
    /\ In ($"hello", 1) (top_words r)
    /\ lower $"hello" = $"hello".
Proof.
  eexists. split; [vm_compute; reflexivity|].
  assert (Hin : In ($"hello", 1)
                   [($"hello", 1); ($"hi", 1); ($"there", 1); ($"how", 1);
                    ($"are", 1); ($"you", 1)]) by (now left).
  split; [exact Hin|].
  exact (proj1 (proj2 (proj2 (proj2 (top_words_are_words default_config
           scenario_msgs [$"Bob"] [] _ eq_refl) $"hello" 1 Hin)))).
Defined.

(** ** Statistics of a concatenation *)

Lemma determine_me_names (names : list str) (c : counter) :
  names <> [] -> determine_me names c = (None, names).
Proof. destruct names; [congruence | reflexivity]. Qed.

Lemma hour_counts_app (j : nat) (a b : list Message) :
  nth j (hour_counts_of (a ++ b)) 0
  = nth j (hour_counts_of a) 0 + nth j (hour_counts_of b) 0.
Proof.
  destruct (Nat.lt_ge_cases j 24) as [Hj|Hj].
  - rewrite !hour_counts_nth by exact Hj.
    now rewrite filter_app, length_app.
  - assert (Hl : forall ms, length (hour_counts_of ms) = 24).
    { intros ms. unfold hour_counts_of.
      rewrite hour_fold_length. apply repeat_length. }
    rewrite !nth_overflow by (rewrite Hl; exact Hj). reflexivity.
Qed.

Lemma stats_defined (cfg : Config) (msgs : list Message) (names : list str)
      (lbl : str) :
  forallb has_ts (non_system_of msgs) = true ->
  exists r, stats_for_messages cfg msgs names lbl = Some r.
Proof.
  intros H. unfold stats_for_messages. rewrite H. simpl negb. cbv iota.
  destruct (determine_me _ _) as [g me].
  destruct (reactions _ _ _) as [mr tr]. eauto.
Qed.

Lemma stats_has_ts (cfg : Config) (msgs : list Message) (names : list str)
      (lbl : str) (r : StatisticsResult) :
  stats_for_messages cfg msgs names lbl = Some r ->
  forallb has_ts (non_system_of msgs) = true.
Proof. intros H. now apply stats_fields in H. Qed.

(** The counts of a concatenation, for configured names: what the two
    parts have in common is added up. *)
Lemma counts_app (cfg : Config) (m1 m2 : list Message) (names : list str)
      (l1 l2 l : str) (r1 r2 r : StatisticsResult) :
  names <> [] ->
  stats_for_messages cfg m1 names l1 = Some r1 ->
  stats_for_messages cfg m2 names l2 = Some r2 ->
  stats_for_messages cfg (m1 ++ m2) names l = Some r ->
  total_msgs r = total_msgs r1 + total_msgs r2
  /\ sent r = sent r1 + sent r2
  /\ received r = received r1 + received r2
  /\ forall j, nth j (hour_counts r) 0
               = nth j (hour_counts r1) 0 + nth j (hour_counts r2) 0.
Proof.
  intros Hn H1 H2 H.
  apply stats_fields in H1, H2, H. cbv zeta in H1, H2, H.
  rewrite determine_me_names in H1, H2, H by exact Hn. simpl snd in *.
  destruct H1 as (_ & _ & _ & _ & _ & _ & _ & T1 & S1 & R1 & _ & C1 & _).
  destruct H2 as (_ & _ & _ & _ & _ & _ & _ & T2 & S2 & R2 & _ & C2 & _).
  destruct H as (_ & _ & _ & _ & _ & _ & _ & T & S & R & _ & C & _).
  rewrite non_system_of_app in T, S, C.
  rewrite filter_app in S. rewrite length_app in T, S.
  assert (L1 := filter_length_le
                  (fun m => member (sender_of m) names) (non_system_of m1)).
  assert (L2 := filter_length_le
                  (fun m => member (sender_of m) names) (non_system_of m2)).
  split; [lia|]. split; [lia|]. split; [lia|].
  intros j. rewrite C, C1, C2. apply hour_counts_app.
Qed.

(** X10.  For configured names, the engine does not fail on the concatenation
    of two sequences on which it does not fail, and the number of
    messages, of messages sent and received and the hourly counts of the
    concatenation are the sums of those of the parts. *)
Theorem stats_additive (cfg : Config) (m1 m2 : list Message)
        (names : list str) (l1 l2 l : str) (r1 r2 : StatisticsResult) :
  names <> [] ->
  stats_for_messages cfg m1 names l1 = Some r1 ->
  stats_for_messages cfg m2 names l2 = Some r2 ->
  exists r,
    stats_for_messages cfg (m1 ++ m2) names l = Some r
    /\ total_msgs r = total_msgs r1 + total_msgs r2
    /\ sent r = sent r1 + sent r2
    /\ received r = received r1 + received r2
    /\ forall j, nth j (hour_counts r) 0
                 = nth j (hour_counts r1) 0 + nth j (hour_counts r2) 0.
Proof.
  intros Hn H1 H2.
  destruct (stats_defined cfg (m1 ++ m2) names l) as [r Hr].
  { rewrite non_system_of_app, forallb_app.
    now rewrite (stats_has_ts _ _ _ _ _ H1), (stats_has_ts _ _ _ _ _ H2). }
  exists r. split; [exact Hr|].
  now apply (counts_app cfg m1 m2 names l1 l2 l).
Qed.

Lemma stats_additive_witness :
  exists r1 r,
    [$"Bob"] <> []
    /\ stats_for_messages default_config scenario_msgs [$"Bob"] [] = Some r1
    /\ stats_for_messages default_config (scenario_msgs ++ scenario_msgs)
                          [$"Bob"] [] = Some r
    /\ total_msgs r = total_msgs r1 + total_msgs r1.
Proof.
  assert (Hn : [$"Bob"] <> []) by discriminate.
  destruct (stats_additive default_config scenario_msgs scenario_msgs
              [$"Bob"] [] [] [] _ _ Hn eq_refl eq_refl)
    as (r & Hr & Ht & _).
  eexists. exists r. split; [exact Hn|]. split; [reflexivity|].
  split; [exact Hr | exact Ht].
Defined.

(** ** [main]: the reports *)

Lemma parse_chat_text_has_ts (content : str) :
  forallb has_ts (parse_chat_text content) = true.
Proof.
  unfold parse_chat_text. apply forallb_forall. intros m Hm.
  now apply filter_In in Hm.
Qed.

Lemma non_system_has_ts (msgs : list Message) :
  forallb has_ts msgs = true -> forallb has_ts (non_system_of msgs) = true.
Proof.
  rewrite !forallb_forall. intros H m Hm. apply H.
  unfold non_system_of in Hm. now apply filter_In in Hm.
Qed.

(** The statistics of a file, as [main] asks for them. *)
Lemma file_stats_defined (cfg : Config) (file : str * str) :
  exists st,
    stats_for_messages cfg (parse_chat_text (snd file)) MY_NAMES
                       ($"FILE: " ++ basename (fst file)) = Some st.
Proof.
  apply stats_defined, non_system_has_ts, parse_chat_text_has_ts.
Qed.

Lemma main_loop (cfg : Config) (files : list (str * str))
      (all_messages : list Message) (per_file_stats : list StatisticsResult) :
  exists per,
    fold_left (main_step cfg) files (Some (all_messages, per_file_stats))
    = Some (all_messages
              ++ concat (map (fun f => parse_chat_text (snd f)) files),
            per_file_stats ++ per)
    /\ Forall2 (fun f st =>
                  stats_for_messages cfg (parse_chat_text (snd f)) MY_NAMES
                                     ($"FILE: " ++ basename (fst f))
                  = Some st) files per.
Proof.
  revert all_messages per_file_stats.
  induction files as [|[path content] files IH]; intros all_messages per0.
  - exists []. simpl. rewrite !app_nil_r. split; [reflexivity | constructor].
  - destruct (file_stats_defined cfg (path, content)) as [st Hst].
    cbn [fst snd] in Hst. cbn [fold_left]. unfold main_step at 2. cbv iota beta zeta.
    rewrite Hst.
    destruct (IH (all_messages ++ parse_chat_text content) (per0 ++ [st]))
      as (per & Hfold & Hall).
    exists (st :: per). split.
    + rewrite Hfold. simpl. now rewrite <- !app_assoc.
    + constructor; trivial.
Qed.

Lemma concat_has_ts (files : list (str * str)) :
  forallb has_ts (concat (map (fun f => parse_chat_text (snd f)) files))
  = true.
Proof.
  induction files as [|f files IH]; simpl; trivial.
  now rewrite forallb_app, parse_chat_text_has_ts.
Qed.

(** What [main] has reported, when it has. *)
Lemma main_reports (cfg : Config) (fs : Folder)
      (per_file_stats : list StatisticsResult)
      (total_stats : StatisticsResult) :
  main cfg fs = Reports per_file_stats total_stats ->
  Forall2 (fun f st =>
             stats_for_messages cfg (parse_chat_text (snd f)) MY_NAMES
                                ($"FILE: " ++ basename (fst f))
             = Some st) (txt_files fs) per_file_stats
  /\ stats_for_messages cfg
       (concat (map (fun f => parse_chat_text (snd f)) (txt_files fs)))
       MY_NAMES $"TOTAL (ALL FILES)" = Some total_stats.
Proof.
  unfold main. destruct (isdir fs); simpl negb; cbv iota; [|discriminate].
  destruct (txt_files fs) as [|f files] eqn:E; [discriminate|].
  destruct (main_loop cfg (f :: files) [] []) as (per & -> & Hall).
  rewrite !app_nil_l.
  destruct (stats_for_messages cfg
              (concat (map (fun f => parse_chat_text (snd f)) (f :: files)))
              MY_NAMES $"TOTAL (ALL FILES)") as [total|]; [|discriminate].
  intros H. inversion H; subst. split; [exact Hall | reflexivity].
Qed.

(** X11.  [main] never ends with an exception of the engine, whatever the
    files hold.  It exits with status 1 when the folder is no directory
    and with status 0 when it has no text file; otherwise it reports the
    statistics of the messages of each file, in order, and then the
    statistics of the messages of all the files together. *)
Theorem main_outcome (cfg : Config) (fs : Folder) :
  match main cfg fs with
  | Exit status =>
      (isdir fs = false /\ status = 1)
      \/ (isdir fs = true /\ txt_files fs = [] /\ status = 0)
  | Reports per_file_stats total_stats =>
      isdir fs = true /\ txt_files fs <> []
      /\ Forall2 (fun f st =>
                    stats_for_messages cfg (parse_chat_text (snd f)) MY_NAMES
                                       ($"FILE: " ++ basename (fst f))
                    = Some st) (txt_files fs) per_file_stats
      /\ stats_for_messages cfg
           (concat (map (fun f => parse_chat_text (snd f)) (txt_files fs)))
           MY_NAMES $"TOTAL (ALL FILES)" = Some total_stats
  | Raised => False
  end.
Proof.
  unfold main. destruct (isdir fs); simpl negb; cbv iota; [|now left].
  destruct (txt_files fs) as [|f files] eqn:E; [right; auto|].
  destruct (main_loop cfg (f :: files) [] []) as (per & -> & Hall).
  rewrite !app_nil_l.
  destruct (stats_defined cfg
              (concat (map (fun f => parse_chat_text (snd f)) (f :: files)))
              MY_NAMES $"TOTAL (ALL FILES)") as [total Ht].
  { apply non_system_has_ts, concat_has_ts. }
  rewrite Ht. split; [reflexivity|]. split; [discriminate|].
  split; [exact Hall | reflexivity].
Qed.

Lemma counts_concat (cfg : Config) (names : list str) (lbl : str)
      (mss : list (list Message)) (per : list StatisticsResult)
      (total : StatisticsResult) :
  names <> [] ->
  Forall2 (fun ms st => exists l, stats_for_messages cfg ms names l = Some st)
          mss per ->
  stats_for_messages cfg (concat mss) names lbl = Some total ->
  total_msgs total = list_sum (map total_msgs per)
  /\ sent total = list_sum (map sent per)
  /\ received total = list_sum (map received per)
  /\ forall j, nth j (hour_counts total) 0
               = list_sum (map (fun st => nth j (hour_counts st) 0) per).
Proof.
  intros Hn Hall. revert total.
  induction Hall as [|ms st mss per [l Hst] Hall IH]; intros total Ht.
  - simpl in Ht. apply stats_fields in Ht. cbv zeta in Ht.
    destruct Ht as (_ & _ & _ & _ & _ & _ & _ & T & S & R & _ & C & _).
    change (non_system_of []) with (@nil Message) in *.
    cbn [filter length] in T, S. rewrite R, T, S, C.
    split; [reflexivity|]. split; [reflexivity|]. split; [reflexivity|].
    intros j. change (hour_counts_of []) with (repeat 0 24).
    cbn [map list_sum].
    destruct (Nat.lt_ge_cases j 24) as [Hj|Hj].
    + apply nth_repeat.
    + apply nth_overflow. now rewrite repeat_length.
  - simpl concat in Ht.
    destruct (stats_defined cfg (concat mss) names lbl) as [rest Hrest].
    { apply stats_has_ts in Ht. rewrite non_system_of_app, forallb_app in Ht.
      apply andb_prop in Ht. tauto. }
    destruct (counts_app cfg ms (concat mss) names l lbl lbl st rest total
                         Hn Hst Hrest Ht) as (A & B & C & D).
    destruct (IH rest Hrest) as (A' & B' & C' & D').
    simpl. rewrite A, B, C, A', B', C'. repeat split.
    intros j. now rewrite D, D'.
Qed.

(** X12.  In the reports of [main], the total number of messages, of messages
    sent and received, and each hourly count are the sums of those of
    the files. *)
Theorem main_totals (cfg : Config) (fs : Folder)
        (per_file_stats : list StatisticsResult)
        (total_stats : StatisticsResult) :
  main cfg fs = Reports per_file_stats total_stats ->
  total_msgs total_stats = list_sum (map total_msgs per_file_stats)
  /\ sent total_stats = list_sum (map sent per_file_stats)
  /\ received total_stats = list_sum (map received per_file_stats)
  /\ forall j, nth j (hour_counts total_stats) 0
               = list_sum (map (fun st => nth j (hour_counts st) 0)
                               per_file_stats).
Proof.
  intros H. destruct (main_reports cfg fs _ _ H) as (Hall & Ht).
  apply (counts_concat cfg MY_NAMES $"TOTAL (ALL FILES)"
           (map (fun f => parse_chat_text (snd f)) (txt_files fs)));
    trivial; [discriminate|].
  clear - Hall. induction Hall as [|f st files per Hst Hall IH]; simpl.
  - constructor.
  - constructor; [eauto | exact IH].
Qed.

Lemma main_totals_witness :
  exists per total,
    main default_config two_chats = Reports per total
    /\ total_msgs total = list_sum (map total_msgs per).
Proof.
  assert (E : exists per total,
            main default_config two_chats = Reports per total)
    by (eexists; eexists; vm_compute; reflexivity).
  destruct E as (per & total & E). exists per, total.
  split; [exact E|].
  exact (proj1 (main_totals default_config two_chats per total E)).
Defined.

(** ** Names that no sender can have *)

Lemma member_colon (names : list str) (s : str) :
  Forall (fun n => In ":" n) names ->
  forallb not_colon s = true -> member s names = false.
Proof.
  intros Hn Hs. apply member_false. intros Hin.
  rewrite Forall_forall in Hn. specialize (Hn s Hin).
  rewrite forallb_forall in Hs. specialize (Hs ":" Hn). discriminate.
Qed.

(** ** Names that no sender can have *)

Lemma sender_not_member (names : list str) (m : Message) :
  Forall (fun n => In ":" n) names ->
  well_formed m -> member (sender_of m) names = false.
Proof.
  intros Hn Hm. apply member_colon; trivial.
  unfold well_formed in Hm. unfold sender_of.
  destruct (sender m) as [s|]; [tauto | reflexivity].
Qed.

Lemma reactions_nobody (cfg : Config) (names : list str)
      (l : list Message) :
  (forall m, In m l -> member (sender_of m) names = false) ->
  reactions cfg names l = ([], []).
Proof.
  intros H. unfold reactions.
  assert (G : forall pairs acc,
            (forall p c, In (p, c) pairs ->
               member (sender_of p) names = false
               /\ member (sender_of c) names = false) ->
            fold_left (react_step cfg names) pairs acc = acc).
  { induction pairs as [|[p c] pairs IH]; intros acc Hp; simpl; trivial.
    destruct (Hp p c (or_introl eq_refl)) as [H1 H2]. rewrite H1, H2.
    simpl. rewrite IH by (intros p' c' Hin; apply Hp; now right).
    destruct (negb (Qle_bool 0 (elapsed p c))); trivial.
    now destruct (negb (within_cutoff cfg (elapsed p c))). }
  apply G. intros p c Hin. unfold adjacent in Hin. split.
  - apply H. now apply in_combine_l in Hin.
  - apply H. apply in_combine_r in Hin.
    destruct l; [destruct Hin | now right].
Qed.

(** The statistics of well-formed messages for names that hold a colon:
    nobody is "me". *)
Lemma stats_nobody (cfg : Config) (msgs : list Message) (names : list str)
      (lbl : str) (r : StatisticsResult) :
  names <> [] -> Forall (fun n => In ":" n) names ->
  Forall well_formed msgs ->
  stats_for_messages cfg msgs names lbl = Some r ->
  sent r = 0 /\ received r = total_msgs r
  /\ me_react_n r = 0 /\ them_react_n r = 0
  /\ me_react_avg r = None /\ them_react_avg r = None.
Proof.
  intros Hne Hn Hwf H. apply stats_fields in H. cbv zeta in H.
  rewrite determine_me_names in H by exact Hne. simpl snd in H.
  destruct H as (_ & _ & _ & _ & _ & _ & _ & T & S & R & _ & _
                 & Hma & _ & Hmn & Hta & _ & Htn & _).
  assert (Hno : forall m, In m (non_system_of msgs) ->
                  member (sender_of m) names = false).
  { intros m Hm. apply sender_not_member; trivial.
    rewrite Forall_forall in Hwf. apply Hwf.
    unfold non_system_of in Hm. now apply filter_In in Hm. }
  assert (Hs : sent r = 0).
  { rewrite S. clear - Hno.
    induction (non_system_of msgs) as [|m ns IH]; [reflexivity|].
    simpl. rewrite (Hno m (or_introl eq_refl)).
    apply IH. intros m' Hm'. apply Hno. now right. }
  assert (Hr : reactions cfg names (sort_by_ts (non_system_of msgs))
               = ([], [])).
  { apply reactions_nobody. intros m Hm. apply Hno. unfold sort_by_ts in Hm.
    apply (Permutation_in _ (Permutation_sym (sorted_by_perm _ _))) in Hm.
    exact Hm. }
  rewrite Hr in Hma, Hmn, Hta, Htn.
  simpl in Hma, Hmn, Hta, Htn. repeat split; trivial. lia.
Qed.

Lemma concat_good (files : list (str * str)) :
  Forall well_formed (concat (map (fun f => parse_chat_text (snd f)) files)).
Proof.
  induction files as [|f files IH]; simpl; [constructor|].
  apply Forall_app. split; trivial.
  eapply Forall_impl; [|apply parse_chat_text_good]. now intros m [H _].
Qed.

(** X13.  The configured name, "Giada :)", holds a colon, and the sender that
    the parser reads from a line holds none: in every report of [main] no
    message counts as sent, all count as received, and there is no
    reaction time. *)
Theorem main_sent_nothing (cfg : Config) (fs : Folder)
        (per_file_stats : list StatisticsResult)
        (total_stats : StatisticsResult) :
  main cfg fs = Reports per_file_stats total_stats ->
  Forall (fun st =>
            sent st = 0 /\ received st = total_msgs st
            /\ me_react_n st = 0 /\ them_react_n st = 0
            /\ me_react_avg st = None /\ them_react_avg st = None)
         (per_file_stats ++ [total_stats]).
Proof.
  intros H. destruct (main_reports cfg fs _ _ H) as (Hall & Ht).
  assert (Hne : MY_NAMES <> []) by discriminate.
  assert (Hn : Forall (fun n => In ":" n) MY_NAMES).
  { constructor; [|constructor]. vm_compute. tauto. }
  apply Forall_app. split.
  - clear - Hall Hne Hn. induction Hall as [|f st files per Hst Hall IH];
      constructor; trivial.
    apply (stats_nobody cfg _ MY_NAMES _ st Hne Hn) in Hst; trivial.
    eapply Forall_impl; [|apply parse_chat_text_good]. now intros m [H _].
  - constructor; [|constructor].
    apply (stats_nobody cfg _ MY_NAMES _ total_stats Hne Hn) in Ht; trivial.
    apply concat_good.
Qed.

Lemma main_sent_nothing_witness :
  exists per total,
    main default_config two_chats = Reports per total
    /\ sent total = 0.
Proof.
  assert (E : exists per total,
            main default_config two_chats = Reports per total)
    by (eexists; eexists; vm_compute; reflexivity).
  destruct E as (per & total & E). exists per, total.
  split; [exact E|].
  assert (H := main_sent_nothing default_config two_chats per total E).
  apply Forall_app in H. destruct H as [_ H].
  apply Forall_inv in H. exact (proj1 H).
Defined.

(* ================================================================== *)
(** * Durations: [fmt_td]                                            *)
(* ================================================================== *)

Example fmt_td_examples :
  fmt_td (Some 59%Q) = $"59s" /\ fmt_td (Some (-7200)%Q) = $"-7200s"
  /\ fmt_td (Some (7 # 2)%Q) = $"3s" /\ fmt_td (Some 0%Q) = $"0s"
  /\ fmt_td (Some 21600%Q) = $"6h 0m" /\ fmt_td (Some 172799%Q) = $"47h 59m"
  /\ fmt_td (Some 172800%Q) = $"2d 0h".
Proof. repeat split; vm_compute; reflexivity. Qed.

(** ** Durations *)

Lemma int_of_Q_floor (x : Q) :
  (0 <= x)%Q ->
  (inject_Z (int_of_Q x) <= x /\ x < inject_Z (int_of_Q x) + 1)%Q.
Proof.
  destruct x as [n d]. unfold int_of_Q, Qle, Qlt. simpl. intros H.
  rewrite Z.mul_1_r in H.
  assert (Hd : (0 < Z.pos d)%Z) by lia.
  rewrite (Z.quot_div_nonneg n (Z.pos d)) by lia.
  assert (Hm := Z.div_mod n (Z.pos d)).
  assert (Hr := Z.mod_pos_bound n (Z.pos d) Hd).
  split; nia.
Qed.

(** X14.  [fmt_td] never rounds up and shows two units at most.  With [n] the
    whole seconds of the duration: below one minute (and for every
    negative duration) it shows [n] seconds; below one hour, the minutes
    and seconds of [n]; below 48 hours, its hours and minutes, the
    seconds being dropped; from 48 hours on, its days and hours, the
    minutes being dropped as well.  Without a duration it shows "n/a". *)
Theorem fmt_td_units (x : Q) :
  let n := int_of_Q x in
  ((0 <= x)%Q -> (inject_Z n <= x /\ x < inject_Z n + 1)%Q)
  /\ ((n < 60)%Z -> fmt_td (Some x) = str_of_Z n ++ $"s")
  /\ ((60 <= n < 3600)%Z ->
      exists m s,
        fmt_td (Some x) = str_of_Z m ++ $"m " ++ str_of_Z s ++ $"s"
        /\ (1 <= m < 60 /\ 0 <= s < 60 /\ n = 60 * m + s)%Z)
  /\ ((3600 <= n < 172800)%Z ->
      exists h m,
        fmt_td (Some x) = str_of_Z h ++ $"h " ++ str_of_Z m ++ $"m"
        /\ (1 <= h < 48 /\ 0 <= m < 60
            /\ 3600 * h + 60 * m <= n < 3600 * h + 60 * m + 60)%Z)
  /\ ((172800 <= n)%Z ->
      exists d h,
        fmt_td (Some x) = str_of_Z d ++ $"d " ++ str_of_Z h ++ $"h"
        /\ (2 <= d /\ 0 <= h < 24
            /\ 86400 * d + 3600 * h <= n < 86400 * d + 3600 * h + 3600)%Z)
  /\ fmt_td None = $"n/a".
Proof.
  intros n. split; [apply int_of_Q_floor|].
  unfold fmt_td. fold n. cbv zeta.
  split; [|split; [|split; [|split]]]; try reflexivity.
  - intros H. apply Z.ltb_lt in H. now rewrite H.
  - intros H.
    destruct (Z.ltb_spec n 60); [lia|].
    destruct (Z.ltb_spec (n / 60) 60);
      [|exfalso; Z.div_mod_to_equations; lia].
    exists (n / 60)%Z, (n mod 60)%Z. split; [reflexivity|].
    Z.div_mod_to_equations. lia.
  - intros H.
    destruct (Z.ltb_spec n 60); [lia|].
    destruct (Z.ltb_spec (n / 60) 60);
      [exfalso; Z.div_mod_to_equations; lia|].
    destruct (Z.ltb_spec (n / 60 / 60) 48);
      [|exfalso; Z.div_mod_to_equations; lia].
    exists (n / 60 / 60)%Z, ((n / 60) mod 60)%Z. split; [reflexivity|].
    Z.div_mod_to_equations. lia.
  - intros H.
    destruct (Z.ltb_spec n 60); [lia|].
    destruct (Z.ltb_spec (n / 60) 60);
      [exfalso; Z.div_mod_to_equations; lia|].
    destruct (Z.ltb_spec (n / 60 / 60) 48);
      [exfalso; Z.div_mod_to_equations; lia|].
    exists (n / 60 / 60 / 24)%Z, ((n / 60 / 60) mod 24)%Z.
    split; [reflexivity|].
    Z.div_mod_to_equations. lia.
Qed.

Lemma fmt_td_units_witness :
  (3600 <= int_of_Q 3725 < 172800)%Z
  /\ fmt_td (Some 3725%Q) = $"1h 2m"
  /\ exists h m,
       fmt_td (Some 3725%Q) = str_of_Z h ++ $"h " ++ str_of_Z m ++ $"m"
       /\ (1 <= h < 48 /\ 0 <= m < 60
           /\ 3600 * h + 60 * m <= 3725 < 3600 * h + 60 * m + 60)%Z.
Proof.
  assert (H : (3600 <= int_of_Q 3725 < 172800)%Z)
    by (change (int_of_Q 3725) with 3725%Z; lia).
  split; [exact H|]. split; [vm_compute; reflexivity|].
  exact (proj1 (proj2 (proj2 (proj2 (fmt_td_units 3725%Q)))) H).
Defined.

(* ================================================================== *)
(** * Android exports                                                *)
(* ================================================================== *)

(** ** The Android time stamp, one field at a time *)

Section Fields.
Variable A : Type.
Variable n0 : nat.

Ltac field_case :=
  match goal with
  | |- context [two_digits ?n] =>
      let v := eval vm_compute in (two_digits n) in
      change (two_digits n) with v in *
  end;
  cbn -[Nat.sub length firstn]; rewrite ?grp_two;
  match goal with
  | Hk : _ <> None |- _ =>
      repeat (apply first_success; [|exact Hk]); reflexivity
  end.

Ltac each_value h :=
  first [lia | destruct h as [|h]; [try lia; field_case | each_value h]].

Lemma stage_d (d : nat) (r : regex) (rest : str) (c : caps)
      (k : str -> caps -> option A) :
  1 <= d <= 31 ->
  run n0 true r rest (("d"%string, two_digits d) :: c) k <> None ->
  run n0 true
      (Grp "d" (Lit "3" ;; rng "0" "1" <|> rng "1" "2" ;; anyd
                <|> Lit "0" ;; rng "1" "9" <|> rng "1" "9"
                <|> Lit " " ;; rng "1" "9") ;; r)
      (two_digits d ++ rest) c k
  = run n0 true r rest (("d"%string, two_digits d) :: c) k.
Proof. intros Hd Hk. each_value d. Qed.

Lemma stage_m (m : nat) (r : regex) (rest : str) (c : caps)
      (k : str -> caps -> option A) :
  1 <= m <= 12 ->
  run n0 true r rest (("m"%string, two_digits m) :: c) k <> None ->
  run n0 true
      (Grp "m" (Lit "1" ;; rng "0" "2" <|> Lit "0" ;; rng "1" "9"
                <|> rng "1" "9") ;; r)
      (two_digits m ++ rest) c k
  = run n0 true r rest (("m"%string, two_digits m) :: c) k.
Proof. intros Hm Hk. each_value m. Qed.

Lemma stage_y (y : nat) (r : regex) (rest : str) (c : caps)
      (k : str -> caps -> option A) :
  y < 100 ->
  run n0 true (Grp "y" (anyd ;; anyd) ;; r) (two_digits y ++ rest) c k
  = run n0 true r rest (("y"%string, two_digits y) :: c) k.
Proof.
  intros Hy. assert (Hk : Some 0 <> None) by discriminate.
  each_value y.
Qed.

Lemma stage_H (h : nat) (r : regex) (rest : str) (c : caps)
      (k : str -> caps -> option A) :
  h < 24 ->
  run n0 true r rest (("H"%string, two_digits h) :: c) k <> None ->
  run n0 true
      (Grp "H" (Lit "2" ;; rng "0" "3" <|> rng "0" "1" ;; anyd <|> anyd) ;; r)
      (two_digits h ++ rest) c k
  = run n0 true r rest (("H"%string, two_digits h) :: c) k.
Proof. intros Hh Hk. each_value h. Qed.

Lemma run_slash (r : regex) (rest : str) (c : caps)
      (k : str -> caps -> option A) :
  run n0 true (Lit "/" ;; r) ("/" :: rest) c k = run n0 true r rest c k.
Proof. reflexivity. Qed.

Lemma run_space (n : nat) (r : regex) (rest : str) (c : caps)
      (k : str -> caps -> option A) :
  n < 100 ->
  run n0 true (spaces1 ;; r) (" " :: two_digits n ++ rest) c k
  = run n0 true r (two_digits n ++ rest) c k.
Proof.
  intros Hn. assert (Hc := two_digits_clean n Hn).
  unfold two_digits in *. cbn [app forallb] in *.
  apply andb_prop in Hc. destruct Hc as [Hc _].
  apply negb_true_iff in Hc.
  unfold spaces1. cbn [run]. now rewrite rep_1_one.
Qed.
End Fields.

Lemma days_in_month_le (y m : Z) : (1 <= m <= 12)%Z -> (days_in_month y m <= 31)%Z.
Proof.
  intros Hm. unfold days_in_month.
  each_month Hm; destruct (is_leap y); vm_compute; congruence.
Qed.

Lemma fields_android (dd mo yy hh mi : str) :
  let gd := [("M"%string, mi); ("H"%string, hh); ("y"%string, yy);
             ("m"%string, mo); ("d"%string, dd)] in
  fold_left (convert_group gd) (rev gd) (mkdt 1900 1 1 0 0 0)
  = mkdt (if (int_of yy <=? 68)%Z then int_of yy + 2000 else int_of yy + 1900)
         (int_of mo) (int_of dd) (int_of hh) (int_of mi) 0.
Proof. reflexivity. Qed.

Lemma pivot_int (y : nat) :
  (if (Z.of_nat y <=? 68)%Z then Z.of_nat y + 2000 else Z.of_nat y + 1900)%Z
  = pivot y.
Proof.
  unfold pivot. destruct (Nat.leb_spec y 68), (Z.leb_spec (Z.of_nat y) 68);
    lia.
Qed.

Lemma ddmmyy_clean (d m y : nat) :
  d < 100 -> m < 100 -> y < 100 ->
  forallb (fun c => negb (is_space c)) (ddmmyy d m y) = true.
Proof.
  intros Hd Hm Hy. unfold ddmmyy.
  rewrite forallb_app. cbn [forallb]. rewrite forallb_app. cbn [forallb].
  rewrite !two_digits_clean by assumption. reflexivity.
Qed.

Section AndroidStamp.
Variables d m y h mi : nat.
Hypothesis Hy : y < 100.
Hypothesis Hvalid :
  valid_datetime (mkdt (pivot y) (Z.of_nat m) (Z.of_nat d)
                       (Z.of_nat h) (Z.of_nat mi) 0) = true.

Lemma android_ranges : 1 <= m <= 12 /\ 1 <= d <= 31 /\ h < 24 /\ mi < 60.
Proof.
  assert (V := Hvalid). split_valid V.
  cbn [year month day hour minute] in *.
  assert (Hd := days_in_month_le (pivot y) (Z.of_nat m)). lia.
Qed.

Lemma android_normalized :
  normalize_dt (ddmmyy d m y) (hhmm h mi) = ddmmyy d m y ++ " " :: hhmm h mi.
Proof.
  destruct android_ranges as (Hm & Hd & Hh & Hmi).
  apply normalize_clean.
  - unfold ddmmyy, two_digits. discriminate.
  - unfold hhmm, two_digits. discriminate.
  - apply ddmmyy_clean; lia.
  - now apply hhmm_clean.
Qed.

(** The first template on a date and a time of that shape. *)
Lemma strptime_android :
  strptime (ddmmyy d m y ++ " " :: hhmm h mi) $"%d/%m/%y %H:%M"
  = Some (mkdt (pivot y) (Z.of_nat m) (Z.of_nat d)
               (Z.of_nat h) (Z.of_nat mi) 0).
Proof.
  destruct android_ranges as (Hm & Hd & Hh & Hmi).
  unfold strptime.
  destruct (pattern $"%d/%m/%y %H:%M") as [R|] eqn:Hp;
    simpl in Hp; [|discriminate].
  inversion Hp; subst R; clear Hp.
  set (n0 := length (ddmmyy d m y ++ " " :: hhmm h mi)).
  set (kfin := fun (rest : str) (gd : caps) => Some (rest, gd)).
  unfold ddmmyy, hhmm. repeat (rewrite <- app_assoc; cbn [app]).
  rewrite <- (app_nil_r (two_digits mi)).
  assert (EM : forall c,
    run n0 true (Lit ":" ;; Grp "M" (rng "0" "5" ;; anyd <|> anyd) ;; Eps)
        (":" :: two_digits mi ++ []) c kfin
    = Some ([], ("M"%string, two_digits mi) :: c)).
  { intros c. rewrite run_colon, stage_M; trivial. discriminate. }
  rewrite stage_d; trivial; rewrite run_slash, stage_m; trivial;
    rewrite run_slash, stage_y, run_space by lia;
    rewrite stage_H; trivial; rewrite EM; try discriminate.
  rewrite (fields_android (two_digits d) (two_digits m) (two_digits y)
                          (two_digits h) (two_digits mi)).
  rewrite !int_of_two_digits by lia. rewrite pivot_int.
  now rewrite Hvalid.
Qed.
End AndroidStamp.

(** X15.  A date of the calendar and a time of the day, written [dd/mm/yy] and
    [HH:MM] as in an Android export, are read by the first template, the
    day first: the result is that day of that month, in the year 20yy for
    yy up to 68 and 19yy from 69 on. *)
Theorem android_timestamp (d m y h mi : nat) :
  y < 100 ->
  valid_datetime (mkdt (pivot y) (Z.of_nat m) (Z.of_nat d)
                       (Z.of_nat h) (Z.of_nat mi) 0) = true ->
  try_parse_dt (ddmmyy d m y) (hhmm h mi)
  = Some (mkdt (pivot y) (Z.of_nat m) (Z.of_nat d)
               (Z.of_nat h) (Z.of_nat mi) 0).
Proof.
  intros Hy Hv. unfold try_parse_dt.
  rewrite android_normalized by assumption.
  unfold DT_FORMATS. cbn [try_formats].
  now rewrite strptime_android.
Qed.

Lemma android_timestamp_witness :
  99 < 100
  /\ valid_datetime (mkdt (pivot 99) 12 31 23 59 0) = true
  /\ try_parse_dt $"31/12/99" $"23:59" = Some (mkdt 1999 12 31 23 59 0).
Proof.
  assert (Hy : 99 < 100) by lia.
  assert (Hv : valid_datetime (mkdt (pivot 99) (Z.of_nat 12) (Z.of_nat 31)
                                    (Z.of_nat 23) (Z.of_nat 59) 0) = true)
    by reflexivity.
  split; [exact Hy|]. split; [exact Hv|].
  exact (android_timestamp 31 12 99 23 59 Hy Hv).
Defined.

(** ** The line of an Android export *)

Lemma two_digits_digits (n : nat) :
  n < 100 ->
  exists a b, two_digits n = [a; b] /\ is_digit a = true /\ is_digit b = true.
Proof.
  intros Hn.
  assert (H : forallb is_digit (two_digits n) = true).
  { apply (below_all 100 (fun n => forallb is_digit (two_digits n)));
      [vm_compute; reflexivity | exact Hn]. }
  unfold two_digits in *. cbn [forallb] in H.
  apply andb_prop in H. destruct H as [Ha H].
  apply andb_prop in H. destruct H as [Hb _]. eauto.
Qed.

Section AndroidHead.
Variable A : Type.
Variable n0 : nat.

Lemma rep_2_stop (p : ascii -> bool) (k : str -> option A)
      (a b c : ascii) (s : str) :
  p a = true -> p b = true -> p c = false ->
  rep p 2 (Some 4) (a :: b :: c :: s) k = k (c :: s).
Proof.
  intros Ha Hb Hc. simpl. rewrite Ha, Hb, Hc.
  now destruct (k (c :: s)).
Qed.

Lemma rep_0_one (p : ascii -> bool) (k : str -> option A)
      (a b : ascii) (s : str) :
  p a = true -> p b = false ->
  rep p 0 None (a :: b :: s) k
  = match k (b :: s) with Some x => Some x | None => k (a :: b :: s) end.
Proof. intros Ha Hb. simpl. now rewrite Ha, Hb. Qed.

Lemma android_date_run (d1 d2 m1 m2 y1 y2 : ascii) (s : str) (c : caps)
      (k : str -> caps -> option A) :
  is_digit d1 = true -> is_digit d2 = true -> is_digit m1 = true ->
  is_digit m2 = true -> is_digit y1 = true -> is_digit y2 = true ->
  run n0 false date_re
      (d1 :: d2 :: "/" :: m1 :: m2 :: "/" :: y1 :: y2 :: "," :: s) c k
  = k ("," :: s) c.
Proof.
  intros. digit_hyps. unfold date_re, digits. cbn [run].
  rewrite rep_1_2 by assumption. tests.
  rewrite rep_1_2 by assumption. tests.
  rewrite rep_2_stop by (assumption || reflexivity). tests.
  rewrite !option_id. reflexivity.
Qed.

Lemma android_time_run (h1 h2 n1 n2 : ascii) (r : regex) (rest : str)
      (c : caps) (k : str -> caps -> option A) :
  is_digit h1 = true -> is_digit h2 = true -> is_digit n1 = true ->
  is_digit n2 = true ->
  run n0 false (Grp "time" time_re ;; spaces1 ;; Lit "-" ;; r)
      (h1 :: h2 :: ":" :: n1 :: n2 :: " " :: "-" :: rest) c k
  = run n0 false r rest (("time"%string, [h1; h2; ":"; n1; n2]) :: c) k.
Proof.
  intros. digit_hyps.
  rewrite run_Seq, run_Grp.
  unfold time_re, digits, spaces0, spaces1, word.
  cbn [run fold_right s2l list_ascii_of_string].
  rewrite rep_1_2 by assumption. tests.
  rewrite rep_2_2 by assumption. tests.
  rewrite rep_0_one by reflexivity. tests.
  rewrite ?(rep_1_stop _ _ _ None "-") by reflexivity.
  rewrite rep_1_one by reflexivity. tests.
  rewrite ?option_id.
  assert (E := firstn_app_exact [h1; h2; ":"; n1; n2] (" " :: "-" :: rest)).
  cbn [app] in E. now rewrite E.
Qed.
Lemma bos_run (r : regex) (s : str) (c : caps)
      (k : str -> caps -> option A) :
  n0 = length s ->
  run n0 false (Bos ;; r) s c k = run n0 false r s c k.
Proof. intros ->. cbn [run]. now rewrite Nat.eqb_refl. Qed.

(** [,?\s+] on a comma, a space and something else. *)
Lemma opt_comma_space_run (r : regex) (x : ascii) (s : str) (c : caps)
      (k : str -> caps -> option A) :
  is_space x = false ->
  run n0 false (Opt (Lit ",") ;; spaces1 ;; r) ("," :: " " :: x :: s) c k
  = run n0 false r (x :: s) c k.
Proof.
  intros Hx. unfold spaces1. cbn [run lit_eqb]. concrete_tests. cbv iota.
  rewrite rep_1_one by (reflexivity || assumption).
  rewrite (rep_1_stop _ _ _ None ",") by reflexivity.
  apply option_id.
Qed.
Lemma android_head_assoc (r : regex) (s : str) (c : caps)
      (k : str -> caps -> option A) :
  run n0 false (android_head ;; r) s c k
  = run n0 false
        (Bos ;; Grp "date" date_re ;; Opt (Lit ",") ;; spaces1 ;;
         Grp "time" time_re ;; spaces1 ;; Lit "-" ;; spaces1 ;; r) s c k.
Proof. reflexivity. Qed.
End AndroidHead.

Lemma digit_not_bracket (x : ascii) :
  is_digit x = true -> Ascii.eqb "[" x = false.
Proof.
  destruct x as [b0 b1 b2 b3 b4 b5 b6 b7].
  destruct b0, b1, b2, b3, b4, b5, b6, b7; vm_compute; intros H;
    try discriminate; reflexivity.
Qed.

Lemma bracket_head_digit (A : Type) (n0 : nat) (r : regex) (x : ascii)
      (s : str) (c : caps) (k : str -> caps -> option A) :
  is_digit x = true -> run n0 false (bracket_head ;; r) (x :: s) c k = None.
Proof.
  intros Hx. unfold bracket_head. cbn [run lit_eqb].
  rewrite (digit_not_bracket x Hx).
  now destruct (Nat.eqb _ _).
Qed.

Lemma two_digits_line (n : nat) : n < 100 -> is_line (two_digits n) = true.
Proof.
  intros Hn. destruct (two_digits_digits n Hn) as (a & b & -> & Ha & Hb).
  unfold is_line. cbn [forallb].
  now rewrite (digit_no_break a Ha), (digit_no_break b Hb).
Qed.

Lemma splitlines_join (ls : list str) :
  Forall (fun l => is_line l = true /\ l <> []) ls ->
  splitlines (join [LF] ls) = ls.
Proof.
  induction 1 as [|x ls [Hx Hne] Hls IH]; trivial.
  destruct ls as [|y ls].
  - now apply splitlines_one.
  - change (join [LF] (x :: y :: ls)) with (x ++ LF :: join [LF] (y :: ls)).
    unfold splitlines. rewrite splitlines_from_break by exact Hx.
    simpl. f_equal. exact IH.
Qed.

Section AndroidLine.
Variables d m y h mi : nat.
Hypothesis Hy : y < 100.
Hypothesis Hvalid :
  valid_datetime (mkdt (pivot y) (Z.of_nat m) (Z.of_nat d)
                       (Z.of_nat h) (Z.of_nat mi) 0) = true.

Lemma android_below : d < 100 /\ m < 100 /\ h < 100 /\ mi < 100.
Proof. destruct (android_ranges d m y h mi Hy Hvalid). lia. Qed.

Lemma android_head_run (A : Type) (r : regex) (rest : str)
      (k : str -> caps -> option A) :
  let line := ddmmyy d m y ++ $", " ++ hhmm h mi ++ $" -" ++ rest in
  run (length line) false (android_head ;; r) line [] k
  = run (length line) false (spaces1 ;; r) rest
        [("time"%string, hhmm h mi); ("date"%string, ddmmyy d m y)] k.
Proof.
  intros line. subst line.
  destruct android_below as (Hd & Hm & Hh & Hmi).
  destruct (two_digits_digits d Hd) as (d1 & d2 & Ed & Hd1 & Hd2).
  destruct (two_digits_digits m Hm) as (m1 & m2 & Em & Hm1 & Hm2).
  destruct (two_digits_digits y Hy) as (y1 & y2 & Ey & Hy1 & Hy2).
  destruct (two_digits_digits h Hh) as (h1 & h2 & Eh & Hh1 & Hh2).
  destruct (two_digits_digits mi Hmi) as (n1 & n2 & En & Hn1 & Hn2).
  destruct (digit_facts h1) as (Hh1s & _ & _ & _); trivial.
  unfold ddmmyy, hhmm. rewrite Ed, Em, Ey, Eh, En.
  cbn [app s2l list_ascii_of_string].
  rewrite android_head_assoc, bos_run by reflexivity.
  rewrite run_Seq, run_Grp, android_date_run by assumption. cbv beta.
  rewrite opt_comma_space_run by assumption.
  rewrite android_time_run by assumption.
  assert (E := firstn_app_exact [d1; d2; "/"; m1; m2; "/"; y1; y2]
                 ("," :: " " :: h1 :: h2 :: ":" :: n1 :: n2 :: " " :: "-"
                      :: rest)).
  cbn [app] in E. now rewrite E.
Qed.

Lemma android_line_shape (name text : str) :
  android_line d m y h mi name text
  = ddmmyy d m y ++ $", " ++ hhmm h mi ++ $" -"
      ++ " " :: name ++ ":" :: " " :: text.
Proof.
  unfold android_line. cbn [s2l list_ascii_of_string app].
  repeat f_equal.
Qed.

Lemma android_line_digit (name text : str) :
  exists x s, android_line d m y h mi name text = x :: s
              /\ is_digit x = true.
Proof.
  destruct android_below as (Hd & _).
  destruct (two_digits_digits d Hd) as (d1 & d2 & Ed & Hd1 & _).
  unfold android_line, ddmmyy. rewrite Ed. cbn [app]. eauto.
Qed.

Lemma android_is_line (name text : str) :
  is_line name = true -> is_line text = true ->
  is_line (android_line d m y h mi name text) = true.
Proof.
  intros Hn Ht. destruct android_below as (Hd & Hm & Hh & Hmi).
  assert (Ld := two_digits_line d Hd). assert (Lm := two_digits_line m Hm).
  assert (Ly := two_digits_line y Hy). assert (Lh := two_digits_line h Hh).
  assert (Li := two_digits_line mi Hmi).
  unfold android_line, ddmmyy, hhmm, is_line in *.
  cbn [s2l list_ascii_of_string].
  repeat first [rewrite forallb_app | progress cbn [forallb]].
  rewrite Ld, Lm, Ly, Lh, Li, Hn, Ht. reflexivity.
Qed.

Lemma android_patterns (name text : str) :
  name <> [] -> forallb not_colon name = true -> is_line text = true ->
  first_match PATTERNS (android_line d m y h mi name text)
  = Some [("text"%string, lstrip text); ("sender"%string, after_spaces name);
          ("time"%string, hhmm h mi); ("date"%string, ddmmyy d m y)].
Proof.
  intros Hne Hnc Ht. rewrite android_line_shape.
  unfold PATTERNS. cbn [first_match]. unfold re_match.
  rewrite android_head_run.
  rewrite spaces_sender_text_run; trivial.
  cbn [forallb]. now rewrite (is_line_dot _ Ht).
Qed.

(** One iteration of the loop on such a line: the open message is closed
    and the message of the line is opened. *)
Lemma step_android (st : ParserState) (name text : str) :
  pending_ts st = None ->
  name <> [] -> forallb not_colon name = true ->
  is_line name = true -> is_line text = true ->
  step st (android_line d m y h mi name text)
  = mkState (flush st)
      (Some (mkMessage (Some (mkdt (pivot y) (Z.of_nat m) (Z.of_nat d)
                                   (Z.of_nat h) (Z.of_nat mi) 0))
                       (Some (strip name)) (lstrip text) false))
      None.
Proof.
  intros Hp Hne Hnc Hn Ht. unfold step. rewrite Hp.
  rewrite rstrip_lf_line by (apply is_line_dot; now apply android_is_line).
  assert (Hb : re_match BRACKET_TS_ONLY (android_line d m y h mi name text)
               = None).
  { destruct (android_line_digit name text) as (x & s & -> & Hx).
    unfold re_match, BRACKET_TS_ONLY. now apply bracket_head_digit. }
  rewrite Hb, android_patterns by assumption.
  cbn [get group String.eqb Ascii.eqb Bool.eqb].
  unfold try_parse_dt. rewrite android_normalized by assumption.
  unfold DT_FORMATS. cbn [try_formats].
  rewrite strptime_android by assumption.
  f_equal. f_equal. f_equal.
  unfold strip_sender.
  assert (Hs := strip_after_spaces name Hne).
  destruct (after_spaces name) as [|a l] eqn:Ea.
  - unfold after_spaces in Ea. destruct (lstrip name); discriminate.
  - now rewrite Hs.
Qed.
End AndroidLine.

Lemma entry_ok_spec (e : AndroidEntry) :
  entry_ok e = true ->
  e_year e < 100 /\ valid_datetime (entry_ts e) = true /\ e_name e <> []
  /\ forallb not_colon (e_name e) = true
  /\ is_line (e_name e) = true /\ is_line (e_text e) = true.
Proof.
  unfold entry_ok. intros H.
  repeat (apply andb_prop in H; destruct H as [H ?]).
  apply Nat.ltb_lt in H. repeat split; trivial.
  now destruct (e_name e).
Qed.

Lemma step_entry (st : ParserState) (e : AndroidEntry) :
  pending_ts st = None -> entry_ok e = true ->
  step st (entry_line e) = mkState (flush st) (Some (entry_message e)) None.
Proof.
  intros Hp He.
  destruct (entry_ok_spec e He) as (Hy & Hv & Hne & Hnc & Hn & Ht).
  unfold entry_line, entry_message, entry_ts in *.
  exact (step_android _ _ _ _ _ Hy Hv st (e_name e) (e_text e)
                      Hp Hne Hnc Hn Ht).
Qed.

Lemma parse_entries (es : list AndroidEntry) (st : ParserState) :
  forallb entry_ok es = true -> pending_ts st = None ->
  flush (fold_left step (map entry_line es) st)
  = flush st ++ map entry_message es.
Proof.
  revert st. induction es as [|e es IH]; intros st Hes Hp; simpl.
  - now rewrite app_nil_r.
  - simpl in Hes. apply andb_prop in Hes. destruct Hes as [He Hes].
    rewrite step_entry by assumption.
    rewrite IH by trivial.
    unfold flush at 1. cbn [current messages].
    now rewrite <- app_assoc.
Qed.

Lemma entry_lines (es : list AndroidEntry) :
  forallb entry_ok es = true ->
  Forall (fun l => is_line l = true /\ l <> []) (map entry_line es).
Proof.
  intros Hes. apply Forall_forall. intros l Hl.
  apply in_map_iff in Hl. destruct Hl as (e & <- & He).
  rewrite forallb_forall in Hes. specialize (Hes e He).
  destruct (entry_ok_spec e Hes) as (Hy & Hv & Hne & Hnc & Hn & Ht).
  unfold entry_line, entry_ts in *. split.
  - exact (android_is_line _ _ _ _ _ Hy Hv _ _ Hn Ht).
  - destruct (android_line_digit _ _ _ _ _ Hy Hv (e_name e) (e_text e))
      as (x & s & E & _).
    rewrite E. discriminate.
Qed.

(** X16.  An Android export whose entries have a text of one line is read back
    entry by entry: one message for each line, in the order of the lines,
    with the time stamp of the line (the day first, the year 20yy up to 68
    and 19yy from 69 on), the name without the white space around it as
    sender, and the text without its leading white space. *)
Theorem android_export_roundtrip (es : list AndroidEntry) :
  forallb entry_ok es = true ->
  parse_chat_text (join [LF] (map entry_line es)) = map entry_message es.
Proof.
  intros Hes. unfold parse_chat_text, parse_lines.
  rewrite splitlines_join by now apply entry_lines.
  rewrite parse_entries by trivial.
  cbn [flush init_state current messages app].
  clear Hes. induction es as [|e es IH]; trivial.
  simpl. now rewrite IH.
Qed.

Lemma android_export_roundtrip_witness :
  forallb entry_ok two_entries = true
  /\ parse_chat_text
       $"31/12/99, 23:59 - Anna: ciao
01/01/00, 00:05 -  Bob B. :  a: b"
     = [mkMessage (Some (mkdt 1999 12 31 23 59 0)) (Some $"Anna") $"ciao"
                  false;
        mkMessage (Some (mkdt 2000 1 1 0 5 0)) (Some $"Bob B.") $"a: b"
                  false].
Proof.
  assert (H : forallb entry_ok two_entries = true) by reflexivity.
  split; [exact H|].
  exact (android_export_roundtrip two_entries H).
Defined.
